(** * Link Grabber: the embedding index and semantic search

    A shallow embedding of the AI core of the plugin
    (src/AI/AIEmbeddingDatabase.ts, AIWorkerService.ts, AIService.ts,
    AIIndexingEngine.ts, AISemanticSearch.ts) and the properties its
    specification states about it.

    Conventions
    - JavaScript numbers that hold counts and millisecond time stamps are
      modelled as [Z]; numbers that hold embedding components and cosine
      scores are modelled through the interface [Number], with one instance
      for IEEE-754 doubles (what the program runs on) and one for exact
      real arithmetic.
    - Objects used as dictionaries ([Record<string, ...>]) are [gmap string],
      which holds their own properties; a lookup [obj[key]] that is tested
      for truth also finds the properties of [Object.prototype], listed in
      [Object_prototype]. The [Map] built during a search keeps insertion
      order and is an association list.
    - A string is held as the bytes of its UTF-8 encoding; [length] and
      [substring], which count UTF-16 code units, are [js_length] and
      [substring_to].
    - An [await] is a point where other handlers may run; the indexing pass
      takes the handlers that run at each of its waits as a schedule.
    - The file at [dbPath] is held as the envelope written to it, which is
      what [JSON.parse] reads back when the embeddings hold finite numbers
      other than -0 ([json_exact_db]); JSON writes -0 as 0 and a NaN or an
      infinity as null.
    - [Logger] calls have no effect on the state and are left out. *)

From Stdlib Require Import ZArith List Bool Ascii String Floats Reals Lra Lia.
From stdpp Require Import gmap strings list sorting.

Local Open Scope Z_scope.

(** ** Results of calls that may throw *)

Inductive result (A : Type) : Type :=
| Ok (a : A)
| Throw (msg : string).
Arguments Ok {A} a.
Arguments Throw {A} msg.

Definition bind_result {A B} (r : result A) (k : A → result B) : result B :=
  match r with
  | Ok a => k a
  | Throw m => Throw m
  end.

(** [for (const x of l) { ys.push(f x) }] where [f] may throw. *)
Fixpoint mapM_result {A B} (f : A → result B) (l : list A) : result (list B) :=
  match l with
  | [] => Ok []
  | x :: l' =>
      bind_result (f x) (λ y,
      bind_result (mapM_result f l') (λ ys, Ok (y :: ys)))
  end.

(** ** JavaScript strings

    A string of the program is held as the bytes of its UTF-8 encoding; a
    surrogate that is not half of a pair is held as the three bytes the
    encoding gives a code point of its value. [length] and [substring] count
    UTF-16 code units: one for a character of one, two or three bytes, two
    for a character of four bytes. *)

Definition code (c : ascii) : N := N_of_ascii c.

(** The bytes 10xxxxxx continue the character begun before them. *)
Definition is_continuation (c : ascii) : bool :=
  ((128 <=? code c) && (code c <? 192))%N.

(** The code units of the character a byte begins. *)
Definition units (c : ascii) : nat :=
  if is_continuation c then 0%nat
  else if (240 <=? code c)%N then 2%nat else 1%nat.

(** [s.length] *)
Fixpoint js_length (s : string) : nat :=
  match s with
  | EmptyString => 0%nat
  | String c s' => (units c + js_length s')%nat
  end.

(** The byte 10xxxxxx that carries the six low bits of [k]. *)
Definition continuation (k : N) : ascii := ascii_of_N (128 + k mod 64)%N.

(** The six bits each of the bytes that continue a character carries. *)
Fixpoint continuations (s : string) : list N :=
  match s with
  | EmptyString => []
  | String c s' =>
      if is_continuation c then (code c mod 64)%N :: continuations s' else []
  end.

(** The first code unit of the character of four bytes that begins with [c]
    and goes on in [rest]: for the code point [cp] the surrogate
    D800h + (cp - 10000h) / 400h, as its three bytes. *)
Definition high_surrogate (c : ascii) (rest : string) : string :=
  let b (i : nat) := nth i (continuations rest) 0%N in
  let cp := (code c mod 8 * 262144 + b 0%nat * 4096 + b 1%nat * 64 + b 2%nat)%N in
  let hs := (55296 + (cp - 65536) / 1024)%N in
  String (ascii_of_N 237)
    (String (continuation (hs / 64)) (String (continuation hs) EmptyString)).

(** [s.substring(0, n)]: the first [n] code units, or all of [s] if it has
    fewer. A cut between the two code units of a character leaves the
    first. *)
Fixpoint substring_to (n : nat) (s : string) : string :=
  match s with
  | EmptyString => EmptyString
  | String c s' =>
      match units c, n with
      | O, _ => String c (substring_to n s')
      | _, O => EmptyString
      | S O, S n' => String c (substring_to n' s')
      | _, S O => high_surrogate c s'
      | _, S (S n') => String c (substring_to n' s')
      end
  end.

(** ** Objects used as dictionaries *)

(** The properties every object inherits from [Object.prototype]. For these
    keys [obj[key]] is a function or an object, so a test [if (obj[key])]
    succeeds whether or not the object has a property of its own under the
    key. *)
Definition Object_prototype : list string :=
  ["constructor"; "__defineGetter__"; "__defineSetter__"; "hasOwnProperty";
   "__lookupGetter__"; "__lookupSetter__"; "isPrototypeOf";
   "propertyIsEnumerable"; "toString"; "valueOf"; "__proto__";
   "toLocaleString"]%string.

Definition inherited (key : string) : bool := bool_decide (key ∈ Object_prototype).

(** ** JavaScript numbers used in arithmetic *)

Class Number (num : Type) : Type := {
  num_zero : num;
  num_add : num → num → num;
  num_sub : num → num → num;
  num_mul : num → num → num;
  num_div : num → num → num;
  num_sqrt : num → num;          (* Math.sqrt *)
  num_eqb : num → num → bool;    (* === *)
  num_ltb : num → num → bool;    (* <   *)
  num_leb : num → num → bool     (* <=  *)
}.

(** [a > b] is [b < a] and [a >= b] is [b <= a], also for doubles. *)
Definition num_gtb {num : Type} `{!Number num} (a b : num) : bool := num_ltb b a.
Definition num_geb {num : Type} `{!Number num} (a b : num) : bool := num_leb b a.

(** IEEE-754 binary64, the arithmetic of the JavaScript engine. *)
#[export] Instance double_Number : Number float := {|
  num_zero := 0%float;
  num_add := PrimFloat.add;
  num_sub := PrimFloat.sub;
  num_mul := PrimFloat.mul;
  num_div := PrimFloat.div;
  num_sqrt := PrimFloat.sqrt;
  num_eqb := PrimFloat.eqb;
  num_ltb := PrimFloat.ltb;
  num_leb := PrimFloat.leb
|}.

(** Exact real arithmetic: the same formulas without rounding. *)
#[export] Instance real_Number : Number R := {|
  num_zero := 0%R;
  num_add := Rplus;
  num_sub := Rminus;
  num_mul := Rmult;
  num_div := Rdiv;
  num_sqrt := sqrt;
  num_eqb := λ x y, if Req_dec_T x y then true else false;
  num_ltb := λ x y, if Rlt_dec x y then true else false;
  num_leb := λ x y, if Rle_dec x y then true else false
|}.

(** ** AISemanticSearch.cosineSimilarity *)

Module Cosine.
Section Cosine.
Context {num : Type} `{!Number num}.

(** One iteration of the loop body: the three running sums. *)
Definition accumulate (acc : num * num * num) (xy : num * num) : num * num * num :=
  let '(dotProduct, normA, normB) := acc in
  let '(x, y) := xy in
  (num_add dotProduct (num_mul x y),
   num_add normA (num_mul x x),
   num_add normB (num_mul y y)).

Definition cosineSimilarity (a b : list num) : result num :=
  if negb (length a =? length b)%nat then Throw "Vectors must have same length"
  else
    let '(dotProduct, normA, normB) :=
      fold_left accumulate (combine a b) (num_zero, num_zero, num_zero) in
    let denominator := num_mul (num_sqrt normA) (num_sqrt normB) in
    Ok (if num_eqb denominator num_zero then num_zero
        else num_div dotProduct denominator).
End Cosine.
End Cosine.

(** The sum of the squares of the components as the loop accumulates it,
    and the norm the code takes from it. *)
Definition sum_squares {num : Type} `{!Number num} (a : list num) : num :=
  fold_left (λ acc x, num_add acc (num_mul x x)) a num_zero.

Definition computed_norm {num : Type} `{!Number num} (a : list num) : num :=
  num_sqrt (sum_squares a).

(** The sum of the products of the components, likewise. *)
Definition sum_products {num : Type} `{!Number num} (a b : list num) : num :=
  fold_left (λ acc xy, num_add acc (num_mul xy.1 xy.2)) (combine a b) num_zero.

(** The specification's reading of the formula, over the reals. *)
Fixpoint dot_product (a b : list R) : R :=
  match a, b with
  | x :: a', y :: b' => (x * y + dot_product a' b')%R
  | _, _ => 0%R
  end.

Definition l2_norm (a : list R) : R := sqrt (dot_product a a).

(** ** AIEmbeddingDatabase: the persisted envelope *)

Inductive IndexType : Type := titles | headings | content.

#[export] Instance IndexType_eq_dec : EqDecision IndexType.
Proof. solve_decision. Defined.

Section Database.
Context {num : Type}.

Record TitleEmbedding : Type := {
  t_path : string;
  t_embedding : list num;
  t_lastModified : Z;
  t_title : string
}.

Record HeadingEmbedding : Type := {
  h_path : string;
  h_embedding : list num;
  h_lastModified : Z;
  h_headings : list string
}.

Record ContentEmbedding : Type := {
  c_path : string;
  c_embedding : list num;
  c_lastModified : Z;
  c_excerpt : string
}.

(** [lastHeartbeat] is [None] when the property is [undefined], which
    happens only in envelopes written before the field existed. *)
Record IndexingState : Type := {
  isIndexing : bool;
  progress : Z;
  total : Z;
  lastIndexed : Z;
  lastHeartbeat : option Z
}.

(** [Partial<IndexingState>]: the properties present in the argument of
    [setIndexingState]. *)
Record PartialIndexingState : Type := {
  p_isIndexing : option bool;
  p_progress : option Z;
  p_total : option Z;
  p_lastIndexed : option Z;
  p_lastHeartbeat : option Z
}.

Record IndexingStates : Type := {
  st_titles : IndexingState;
  st_headings : IndexingState;
  st_content : IndexingState
}.

Record EmbeddingDatabases : Type := {
  version : string;
  lastUpdate : Z;
  db_titles : gmap string TitleEmbedding;
  db_headings : gmap string HeadingEmbedding;
  db_content : gmap string ContentEmbedding;
  indexingStates : IndexingStates
}.

Definition createEmptyState : IndexingState :=
  {| isIndexing := false; progress := 0; total := 0;
     lastIndexed := 0; lastHeartbeat := Some 0 |}.

Definition createEmptyDatabase (now : Z) : EmbeddingDatabases :=
  {| version := "2.0.0";
     lastUpdate := now;
     db_titles := ∅;
     db_headings := ∅;
     db_content := ∅;
     indexingStates :=
       {| st_titles := createEmptyState;
          st_headings := createEmptyState;
          st_content := createEmptyState |} |}.

(** [Object.assign(state, partial)] *)
Definition assign (st : IndexingState) (p : PartialIndexingState) : IndexingState :=
  {| isIndexing := default (isIndexing st) (p_isIndexing p);
     progress := default (progress st) (p_progress p);
     total := default (total st) (p_total p);
     lastIndexed := default (lastIndexed st) (p_lastIndexed p);
     lastHeartbeat :=
       match p_lastHeartbeat p with
       | Some v => Some v
       | None => lastHeartbeat st
       end |}.

Definition with_indexingStates (sts : IndexingStates) (d : EmbeddingDatabases)
  : EmbeddingDatabases :=
  {| version := version d; lastUpdate := lastUpdate d;
     db_titles := db_titles d; db_headings := db_headings d;
     db_content := db_content d; indexingStates := sts |}.

Definition with_titles (m : gmap string TitleEmbedding) (d : EmbeddingDatabases)
  : EmbeddingDatabases :=
  {| version := version d; lastUpdate := lastUpdate d;
     db_titles := m; db_headings := db_headings d;
     db_content := db_content d; indexingStates := indexingStates d |}.

Definition with_headings (m : gmap string HeadingEmbedding) (d : EmbeddingDatabases)
  : EmbeddingDatabases :=
  {| version := version d; lastUpdate := lastUpdate d;
     db_titles := db_titles d; db_headings := m;
     db_content := db_content d; indexingStates := indexingStates d |}.

Definition with_content (m : gmap string ContentEmbedding) (d : EmbeddingDatabases)
  : EmbeddingDatabases :=
  {| version := version d; lastUpdate := lastUpdate d;
     db_titles := db_titles d; db_headings := db_headings d;
     db_content := m; indexingStates := indexingStates d |}.

Definition with_lastUpdate (now : Z) (d : EmbeddingDatabases) : EmbeddingDatabases :=
  {| version := version d; lastUpdate := now;
     db_titles := db_titles d; db_headings := db_headings d;
     db_content := db_content d; indexingStates := indexingStates d |}.

Definition setTitleEmbedding (path : string) (e : TitleEmbedding)
  (d : EmbeddingDatabases) : EmbeddingDatabases :=
  with_titles (<[path := e]> (db_titles d)) d.

Definition getTitleEmbedding (path : string) (d : EmbeddingDatabases)
  : option TitleEmbedding := db_titles d !! path.

Definition removeTitleEmbedding (path : string) (d : EmbeddingDatabases)
  : EmbeddingDatabases := with_titles (delete path (db_titles d)) d.

Definition setHeadingEmbedding (path : string) (e : HeadingEmbedding)
  (d : EmbeddingDatabases) : EmbeddingDatabases :=
  with_headings (<[path := e]> (db_headings d)) d.

Definition getHeadingEmbedding (path : string) (d : EmbeddingDatabases)
  : option HeadingEmbedding := db_headings d !! path.

Definition removeHeadingEmbedding (path : string) (d : EmbeddingDatabases)
  : EmbeddingDatabases := with_headings (delete path (db_headings d)) d.

Definition setContentEmbedding (path : string) (e : ContentEmbedding)
  (d : EmbeddingDatabases) : EmbeddingDatabases :=
  with_content (<[path := e]> (db_content d)) d.

Definition getContentEmbedding (path : string) (d : EmbeddingDatabases)
  : option ContentEmbedding := db_content d !! path.

Definition removeContentEmbedding (path : string) (d : EmbeddingDatabases)
  : EmbeddingDatabases := with_content (delete path (db_content d)) d.

Definition getIndexingState (type : IndexType) (d : EmbeddingDatabases)
  : IndexingState :=
  match type with
  | titles => st_titles (indexingStates d)
  | headings => st_headings (indexingStates d)
  | content => st_content (indexingStates d)
  end.

Definition putIndexingState (type : IndexType) (st : IndexingState)
  (d : EmbeddingDatabases) : EmbeddingDatabases :=
  let sts := indexingStates d in
  with_indexingStates
    match type with
    | titles => {| st_titles := st; st_headings := st_headings sts;
                   st_content := st_content sts |}
    | headings => {| st_titles := st_titles sts; st_headings := st;
                     st_content := st_content sts |}
    | content => {| st_titles := st_titles sts; st_headings := st_headings sts;
                    st_content := st |}
    end d.

Definition setIndexingState (type : IndexType) (p : PartialIndexingState)
  (d : EmbeddingDatabases) : EmbeddingDatabases :=
  putIndexingState type (assign (getIndexingState type d) p) d.

(** What [adapter.exists] and [adapter.read] + [JSON.parse] find at [dbPath]. *)
Inductive DiskFile : Type :=
| Missing
| Unreadable                       (* read or JSON.parse throws *)
| Stored (e : EmbeddingDatabases).

(** The body of the [for] loop of [load] for one collection: a missing
    heartbeat becomes 0, and a lock whose heartbeat is positive and more
    than 30 s old is released. *)
Definition recoverStaleLock (now : Z) (type : IndexType) (d : EmbeddingDatabases)
  : EmbeddingDatabases :=
  let d :=
    match lastHeartbeat (getIndexingState type d) with
    | None =>
        setIndexingState type
          {| p_isIndexing := None; p_progress := None; p_total := None;
             p_lastIndexed := None; p_lastHeartbeat := Some 0 |} d
    | Some _ => d
    end in
  let state := getIndexingState type d in
  if isIndexing state then
    let hb := default 0 (lastHeartbeat state) in
    let isStale := (0 <? hb) && (30000 <? now - hb) in
    if isStale then
      setIndexingState type
        {| p_isIndexing := Some false; p_progress := None; p_total := None;
           p_lastIndexed := None; p_lastHeartbeat := None |} d
    else d
  else d.

End Database.

Arguments TitleEmbedding : clear implicits.
Arguments HeadingEmbedding : clear implicits.
Arguments ContentEmbedding : clear implicits.
Arguments EmbeddingDatabases : clear implicits.
Arguments DiskFile : clear implicits.

(** ** The host, the observable events and the state of the plugin *)

Inductive TextType : Type := query | passage.

(** [TFile]: the properties of a vault file the engine reads. *)
Record TFile : Type := {
  path : string;
  basename : string;
  stat_mtime : Z
}.

Record Settings : Type := {
  aiIndexTitles : bool;
  aiIndexHeadings : bool;
  aiIndexContent : bool
}.

(** Calls that leave the engine, in the order they are made. *)
Inductive Event : Type :=
| EvEmbed (text : string) (textType : TextType)  (* aiService.generateEmbedding *)
| EvWrite                                        (* adapter.write(dbPath, ...) *)
| EvSleep (ms : Z)                               (* setTimeout(resolve, ms) *)
| EvProgress (current total : Z)                 (* the caller's onProgress *)
| EvIndexingUpdate (type : IndexType) (isActive : bool) (current total : Z)
                                                 (* 'link-grabber:indexing-update' *)
| EvSettingsChanged.                             (* 'link-grabber:ai-settings-changed' *)

(** Handlers that may run while an operation waits. *)
Inductive Interrupt : Type :=
| CancelRequest      (* cancelBackgroundIndexing() is called *)
| CancelCleanup      (* a 100 ms timer set by cancelBackgroundIndexing fires *)
| Elapse (ms : Z).   (* time passes *)

#[export] Instance Interrupt_eq_dec : EqDecision Interrupt.
Proof. solve_decision. Defined.

Section Engine.
Context {num : Type}.

(** What the engine calls but does not implement. The service answers a
    request with an embedding or with none; the reads of the vault are taken
    to succeed. *)
Record Host : Type := {
  aiService_generateEmbedding : string → TextType → option (list num);
  cachedRead : TFile → string;
  fileCache_headings : TFile → option (list string);
  getMarkdownFiles : list TFile
}.

Record World : Type := {
  db : EmbeddingDatabases num;      (* AIEmbeddingDatabase.db *)
  disk : DiskFile num;              (* the file at dbPath *)
  cancelIndexing : bool;            (* AIIndexingEngine.cancelIndexing *)
  cleanupTimers : nat;              (* pending timers of cancelBackgroundIndexing *)
  clock : Z;                        (* Date.now() *)
  trace : list Event;
  schedule : list (list Interrupt)  (* handlers that run at the coming waits *)
}.

Definition with_db (d : EmbeddingDatabases num) (w : World) : World :=
  {| db := d; disk := disk w; cancelIndexing := cancelIndexing w;
     cleanupTimers := cleanupTimers w; clock := clock w; trace := trace w;
     schedule := schedule w |}.

Definition with_disk (f : DiskFile num) (w : World) : World :=
  {| db := db w; disk := f; cancelIndexing := cancelIndexing w;
     cleanupTimers := cleanupTimers w; clock := clock w; trace := trace w;
     schedule := schedule w |}.

Definition with_cancelIndexing (b : bool) (w : World) : World :=
  {| db := db w; disk := disk w; cancelIndexing := b;
     cleanupTimers := cleanupTimers w; clock := clock w; trace := trace w;
     schedule := schedule w |}.

Definition with_cleanupTimers (n : nat) (w : World) : World :=
  {| db := db w; disk := disk w; cancelIndexing := cancelIndexing w;
     cleanupTimers := n; clock := clock w; trace := trace w;
     schedule := schedule w |}.

Definition with_clock (t : Z) (w : World) : World :=
  {| db := db w; disk := disk w; cancelIndexing := cancelIndexing w;
     cleanupTimers := cleanupTimers w; clock := t; trace := trace w;
     schedule := schedule w |}.

Definition with_schedule (s : list (list Interrupt)) (w : World) : World :=
  {| db := db w; disk := disk w; cancelIndexing := cancelIndexing w;
     cleanupTimers := cleanupTimers w; clock := clock w; trace := trace w;
     schedule := s |}.

Definition emit (e : Event) (w : World) : World :=
  {| db := db w; disk := disk w; cancelIndexing := cancelIndexing w;
     cleanupTimers := cleanupTimers w; clock := clock w;
     trace := trace w ++ [e]; schedule := schedule w |}.

Definition update_db (f : EmbeddingDatabases num → EmbeddingDatabases num)
  (w : World) : World := with_db (f (db w)) w.

(** *** AIEmbeddingDatabase.save, reset, load *)

(** [this.db.lastUpdate = Date.now(); adapter.write(dbPath, JSON.stringify(this.db))]:
    the envelope is serialised before the write is awaited. A write that
    fails is logged and swallowed by [save]; the model takes it to succeed. *)
Definition writeEnvelope (w : World) : World :=
  let d := with_lastUpdate (clock w) (db w) in
  emit EvWrite (with_disk (Stored d) (with_db d w)).

Definition isAnyIndexing (d : EmbeddingDatabases num) : bool :=
  isIndexing (getIndexingState titles d)
  || isIndexing (getIndexingState headings d)
  || isIndexing (getIndexingState content d).

Definition release : PartialIndexingState :=
  {| p_isIndexing := Some false; p_progress := None; p_total := None;
     p_lastIndexed := None; p_lastHeartbeat := None |}.

Definition setAllIndexingFalse (d : EmbeddingDatabases num) : EmbeddingDatabases num :=
  setIndexingState content release
    (setIndexingState headings release
       (setIndexingState titles release d)).

(** The synchronous part of [cancelBackgroundIndexing]. *)
Definition cancelBackgroundIndexing (w : World) : World :=
  if isAnyIndexing (db w) then
    with_cleanupTimers (S (cleanupTimers w)) (with_cancelIndexing true w)
  else w.

(** The callback of the timer set by [cancelBackgroundIndexing]. *)
Definition cancelCleanup (w : World) : World :=
  match cleanupTimers w with
  | O => w
  | S n => writeEnvelope (update_db setAllIndexingFalse (with_cleanupTimers n w))
  end.

Definition runInterrupt (w : World) (i : Interrupt) : World :=
  match i with
  | CancelRequest => cancelBackgroundIndexing w
  | CancelCleanup => cancelCleanup w
  | Elapse ms => with_clock (clock w + ms) w
  end.

(** An [await] on a timer, the worker or the disk: the handlers scheduled
    for this wait run before the operation resumes. *)
Definition yield (w : World) : World :=
  match schedule w with
  | [] => w
  | handlers :: rest => fold_left runInterrupt handlers (with_schedule rest w)
  end.

Definition save (w : World) : World := yield (writeEnvelope w).

Definition reset (w : World) : World :=
  save (with_db (createEmptyDatabase (clock w)) w).

Definition load (w : World) : World :=
  match disk w with
  | Missing => reset w
  | Unreadable => w
  | Stored loaded =>
      if String.eqb (version loaded) "2.0.0" then
        with_db (fold_left (λ d type, recoverStaleLock (clock w) type d)
                   [titles; headings; content] loaded) w
      else reset w
  end.

Definition sleep (ms : Z) (w : World) : World :=
  yield (with_clock (clock w + ms) (emit (EvSleep ms) w)).

(** ** AIIndexingEngine *)

Record IndexingParams : Type := {
  chunkSize : nat;
  delayMs : Z;
  saveEvery : Z
}.

Definition INDEXING_PARAMS (type : IndexType) : IndexingParams :=
  match type with
  | titles => {| chunkSize := 25; delayMs := 5; saveEvery := 25 |}
  | headings => {| chunkSize := 5; delayMs := 10; saveEvery := 15 |}
  | content => {| chunkSize := 2; delayMs := 50; saveEvery := 5 |}
  end.

Variable host : Host.
Variable settings : Settings.

Definition generatePassageEmbedding (text : string) (w : World)
  : option (list num) * World :=
  (aiService_generateEmbedding host text passage,
   yield (emit (EvEmbed text passage) w)).

Definition is_current {A} (lastModified : A → Z) (existing : option A) (file : TFile)
  : bool :=
  match existing with
  | Some e => lastModified e =? stat_mtime file
  | None => false
  end.

Definition indexTitle (file : TFile) (w : World) : World :=
  let existing := getTitleEmbedding (path file) (db w) in
  if is_current t_lastModified existing file then w
  else
    let '(embedding, w) := generatePassageEmbedding (basename file) w in
    match embedding with
    | None => w
    | Some embedding =>
        update_db (setTitleEmbedding (path file)
          {| t_path := path file; t_embedding := embedding;
             t_lastModified := stat_mtime file; t_title := basename file |}) w
    end.

Definition newline : string := String (Ascii.ascii_of_nat 10) EmptyString.

Definition indexHeadings (file : TFile) (w : World) : World :=
  let existing := getHeadingEmbedding (path file) (db w) in
  if is_current h_lastModified existing file then w
  else
    match fileCache_headings host file with
    | None | Some [] =>
        match getHeadingEmbedding (path file) (db w) with
        | Some _ => update_db (removeHeadingEmbedding (path file)) w
        | None => w
        end
    | Some hs =>
        let headingsText := String.concat newline hs in
        let '(embedding, w) := generatePassageEmbedding headingsText w in
        match embedding with
        | None => w
        | Some embedding =>
            update_db (setHeadingEmbedding (path file)
              {| h_path := path file; h_embedding := embedding;
                 h_lastModified := stat_mtime file; h_headings := hs |}) w
        end
    end.

(** [s.replace(/\n/g, ' ')] *)
Fixpoint replace_newlines (s : string) : string :=
  match s with
  | EmptyString => EmptyString
  | String c s' =>
      String (if Ascii.eqb c (Ascii.ascii_of_nat 10) then " "%char else c)
             (replace_newlines s')
  end.

Definition indexContent (file : TFile) (w : World) : World :=
  let existing := getContentEmbedding (path file) (db w) in
  if is_current c_lastModified existing file then w
  else
    let text := cachedRead host file in
    let w := yield w in
    let maxLength := 3000%nat in
    let text :=
      if (maxLength <? js_length text)%nat then substring_to maxLength text
      else text in
    let '(embedding, w) := generatePassageEmbedding text w in
    match embedding with
    | None => w
    | Some embedding =>
        update_db (setContentEmbedding (path file)
          {| c_path := path file; c_embedding := embedding;
             c_lastModified := stat_mtime file;
             c_excerpt := replace_newlines (substring_to 150 text) |}) w
    end.

Definition indexNote (file : TFile) (doSave : bool) (w : World) : World :=
  let w := if aiIndexTitles settings then indexTitle file w else w in
  let w := if aiIndexHeadings settings then indexHeadings file w else w in
  let w := if aiIndexContent settings then indexContent file w else w in
  if doSave then save w else w.

Definition triggerIndexingUpdate (type : IndexType) (current total_ : option Z)
  (w : World) : World :=
  let state := getIndexingState type (db w) in
  emit (EvIndexingUpdate type (isIndexing state)
          (default (progress state) current) (default (total state) total_)) w.

Definition indexOne (type : IndexType) : TFile → World → World :=
  match type with
  | titles => indexTitle
  | headings => indexHeadings
  | content => indexContent
  end.

(** [files.slice(i, j)] *)
Definition slice {A} (i j : nat) (l : list A) : list A := take (j - i) (drop i l).

(** The loop of [indexAllTitles], [indexAllHeadings] and [indexAllContent],
    which differ in the collection, its parameters and the routine run on
    each file. [fuel] bounds the number of iterations; [None] is returned
    when it runs out. *)
Fixpoint chunkLoop (fuel : nat) (type : IndexType) (files : list TFile)
  (onProgress : option (Z → Z → World → World)) (i : nat) (indexed : Z) (w : World)
  : option World :=
  match fuel with
  | O => None
  | S fuel' =>
      let params := INDEXING_PARAMS type in
      if (i <? length files)%nat then
        if cancelIndexing w then Some w
        else
          let w := sleep (delayMs params) w in
          let chunk := slice i (Nat.min (i + chunkSize params) (length files)) files in
          let w := fold_left (λ w file, indexOne type file w) chunk w in
          let indexed := indexed + Z.of_nat (length chunk) in
          let w := update_db (setIndexingState type
                     {| p_isIndexing := None; p_progress := Some indexed;
                        p_total := None; p_lastIndexed := None;
                        p_lastHeartbeat := Some (clock w) |}) w in
          let w := match onProgress with
                   | Some callback => callback indexed (Z.of_nat (length files)) w
                   | None => w
                   end in
          let w :=
            if Z.rem indexed (saveEvery params) =? 0 then
              triggerIndexingUpdate type (Some indexed)
                (Some (Z.of_nat (length files))) (save w)
            else w in
          chunkLoop fuel' type files onProgress (i + chunkSize params) indexed w
      else Some w
  end.

Definition indexAll (type : IndexType) (files : list TFile)
  (onProgress : option (Z → Z → World → World)) (w : World) : option World :=
  chunkLoop (S (length files)) type files onProgress 0 0 w.



Definition indexAllTitles := indexAll titles.
Definition indexAllHeadings := indexAll headings.
Definition indexAllContent := indexAll content.

(** The callback [indexSpecificType] hands to the loop. *)
Definition progressCallback (type : IndexType) (onProgress : bool)
  (current total_ : Z) (w : World) : World :=
  let w := if onProgress then emit (EvProgress current total_) w else w in
  triggerIndexingUpdate type (Some current) (Some total_) w.

(** The guard and the locking of [indexSpecificType], up to its first wait. *)
Definition markIndexing (type : IndexType) (totalFiles : Z) (w : World) : World :=
  update_db (setIndexingState type
    {| p_isIndexing := Some true; p_progress := Some 0;
       p_total := Some totalFiles; p_lastIndexed := None;
       p_lastHeartbeat := Some (clock w) |}) (with_cancelIndexing false w).

(** What [indexSpecificType] does once the loop has returned. *)
Definition completeIndexing (type : IndexType) (w : World) : World :=
  let w := update_db (setIndexingState type
             {| p_isIndexing := Some false; p_progress := None; p_total := None;
                p_lastIndexed := Some (clock w); p_lastHeartbeat := None |}) w in
  let w := save w in
  let w := triggerIndexingUpdate type None None w in
  let w := emit EvSettingsChanged w in
  update_db (setIndexingState type
    {| p_isIndexing := None; p_progress := Some 0; p_total := Some 0;
       p_lastIndexed := None; p_lastHeartbeat := None |}) w.

(** The [catch] block of [indexSpecificType]. Nothing the loop calls throws
    in this model (every routine catches its own errors), so the block is
    reached only if the caller's [onProgress] throws. *)
Definition failIndexing (type : IndexType) (w : World) : World :=
  triggerIndexingUpdate type None None
    (update_db (setIndexingState type
       {| p_isIndexing := Some false; p_progress := Some 0; p_total := Some 0;
          p_lastIndexed := None; p_lastHeartbeat := None |}) w).

Definition indexSpecificType (type : IndexType) (onProgress : bool) (w : World)
  : option World :=
  if isAnyIndexing (db w) then Some w
  else
    let files := getMarkdownFiles host in
    let w := markIndexing type (Z.of_nat (length files)) w in
    let w := save w in
    match indexAll type files (Some (progressCallback type onProgress)) w with
    | Some w => Some (completeIndexing type w)
    | None => None
    end.

(** [if (this.database.getTitleEmbedding(path))]: the collection has a record
    of its own under the path, or the path is a key of [Object.prototype]. *)
Definition found {A} (existing : option A) (p : string) : bool :=
  bool_decide (is_Some existing) || inherited p.

Definition removeNote (p : string) (w : World) : World :=
  let removed := false in
  let '(w, removed) :=
    if found (getTitleEmbedding p (db w)) p
    then (update_db (removeTitleEmbedding p) w, true)
    else (w, removed) in
  let '(w, removed) :=
    if found (getHeadingEmbedding p (db w)) p
    then (update_db (removeHeadingEmbedding p) w, true)
    else (w, removed) in
  let '(w, removed) :=
    if found (getContentEmbedding p (db w)) p
    then (update_db (removeContentEmbedding p) w, true)
    else (w, removed) in
  if (removed : bool) then save w else w.

(** [existing && existing.lastModified !== file.stat.mtime] *)
Definition is_stale {A} (lastModified : A → Z) (existing : option A) (file : TFile)
  : bool :=
  match existing with
  | Some e => negb (lastModified e =? stat_mtime file)
  | None => false
  end.

Definition needsUpdate (file : TFile) (d : EmbeddingDatabases num) : bool :=
  let titleExists := getTitleEmbedding (path file) d in
  let headingExists := getHeadingEmbedding (path file) d in
  let contentExists := getContentEmbedding (path file) d in
  is_stale t_lastModified titleExists file
  || is_stale h_lastModified headingExists file
  || is_stale c_lastModified contentExists file
  || (negb (bool_decide (is_Some titleExists))
      && negb (bool_decide (is_Some headingExists))
      && negb (bool_decide (is_Some contentExists))).

Definition updateNoteIfNeeded (file : TFile) (w : World) : World :=
  if needsUpdate file (db w) then indexNote file true w else w.

End Engine.

Arguments Host : clear implicits.
Arguments World : clear implicits.

(** ** AIWorkerService: the inference client *)

Module AIWorkerService.

Record t : Type := {
  worker : bool;                  (* this.worker !== null *)
  isReady : bool;
  pendingRequests : list string;  (* the request ids awaiting a response *)
  restartAttempts : Z;
  lastRestartTime : Z
}.

Definition MAX_RESTART_ATTEMPTS : Z := 3.
Definition MIN_RESTART_INTERVAL : Z := 5000.

Definition initial : t :=
  {| worker := false; isReady := false; pendingRequests := [];
     restartAttempts := 0; lastRestartTime := 0 |}.

(** How an attempt to start the inference unit ends. *)
Inductive InitOutcome : Type :=
| ImportFails     (* the worker cannot be created: this.worker stays null *)
| LoadFails       (* loadModelFiles throws after the worker was created *)
| BecomesReady    (* 'transformers-loaded' arrives *)
| NeverReady.     (* waitForReady polls without end *)

(** [initialize()]: the value the promise resolves to ([None] when it never
    settles) and the state it leaves. *)
Definition initialize (o : InitOutcome) (s : t) : option bool * t :=
  if worker s then (Some (isReady s), s)
  else
    match o with
    | ImportFails => (Some false, s)
    | LoadFails =>
        (Some false,
         {| worker := true; isReady := isReady s;
            pendingRequests := pendingRequests s;
            restartAttempts := restartAttempts s;
            lastRestartTime := lastRestartTime s |})
    | BecomesReady =>
        (Some true,
         {| worker := true; isReady := true;
            pendingRequests := pendingRequests s;
            restartAttempts := restartAttempts s;
            lastRestartTime := lastRestartTime s |})
    | NeverReady =>
        (None,
         {| worker := true; isReady := isReady s;
            pendingRequests := pendingRequests s;
            restartAttempts := restartAttempts s;
            lastRestartTime := lastRestartTime s |})
    end.

(** What [handleWorkerError] decides. *)
Inductive CrashAction : Type :=
| GiveUp                        (* max attempts reached: a notice, no restart *)
| TooSoon                       (* less than MIN_RESTART_INTERVAL: skipped *)
| ScheduleRestart (delay : Z).  (* setTimeout(restart, delay) *)

Definition handleWorkerError (now : Z) (s : t) : t * CrashAction :=
  let timeSinceLastRestart := now - lastRestartTime s in
  let attempts :=
    if 60000 <? timeSinceLastRestart then 0 else restartAttempts s in
  if MAX_RESTART_ATTEMPTS <=? attempts then
    ({| worker := worker s; isReady := false; pendingRequests := [];
        restartAttempts := attempts; lastRestartTime := lastRestartTime s |},
     GiveUp)
  else if timeSinceLastRestart <? MIN_RESTART_INTERVAL then
    ({| worker := worker s; isReady := false; pendingRequests := [];
        restartAttempts := attempts; lastRestartTime := lastRestartTime s |},
     TooSoon)
  else
    let backoffDelay := Z.min (2000 * 2 ^ attempts) 10000 in
    ({| worker := worker s; isReady := false; pendingRequests := [];
        restartAttempts := attempts + 1; lastRestartTime := now |},
     ScheduleRestart backoffDelay).

(** The callback of the restart timer. *)
Definition restartCallback (o : InitOutcome) (s : t) : t :=
  let '(settled, s) := initialize o s in
  match settled with
  | None => s
  | Some _ =>
      if isReady s then
        {| worker := worker s; isReady := isReady s;
           pendingRequests := pendingRequests s;
           restartAttempts := 0; lastRestartTime := lastRestartTime s |}
      else s
  end.

Definition isWorkerReady (s : t) : bool := isReady s && worker s.

Definition cleanup (s : t) : t :=
  if worker s then
    {| worker := false; isReady := false; pendingRequests := [];
       restartAttempts := restartAttempts s;
       lastRestartTime := lastRestartTime s |}
  else s.

Definition forceReset (o : InitOutcome) (s : t) : option bool * t :=
  initialize o
    {| worker := false; isReady := false; pendingRequests := [];
       restartAttempts := 0; lastRestartTime := 0 |}.

(** What reaches the client after it was created. *)
Inductive ClientEvent : Type :=
| Crash (now : Z)                       (* worker.onerror *)
| RestartTimer (o : InitOutcome).       (* a scheduled restart fires *)

Definition handle (s : t) (e : ClientEvent) : t :=
  match e with
  | Crash now => fst (handleWorkerError now s)
  | RestartTimer o => restartCallback o s
  end.

(** The decisions [handleWorkerError] takes along a run of events. *)
Fixpoint decisions (s : t) (es : list ClientEvent) : list CrashAction :=
  match es with
  | [] => []
  | Crash now :: es' =>
      snd (handleWorkerError now s) :: decisions (fst (handleWorkerError now s)) es'
  | RestartTimer o :: es' => decisions (restartCallback o s) es'
  end.

(** Everything that reaches the client short of [cleanup] and [forceReset]:
    besides crashes and restart timers, the message of a worker that has
    loaded the model, a call of [initialize], and the requests made, answered
    or timed out, which change the pending requests only. *)
Inductive Occurrence : Type :=
| Happens (e : ClientEvent)
| ReadyMessage                         (* 'transformers-loaded' arrives *)
| InitializeCall (o : InitOutcome)     (* a caller awaits initialize() *)
| RequestsChange (ids : list string).  (* the pending requests become ids *)

Definition occur (s : t) (x : Occurrence) : t :=
  match x with
  | Happens e => handle s e
  | ReadyMessage =>
      {| worker := worker s; isReady := true;
         pendingRequests := pendingRequests s;
         restartAttempts := restartAttempts s;
         lastRestartTime := lastRestartTime s |}
  | InitializeCall o => snd (initialize o s)
  | RequestsChange ids =>
      {| worker := worker s; isReady := isReady s;
         pendingRequests := ids;
         restartAttempts := restartAttempts s;
         lastRestartTime := lastRestartTime s |}
  end.

(** What [handleWorkerError] decides at the occurrence, if it is a crash. *)
Definition action (s : t) (x : Occurrence) : option CrashAction :=
  match x with
  | Happens (Crash now) => Some (snd (handleWorkerError now s))
  | _ => None
  end.

Fixpoint actions (s : t) (xs : list Occurrence) : list CrashAction :=
  match xs with
  | [] => []
  | x :: xs' =>
      match action s x with
      | Some a => a :: actions (occur s x) xs'
      | None => actions (occur s x) xs'
      end
  end.

(** The times of the crashes among the occurrences. *)
Definition crashes (xs : list Occurrence) : list Z :=
  omap (λ x, match x with Happens (Crash now) => Some now | _ => None end) xs.

(** The times of the crashes at which a restart is scheduled. *)
Fixpoint scheduled (s : t) (xs : list Occurrence) : list Z :=
  match xs with
  | [] => []
  | x :: xs' =>
      match x, action s x with
      | Happens (Crash now), Some (ScheduleRestart _) => now :: scheduled (occur s x) xs'
      | _, _ => scheduled (occur s x) xs'
      end
  end.

(** The times at which a client that stays not ready, with the counter at
    [attempts] and the last restart scheduled at [last], can schedule its next
    restarts. *)
Fixpoint allowed (attempts last : Z) (times : list Z) : Prop :=
  match times with
  | [] => True
  | now :: times' =>
      let attempts := if 60000 <? now - last then 0 else attempts in
      attempts < MAX_RESTART_ATTEMPTS
      ∧ MIN_RESTART_INTERVAL <= now - last
      ∧ allowed (attempts + 1) now times'
  end.

End AIWorkerService.

(** ** AIService: the inference service *)

Module AIService.

Inductive AIState : Type := not_configured | ready | error.

Definition AIState_eqb (a b : AIState) : bool :=
  match a, b with
  | not_configured, not_configured | ready, ready | error, error => true
  | _, _ => false
  end.

Record t : Type := {
  status : AIState;
  message : string;
  aiWorkerService : AIWorkerService.t
}.

(** [isReady()] computes [workerReady] and [statusReady], logs both and
    their conjunction, and returns [this.status === "ready"]. *)
Definition isReady (s : t) : bool :=
  let workerReady := AIWorkerService.isWorkerReady (aiWorkerService s) in
  let statusReady := AIState_eqb (status s) ready in
  let combined := statusReady && workerReady in
  AIState_eqb (status s) ready.

(** A crash of the inference unit as the service sees it: the client
    handles it, the persisted status is not touched. *)
Definition workerCrashed (now : Z) (s : t) : t :=
  {| status := status s; message := message s;
     aiWorkerService := fst (AIWorkerService.handleWorkerError now (aiWorkerService s)) |}.

End AIService.

(** ** AISemanticSearch *)

Inductive Source : Type := src_title | src_heading | src_content.

Section Search.
Context {num : Type} `{!Number num}.

Record SearchResult : Type := {
  sr_path : string;
  score : num;
  sr_title : string;
  excerpt : string;
  source : Source
}.

Record SearchOptions : Type := {
  topK : option Z;
  excludePath : option string;
  minScore : option num
}.

(** [s.split(sep)] for a one-character separator. *)
Fixpoint split_on (sep : ascii) (s : string) : list string :=
  match s with
  | EmptyString => [EmptyString]
  | String c s' =>
      if Ascii.eqb c sep then EmptyString :: split_on sep s'
      else
        match split_on sep s' with
        | seg :: rest => String c seg :: rest
        | [] => [String c EmptyString]
        end
  end.

(** [s.replace('.md', '')]: the first occurrence only. *)
Fixpoint remove_first_md (s : string) : string :=
  match s with
  | EmptyString => EmptyString
  | String c s' =>
      if String.prefix ".md" s then String.substring 3 (String.length s - 3) s
      else String c (remove_first_md s')
  end.

Definition getFileTitle (p : string) : string :=
  let name := remove_first_md (List.last (split_on "/"%char p) EmptyString) in
  if String.eqb name EmptyString then p else name.

(** [excludePath && path === excludePath] *)
Definition is_excluded (exclude : option string) (p : string) : bool :=
  match exclude with
  | Some e => negb (String.eqb e EmptyString) && String.eqb p e
  | None => false
  end.

Definition titleResult (q : list num) (entry : string * TitleEmbedding num)
  : result SearchResult :=
  let '(p, data) := entry in
  bind_result (Cosine.cosineSimilarity q (t_embedding data)) (λ sc,
  Ok {| sr_path := p; score := sc; sr_title := t_title data;
        excerpt := t_title data; source := src_title |}).

Definition headingResult (q : list num) (entry : string * HeadingEmbedding num)
  : result SearchResult :=
  let '(p, data) := entry in
  bind_result (Cosine.cosineSimilarity q (h_embedding data)) (λ sc,
  Ok {| sr_path := p; score := sc; sr_title := getFileTitle p;
        excerpt := String.concat " • " (h_headings data);
        source := src_heading |}).

Definition contentResult (q : list num) (entry : string * ContentEmbedding num)
  : result SearchResult :=
  let '(p, data) := entry in
  bind_result (Cosine.cosineSimilarity q (c_embedding data)) (λ sc,
  Ok {| sr_path := p; score := sc; sr_title := getFileTitle p;
        excerpt := c_excerpt data; source := src_content |}).

(** One of the three loops over [Object.entries] of a collection. The guard
    [Object.keys(collection).length > 0] around it changes nothing: a loop
    over no entries pushes nothing. *)
Definition collectionResults {A} (enabled : bool) (exclude : option string)
  (entryResult : string * A → result SearchResult) (collection : gmap string A)
  : result (list SearchResult) :=
  if enabled then
    mapM_result entryResult
      (filter (λ entry, is_excluded exclude entry.1 = false) (map_to_list collection))
  else Ok [].

(** The first half of [findSimilar]: [allResults]. *)
Definition collectResults (settings : Settings) (d : EmbeddingDatabases num)
  (q : list num) (exclude : option string) : result (list SearchResult) :=
  bind_result (collectionResults (aiIndexTitles settings) exclude
                 (titleResult q) (db_titles d)) (λ ts,
  bind_result (collectionResults (aiIndexHeadings settings) exclude
                 (headingResult q) (db_headings d)) (λ hs,
  bind_result (collectionResults (aiIndexContent settings) exclude
                 (contentResult q) (db_content d)) (λ cs,
  Ok (ts ++ hs ++ cs)))).

(** [Map.get] and [Map.set] on a [Map<string, SearchResult>], which keeps
    its keys in insertion order. *)
Fixpoint map_get (k : string) (m : list (string * SearchResult)) : option SearchResult :=
  match m with
  | [] => None
  | (k', v) :: m' => if String.eqb k' k then Some v else map_get k m'
  end.

Fixpoint map_set (k : string) (v : SearchResult) (m : list (string * SearchResult))
  : list (string * SearchResult) :=
  match m with
  | [] => [(k, v)]
  | (k', v') :: m' =>
      if String.eqb k' k then (k', v) :: m' else (k', v') :: map_set k v m'
  end.

Definition keepBest (bestByPath : list (string * SearchResult)) (r : SearchResult)
  : list (string * SearchResult) :=
  match map_get (sr_path r) bestByPath with
  | Some existing =>
      if num_gtb (score r) (score existing) then map_set (sr_path r) r bestByPath
      else bestByPath
  | None => map_set (sr_path r) r bestByPath
  end.

(** [merged.sort((a, b) => b.score - a.score)]: the sort is stable, and an
    element moves behind another only when the comparator is positive. *)
Definition compareFn (a b : SearchResult) : num := num_sub (score b) (score a).

Fixpoint insert_sorted (x : SearchResult) (l : list SearchResult) : list SearchResult :=
  match l with
  | [] => [x]
  | y :: l' =>
      if num_gtb (compareFn x y) num_zero then y :: insert_sorted x l'
      else x :: y :: l'
  end.

Definition sortByScore (l : list SearchResult) : list SearchResult :=
  foldr insert_sorted [] l.

(** [l.slice(0, k)] *)
Definition slice_to {A} (k : Z) (l : list A) : list A :=
  if k <? 0 then take (length l - Z.to_nat (- k)) l else take (Z.to_nat k) l.

(** The second half of [findSimilar]: merge, sort, filter, truncate. *)
Definition rank (k : Z) (minimum : option num) (allResults : list SearchResult)
  : list SearchResult :=
  let bestByPath := fold_left keepBest allResults [] in
  let merged := sortByScore (map snd bestByPath) in
  let filtered :=
    match minimum with
    | Some m =>
        if num_gtb m num_zero then filter (λ r, num_geb (score r) m = true) merged
        else merged
    | None => merged
    end in
  slice_to k filtered.

Definition findSimilar (settings : Settings) (d : EmbeddingDatabases num)
  (q : list num) (k : Z) (exclude : option string) (minimum : option num)
  : result (list SearchResult) :=
  bind_result (collectResults settings d q exclude) (λ allResults,
  Ok (rank k minimum allResults)).

Definition searchByEmbedding (settings : Settings) (d : EmbeddingDatabases num)
  (q : list num) (options : SearchOptions) : result (list SearchResult) :=
  findSimilar settings d q (default 5 (topK options)) (excludePath options)
    (Some (default num_zero (minScore options))).

(** The comparisons the merge and the sort rely on, for the scores in [l]:
    [<] and [<=] form a total order and the sign of a difference agrees
    with it. Doubles other than NaN satisfy them. *)
Record comparable (l : list num) : Prop := {
  cmp_total : ∀ x y, x ∈ l → y ∈ l → num_leb x y = negb (num_ltb y x);
  cmp_asym : ∀ x y, x ∈ l → y ∈ l → num_ltb x y = true → num_ltb y x = false;
  cmp_lt_trans : ∀ x y z, x ∈ l → y ∈ l → z ∈ l →
    num_ltb x y = true → num_ltb y z = true → num_ltb x z = true;
  cmp_le_trans : ∀ x y z, x ∈ l → y ∈ l → z ∈ l →
    num_leb x y = true → num_leb y z = true → num_leb x z = true;
  cmp_sub : ∀ x y, x ∈ l → y ∈ l →
    num_ltb num_zero (num_sub y x) = num_ltb x y
}.

(** The match a collection holds for a path: the collection is enabled,
    stores the path, and the cosine of the query and the stored embedding is
    the score. *)
Definition stored_match (settings : Settings) (d : EmbeddingDatabases num)
  (q : list num) (p : string) (src : Source) (sc : num) : Prop :=
  match src with
  | src_title =>
      aiIndexTitles settings = true ∧
      ∃ data, db_titles d !! p = Some data ∧
              Cosine.cosineSimilarity q (t_embedding data) = Ok sc
  | src_heading =>
      aiIndexHeadings settings = true ∧
      ∃ data, db_headings d !! p = Some data ∧
              Cosine.cosineSimilarity q (h_embedding data) = Ok sc
  | src_content =>
      aiIndexContent settings = true ∧
      ∃ data, db_content d !! p = Some data ∧
              Cosine.cosineSimilarity q (c_embedding data) = Ok sc
  end.

(** Descending order of score. *)
Definition descending (l : list SearchResult) : Prop :=
  ∀ i j a b, (i < j)%nat → l !! i = Some a → l !! j = Some b →
             num_leb (score b) (score a) = true.

(** [a] may stand before [b] in a list in descending order of score. *)
Definition before (a b : SearchResult) : Prop :=
  num_leb (score b) (score a) = true.

(** What the loop over [allResults] maintains: one entry per path seen, taken
    from the results seen, and, when the scores seen are comparable, no
    result seen beats the entry of its path. *)
Record merged_upto (processed : list SearchResult)
  (best : list (string * SearchResult)) : Prop := {
  mu_nodup : NoDup best.*1;
  mu_from : ∀ k v, map_get k best = Some v → sr_path v = k ∧ v ∈ processed;
  mu_best : comparable (score <$> processed) → ∀ m, m ∈ processed →
    ∃ v, map_get (sr_path m) best = Some v ∧ num_ltb (score v) (score m) = false
}.

End Search.

(** ** The order of doubles

    [PrimFloat.ltb] and [PrimFloat.leb] compare two doubles through their
    sign, exponent and mantissa. [sf_key] lists the three as integers, so
    that the order of two doubles other than NaN is the lexicographic order
    [lex3] of their keys. *)

Definition sf_key (x : spec_float) : Z * Z * Z :=
  match x with
  | S754_zero _ => (0, 0, 0)
  | S754_infinity false => (2, 0, 0)
  | S754_infinity true => (-2, 0, 0)
  | S754_nan => (0, 0, 0)
  | S754_finite false m e => (1, e, Zpos m)
  | S754_finite true m e => (-1, - e, Zneg m)
  end.

Definition lex3 (a b : Z * Z * Z) : comparison :=
  match a.1.1 ?= b.1.1 with
  | Eq => match a.1.2 ?= b.1.2 with
          | Eq => a.2 ?= b.2
          | c => c
          end
  | c => c
  end.

(** [Number.isNaN] negated. *)
Definition not_nan (x : float) : Prop := PrimFloat.is_nan x = false.


Arguments SearchResult : clear implicits.
Arguments SearchOptions : clear implicits.

(** ** The engine as a transition system *)

Section Transitions.
Context {num : Type}.

(** The blocks of code that run without waiting and change the envelope in
    memory or on disk. An operation of the engine is a sequence of them,
    and the waits of concurrent operations interleave them. *)
Inductive step : World num → World num → Prop :=
| step_lock type totalFiles w :            (* indexSpecificType, guard passed *)
    isAnyIndexing (db w) = false →
    step w (markIndexing type totalFiles w)
| step_state type p w :                    (* every other setIndexingState *)
    p_isIndexing p ≠ Some true →
    step w (update_db (setIndexingState type p) w)
| step_setTitle p e w : step w (update_db (setTitleEmbedding p e) w)
| step_removeTitle p w : step w (update_db (removeTitleEmbedding p) w)
| step_setHeading p e w : step w (update_db (setHeadingEmbedding p e) w)
| step_removeHeading p w : step w (update_db (removeHeadingEmbedding p) w)
| step_setContent p e w : step w (update_db (setContentEmbedding p e) w)
| step_removeContent p w : step w (update_db (removeContentEmbedding p) w)
| step_empty w :                           (* reset: createEmptyDatabase *)
    step w (with_db (createEmptyDatabase (clock w)) w)
| step_write w : step w (writeEnvelope w)  (* save *)
| step_read loaded w :                     (* load, current version *)
    disk w = Stored loaded →
    step w (with_db (fold_left (λ d type, recoverStaleLock (clock w) type d)
                       [titles; headings; content] loaded) w)
| step_interrupt i w : step w (runInterrupt w i)
| step_other w w' :                        (* events, clock, flags of the engine *)
    db w' = db w → disk w' = disk w → step w w'.

(** The operations other components call. *)
Inductive Operation : Type :=
| OpLoad
| OpSave
| OpReset
| OpIndexNote (file : TFile) (doSave : bool)
| OpIndexSpecificType (type : IndexType) (onProgress : bool)
| OpRemoveNote (p : string)
| OpUpdateNoteIfNeeded (file : TFile)
| OpCancelBackgroundIndexing
| OpCancelCleanup
| OpReleaseLock (type : IndexType).  (* AIManager.checkStateConsistency *)

Definition perform (host : Host num) (settings : Settings) (op : Operation)
  (w : World num) : option (World num) :=
  match op with
  | OpLoad => Some (load w)
  | OpSave => Some (save w)
  | OpReset => Some (reset w)
  | OpIndexNote file doSave => Some (indexNote host settings file doSave w)
  | OpIndexSpecificType type onProgress => indexSpecificType host type onProgress w
  | OpRemoveNote p => Some (removeNote p w)
  | OpUpdateNoteIfNeeded file => Some (updateNoteIfNeeded host settings file w)
  | OpCancelBackgroundIndexing => Some (cancelBackgroundIndexing w)
  | OpCancelCleanup => Some (cancelCleanup w)
  | OpReleaseLock type => Some (update_db (setIndexingState type release) w)
  end.

(** At most one of the three flags is set. *)
Definition atMostOneIndexing (d : EmbeddingDatabases num) : Prop :=
  ∀ t1 t2, isIndexing (getIndexingState t1 d) = true →
           isIndexing (getIndexingState t2 d) = true → t1 = t2.

(** ... in memory and in the file. *)
Definition exclusive (w : World num) : Prop :=
  atMostOneIndexing (db w)
  ∧ ∀ e, disk w = Stored e → atMostOneIndexing e.

(** No flag is set in [d'] that was not set in [d]. *)
Definition lowered (d d' : EmbeddingDatabases num) : Prop :=
  ∀ type, isIndexing (getIndexingState type d') = true →
          isIndexing (getIndexingState type d) = true.

(** What the handlers that run during a wait, and a write of the envelope,
    can change: no record, no field of an indexing state other than a flag
    going from true to false, and the trace grows by writes only. *)
Record handled (w w' : World num) : Prop := {
  hd_titles : db_titles (db w') = db_titles (db w);
  hd_headings : db_headings (db w') = db_headings (db w);
  hd_content : db_content (db w') = db_content (db w);
  hd_version : version (db w') = version (db w);
  hd_state : ∀ type,
    progress (getIndexingState type (db w')) = progress (getIndexingState type (db w))
    ∧ total (getIndexingState type (db w')) = total (getIndexingState type (db w))
    ∧ lastIndexed (getIndexingState type (db w')) = lastIndexed (getIndexingState type (db w))
    ∧ lastHeartbeat (getIndexingState type (db w')) = lastHeartbeat (getIndexingState type (db w))
    ∧ (isIndexing (getIndexingState type (db w')) = true →
       isIndexing (getIndexingState type (db w)) = true);
  hd_trace : ∃ evs, trace w' = trace w ++ evs ∧ Forall (λ ev, ev = EvWrite) evs
}.

(** The file holds the envelope that is in memory. *)
Definition synced (w : World num) : Prop := disk w = Stored (db w).




(** The two reasons [updateNoteIfNeeded] has to re-index. *)
Definition has_stale_record (file : TFile) (d : EmbeddingDatabases num) : Prop :=
  (∃ t, getTitleEmbedding (path file) d = Some t ∧ t_lastModified t ≠ stat_mtime file)
  ∨ (∃ h, getHeadingEmbedding (path file) d = Some h ∧ h_lastModified h ≠ stat_mtime file)
  ∨ (∃ c, getContentEmbedding (path file) d = Some c ∧ c_lastModified c ≠ stat_mtime file).

Definition has_no_record (file : TFile) (d : EmbeddingDatabases num) : Prop :=
  getTitleEmbedding (path file) d = None
  ∧ getHeadingEmbedding (path file) d = None
  ∧ getContentEmbedding (path file) d = None.

(** No record in any collection that is enabled. *)
Definition has_no_enabled_record (settings : Settings) (file : TFile)
  (d : EmbeddingDatabases num) : Prop :=
  (aiIndexTitles settings = true → getTitleEmbedding (path file) d = None)
  ∧ (aiIndexHeadings settings = true → getHeadingEmbedding (path file) d = None)
  ∧ (aiIndexContent settings = true → getContentEmbedding (path file) d = None).

End Transitions.

Definition is_embed (e : Event) : bool :=
  match e with
  | EvEmbed _ _ => true
  | _ => false
  end.

(** The number of calls of [aiService.generateEmbedding] in a trace. *)
Definition embedCalls (tr : list Event) : nat :=
  length (filter (λ e, is_embed e = true) tr).

(** A client that has used up its restart attempts, and the events that
    reach it within 60 s of the last restart it scheduled. *)
Definition exhausted (s : AIWorkerService.t) : Prop :=
  AIWorkerService.worker s = true
  ∧ AIWorkerService.isReady s = false
  ∧ AIWorkerService.restartAttempts s = AIWorkerService.MAX_RESTART_ATTEMPTS.

Definition within_window (s : AIWorkerService.t) (e : AIWorkerService.ClientEvent)
  : Prop :=
  match e with
  | AIWorkerService.Crash now => now - AIWorkerService.lastRestartTime s <= 60000
  | AIWorkerService.RestartTimer _ => True
  end.

(** The occurrences that leave such a client as it is: no
    'transformers-loaded' message, and no crash more than 60 s after the last
    restart that was scheduled. *)
Definition stays_stopped (s : AIWorkerService.t) (x : AIWorkerService.Occurrence)
  : Prop :=
  match x with
  | AIWorkerService.Happens e => within_window s e
  | AIWorkerService.ReadyMessage => False
  | _ => True
  end.

(** ** Sample data *)

Definition ready_client : AIWorkerService.t :=
  {| AIWorkerService.worker := true; AIWorkerService.isReady := true;
     AIWorkerService.pendingRequests := [];
     AIWorkerService.restartAttempts := 0;
     AIWorkerService.lastRestartTime := 0 |}.

(** Crashes every few seconds, none followed by a message of the worker. *)
Definition crash_run : list AIWorkerService.Occurrence :=
  AIWorkerService.Happens <$>
    [AIWorkerService.Crash 1700000000000;
     AIWorkerService.RestartTimer AIWorkerService.LoadFails;
     AIWorkerService.Crash 1700000005000;
     AIWorkerService.RestartTimer AIWorkerService.LoadFails;
     AIWorkerService.Crash 1700000010000;
     AIWorkerService.RestartTimer AIWorkerService.LoadFails;
     AIWorkerService.Crash 1700000060000; AIWorkerService.Crash 1700000065000;
     AIWorkerService.Crash 1700000069000; AIWorkerService.Crash 1700000070001].

Definition ready_service : AIService.t :=
  {| AIService.status := AIService.ready;
     AIService.message := "AI Model loaded in Worker";
     AIService.aiWorkerService := ready_client |}.

Definition note (name : string) (mtime : Z) : TFile :=
  {| path := name +:+ ".md"; basename := name; stat_mtime := mtime |}.

(** A text of [n] bullets, each one UTF-16 code unit in three bytes. *)
Definition bullets (n : nat) : string := String.concat "" (replicate n "•"%string).

(** A host whose inference service answers every request with [1, 0]. *)
Definition sample_host (files : list TFile) : Host float :=
  {| aiService_generateEmbedding := λ _ _, Some [1; 0]%float;
     cachedRead := λ file, basename file;
     fileCache_headings := λ _, None;
     getMarkdownFiles := files |}.

Definition fresh_world (now : Z) (sched : list (list Interrupt)) : World float :=
  {| db := createEmptyDatabase now; disk := Missing; cancelIndexing := false;
     cleanupTimers := 0; clock := now; trace := []; schedule := sched |}.

Definition six_notes : list TFile :=
  [note "a" 1; note "b" 1; note "c" 1; note "d" 1; note "e" 1; note "f" 1].

Definition twelve_notes : list TFile :=
  six_notes ++ [note "g" 1; note "h" 1; note "i" 1; note "j" 1; note "k" 1; note "l" 1].

(** A pass over [files] that has taken the lock and persisted it. *)
Definition started (type : IndexType) (files : list TFile) : World float :=
  save (markIndexing type (Z.of_nat (length files)) (fresh_world 1000 [])).

Definition all_enabled : Settings :=
  {| aiIndexTitles := true; aiIndexHeadings := true; aiIndexContent := true |}.

Definition sample_db : EmbeddingDatabases float :=
  setContentEmbedding "a.md"
    {| c_path := "a.md"; c_embedding := [0; 1]%float; c_lastModified := 1;
       c_excerpt := "text" |}
    (setTitleEmbedding "a.md"
       {| t_path := "a.md"; t_embedding := [1; 0]%float; t_lastModified := 1;
          t_title := "a" |}
       (createEmptyDatabase 0)).

(** "a.md" with a title embedding whose square overflows. *)
Definition nan_db : EmbeddingDatabases float :=
  setContentEmbedding "a.md"
    {| c_path := "a.md"; c_embedding := [1; 0]%float; c_lastModified := 1;
       c_excerpt := "text" |}
    (setTitleEmbedding "a.md"
       {| t_path := "a.md"; t_embedding := [0x1p600; 0]%float; t_lastModified := 1;
          t_title := "a" |}
       (createEmptyDatabase 0)).

Definition no_options : SearchOptions float :=
  {| topK := None; excludePath := None; minScore := None |}.

Definition sample_options : SearchOptions float :=
  {| topK := Some 5; excludePath := None; minScore := Some 0.5%float |}.

Definition sample_allResults : list (SearchResult float) :=
  Eval vm_compute in
    match collectResults all_enabled sample_db [1; 0]%float None with
    | Ok l => l
    | Throw _ => []
    end.

Definition locked_envelope (ver : string) (hb : option Z) : EmbeddingDatabases float :=
  {| version := ver; lastUpdate := 0;
     db_titles := ∅; db_headings := ∅; db_content := ∅;
     indexingStates :=
       {| st_titles := {| isIndexing := true; progress := 3; total := 10;
                          lastIndexed := 0; lastHeartbeat := hb |};
          st_headings := createEmptyState;
          st_content := createEmptyState |} |}.

(** The plugin starts at [now] and finds [file] at [dbPath]. *)
Definition restarted (now : Z) (file : DiskFile float) : World float :=
  {| db := createEmptyDatabase now; disk := file; cancelIndexing := false;
     cleanupTimers := 0; clock := now; trace := []; schedule := [] |}.

(** A store that holds current records for "a.md" in the three collections. *)
Definition indexed_db : EmbeddingDatabases float :=
  setHeadingEmbedding "a.md"
    {| h_path := "a.md"; h_embedding := [1; 0]%float; h_lastModified := 1;
       h_headings := ["Intro"] |} sample_db.

Definition world_of (d : EmbeddingDatabases float) : World float :=
  {| db := d; disk := Missing; cancelIndexing := false;
     cleanupTimers := 0; clock := 1000; trace := []; schedule := [] |}.

Definition titles_only : Settings :=
  {| aiIndexTitles := true; aiIndexHeadings := false; aiIndexContent := false |}.

(** Only a heading record, left from the time headings were enabled. *)
Definition headings_db : EmbeddingDatabases float :=
  setHeadingEmbedding "a.md"
    {| h_path := "a.md"; h_embedding := [1; 0]%float; h_lastModified := 1;
       h_headings := ["Intro"] |} (createEmptyDatabase 0).

(** ** Further notions of the search *)

Section SearchNotions.
Context {num : Type} `{!Number num}.

(** Every stored embedding the search compares with the query has the
    query's length: the records of the enabled collections, the excluded
    path left out. *)
Definition searchable (settings : Settings) (d : EmbeddingDatabases num)
  (q : list num) (exclude : option string) : Prop :=
  (aiIndexTitles settings = true → ∀ p data,
     db_titles d !! p = Some data → is_excluded exclude p = false →
     length (t_embedding data) = length q)
  ∧ (aiIndexHeadings settings = true → ∀ p data,
       db_headings d !! p = Some data → is_excluded exclude p = false →
       length (h_embedding data) = length q)
  ∧ (aiIndexContent settings = true → ∀ p data,
       db_content d !! p = Some data → is_excluded exclude p = false →
       length (c_embedding data) = length q).

(** The order in which [findSimilar] goes through the collections. *)
Definition source_rank (s : Source) : nat :=
  match s with
  | src_title => 0
  | src_heading => 1
  | src_content => 2
  end.

(** [a] is collected before [b]: from the same or an earlier collection, and
    from an earlier one when both are matches of one path. *)
Definition collected_before (a b : SearchResult num) : Prop :=
  (source_rank (source a) ≤ source_rank (source b))%nat
  ∧ (sr_path a = sr_path b → (source_rank (source a) < source_rank (source b))%nat).

(** What the merge loop maintains about ties: the entry of a path beats the
    matches of the path collected before it and is not beaten by those
    collected after it. *)
Definition tied_upto (processed : list (SearchResult num))
  (best : list (string * SearchResult num)) : Prop :=
  ∀ k v m, map_get k best = Some v → m ∈ processed → sr_path m = k →
    ((source_rank (source m) < source_rank (source v))%nat →
       num_ltb (score m) (score v) = true)
    ∧ ((source_rank (source v) < source_rank (source m))%nat →
       num_ltb (score v) (score m) = false).

End SearchNotions.

(** ** Further notions of the engine *)

(** No cancellation is requested during the coming waits. *)
Definition quiet (sched : list (list Interrupt)) : Prop :=
  Forall (Forall (λ i, i ≠ CancelRequest)) sched.

Section EngineNotions.
Context {num : Type}.

(** The three collections hold the same records. *)
Definition same_records (d d' : EmbeddingDatabases num) : Prop :=
  db_titles d' = db_titles d
  ∧ db_headings d' = db_headings d
  ∧ db_content d' = db_content d.

(** The collection holds a record of the file with the file's modification
    time. *)
Definition has_current_record (type : IndexType) (file : TFile)
  (d : EmbeddingDatabases num) : Prop :=
  match type with
  | titles => is_current t_lastModified (getTitleEmbedding (path file) d) file = true
  | headings => is_current h_lastModified (getHeadingEmbedding (path file) d) file = true
  | content => is_current c_lastModified (getContentEmbedding (path file) d) file = true
  end.

(** Some collection holds a record of the path. *)
Definition has_record (p : string) (d : EmbeddingDatabases num) : Prop :=
  is_Some (getTitleEmbedding p d)
  ∨ is_Some (getHeadingEmbedding p d)
  ∨ is_Some (getContentEmbedding p d).

(** No cancellation is pending or will be requested. *)
Definition calm (w : World num) : Prop :=
  cancelIndexing w = false ∧ quiet (schedule w).

(** The records of every path but [q] are the same. *)
Definition same_records_except (q : string) (d d' : EmbeddingDatabases num) : Prop :=
  ∀ p, p ≠ q →
    db_titles d' !! p = db_titles d !! p
    ∧ db_headings d' !! p = db_headings d !! p
    ∧ db_content d' !! p = db_content d !! p.

(** What the waits and the bookkeeping of a pass leave as it is: the
    records, and the absence of a cancellation. *)
Definition kept (w w' : World num) : Prop :=
  same_records (db w) (db w') ∧ (calm w → calm w').

(** The envelope in memory and the envelope in the file, if there is one,
    carry the version [load] accepts. *)
Definition current_version (w : World num) : Prop :=
  version (db w) = "2.0.0"%string
  ∧ ∀ e, disk w = Stored e → version e = "2.0.0"%string.

(** The embedding requests among the events. *)
Definition embedRequests (tr : list Event) : list Event :=
  filter (λ e, is_embed e = true) tr.

End EngineNotions.

(** ** Numbers in the file *)

(** What [JSON.parse] reads where [JSON.stringify] wrote a number: a NaN or
    an infinity is written as null, -0 as 0, and every other double in digits
    that read back as the same double. *)
Definition json_number (x : float) : option float :=
  match classify x with
  | FloatClass.NaN | PInf | NInf => None
  | NZero => Some 0%float
  | _ => Some x
  end.

(** An embedding that the file gives back as it is. *)
Definition json_exact (embedding : list float) : Prop :=
  map json_number embedding = map Some embedding.

(** The envelopes whose embeddings the file gives back as they are: those
    for which the stored envelope of the model is the parsed file. *)
Definition json_exact_db (d : EmbeddingDatabases float) : Prop :=
  map_Forall (λ _ r, json_exact (t_embedding r)) (db_titles d)
  ∧ map_Forall (λ _ r, json_exact (h_embedding r)) (db_headings d)
  ∧ map_Forall (λ _ r, json_exact (c_embedding r)) (db_content d).

(** ** AIEmbeddingDatabase.getStats *)

Record Stats : Type := {
  titlesIndexed : Z;
  headingsIndexed : Z;
  contentIndexed : Z;
  totalNotes : Z;
  databaseSizeKB : Z;
  s_lastUpdate : string;
  s_isIndexing : bool;
  currentIndexingType : option IndexType;
  currentIndexingProgress : Z;
  totalIndexingItems : Z
}.

Section Stats.
Context {num : Type}.

(** What the runtime provides: [JSON.stringify] of the envelope and
    [new Date(ms).toLocaleString()]. *)
Variable stringify : EmbeddingDatabases num → string.
Variable toLocaleString : Z → string.

(** [Math.round(n / 1024)] for a length [n]: halves round up. *)
Definition roundKB (n : Z) : Z := (n + 512) / 1024.

Definition getStats (d : EmbeddingDatabases num) : Stats :=
  let titlesCount := Z.of_nat (size (db_titles d)) in
  let headingsCount := Z.of_nat (size (db_headings d)) in
  let contentCount := Z.of_nat (size (db_content d)) in
  let allPaths : gset string :=
    dom (db_titles d) ∪ dom (db_headings d) ∪ dom (db_content d) in
  let active :=
    List.find (λ type, isIndexing (getIndexingState type d))
      [titles; headings; content] in
  {| titlesIndexed := titlesCount;
     headingsIndexed := headingsCount;
     contentIndexed := contentCount;
     totalNotes := Z.of_nat (size allPaths);
     databaseSizeKB := roundKB (Z.of_nat (js_length (stringify d)));
     s_lastUpdate := toLocaleString (lastUpdate d);
     s_isIndexing := bool_decide (active ≠ None);
     currentIndexingType := active;
     currentIndexingProgress :=
       match active with
       | Some type => progress (getIndexingState type d)
       | None => 0
       end;
     totalIndexingItems :=
       match active with
       | Some type => total (getIndexingState type d)
       | None => 0
       end |}.

End Stats.

(** ** AIManager: the handlers of the vault events *)

Section Manager.
Context {num : Type}.
Variable host : Host num.
Variable settings : Settings.
Variable stringify : EmbeddingDatabases num → string.
Variable toLocaleString : Z → string.

(** The pass over the collection is meant to leave a record of the file:
    [indexHeadings] stores none for a note without headings. *)
Definition expects_record (type : IndexType) (file : TFile) : Prop :=
  match type with
  | headings => ∃ h hs, fileCache_headings host file = Some (h :: hs)
  | _ => True
  end.

(** [wantedByUser] of [checkStateConsistency]: the setting that enables
    the collection. *)
Definition wantedByUser (type : IndexType) : bool :=
  match type with
  | titles => aiIndexTitles settings
  | headings => aiIndexHeadings settings
  | content => aiIndexContent settings
  end.

(** The inference service answers every passage request. *)
Definition service_answers : Prop :=
  ∀ text, is_Some (aiService_generateEmbedding host text passage).

(** [handleFileDelete] *)
Definition handleFileDelete (file : TFile) (w : World num) : World num :=
  removeNote (path file) w.


(** One round of the loop of [checkStateConsistency]. [snapshot] is the copy
    of the indexing states and [stats] the statistics taken before the
    loop. *)
Definition checkOne (snapshot : EmbeddingDatabases num) (stats : Stats)
  (type : IndexType) (w : World num) : option (World num) :=
  if negb (wantedByUser type) then Some w
  else
    let currentCount :=
      match type with
      | titles => titlesIndexed stats
      | headings => headingsIndexed stats
      | content => contentIndexed stats
      end in
    let state := getIndexingState type snapshot in
    let totalFiles := Z.of_nat (length (getMarkdownFiles host)) in
    let hasActiveLock := isIndexing state in
    let hasNoData := currentCount =? 0 in
    let isIncomplete := (0 <? currentCount) && (currentCount <? totalFiles) in
    let w :=
      if hasActiveLock then update_db (setIndexingState type release) w else w in
    if hasActiveLock || hasNoData then indexSpecificType host type false w
    else if isIncomplete then indexSpecificType host type false w
    else Some w.

(** [checkStateConsistency], run once at startup after [load]. *)
Definition checkStateConsistency (w : World num) : option (World num) :=
  let stats := getStats stringify toLocaleString (db w) in
  let states := db w in
  let hasAnyActiveIndexing :=
    isIndexing (getIndexingState titles states)
    || isIndexing (getIndexingState headings states)
    || isIndexing (getIndexingState content states) in
  if negb hasAnyActiveIndexing && (totalNotes stats =? 0) then Some w
  else
    w ← checkOne states stats titles w;
    w ← checkOne states stats headings w;
    w ← checkOne states stats content w;
    Some (save w).

End Manager.

(** ** AIWorkerService: requests, messages and time-outs *)

Module AIWorkerClient.
Import AIWorkerService.

Section Client.
Context {num : Type}.

(** How the promise of a request is settled. The callbacks stored in
    [pendingRequests] are identified with the request id they are stored
    under. *)
Inductive Settlement : Type :=
| Resolved (requestId : string) (embedding : list num)
| Rejected (requestId : string) (error : string).

Definition settled_id (s : Settlement) : string :=
  match s with
  | Resolved requestId _ | Rejected requestId _ => requestId
  end.

(** [event.data] of a message of the worker. *)
Inductive WorkerMessage : Type :=
| AllFilesReceived
| TransformersLoaded
| EmbeddingResult (requestId : string) (success : bool) (embedding : list num)
    (error : string)
| BatchProgress
| WorkerError (error : string)
| OtherMessage.

Definition with_pending (pending : list string) (s : t) : t :=
  {| worker := worker s; isReady := isReady s; pendingRequests := pending;
     restartAttempts := restartAttempts s; lastRestartTime := lastRestartTime s |}.

Definition with_isReady (b : bool) (s : t) : t :=
  {| worker := worker s; isReady := b; pendingRequests := pendingRequests s;
     restartAttempts := restartAttempts s; lastRestartTime := lastRestartTime s |}.

(** [pendingRequests.set(requestId, ...)]: a key that is present keeps its
    place. *)
Definition pending_set (requestId : string) (pending : list string) : list string :=
  if bool_decide (requestId ∈ pending) then pending else pending ++ [requestId].

(** [pendingRequests.delete(requestId)] *)
Definition pending_delete (requestId : string) (pending : list string) : list string :=
  filter (λ k, k ≠ requestId) pending.

Definition handleWorkerMessage (data : WorkerMessage) (s : t) : t * list Settlement :=
  match data with
  | AllFilesReceived => (s, [])
  | TransformersLoaded => (with_isReady true s, [])
  | EmbeddingResult requestId success embedding error =>
      if bool_decide (requestId ∈ pendingRequests s) then
        (with_pending (pending_delete requestId (pendingRequests s)) s,
         [if success then Resolved requestId embedding else Rejected requestId error])
      else (s, [])
  | BatchProgress => (s, [])
  | WorkerError error =>
      (with_pending [] s, (λ k, Rejected k error) <$> pendingRequests s)
  | OtherMessage => (s, [])
  end.

(** The synchronous part of [generateEmbedding]: the guard and the
    registration of the request. *)
Definition generateEmbedding (requestId : string) (s : t) : result t :=
  if negb (worker s) || negb (isReady s) then
    Throw "Worker not ready -> First try initialize()."
  else Ok (with_pending (pending_set requestId (pendingRequests s)) s).

(** The callback of the 10 s timer of a request. *)
Definition embeddingTimeout (requestId : string) (s : t) : t * list Settlement :=
  if bool_decide (requestId ∈ pendingRequests s) then
    (with_pending (pending_delete requestId (pendingRequests s)) s,
     [Rejected requestId "Timeout embedding (10s)"])
  else (s, []).

(** The synchronous part of [generateEmbeddingsBatch]. *)
Definition generateEmbeddingsBatch (requestId : string) (s : t) : result t :=
  if negb (worker s) || negb (isReady s) then
    Throw "Worker not ready -> First try initialize()."
  else Ok (with_pending (pending_set requestId (pendingRequests s)) s).

(** The callback of the 30 s timer of a batch request. *)
Definition batchTimeout (requestId : string) (s : t) : t * list Settlement :=
  if bool_decide (requestId ∈ pendingRequests s) then
    (with_pending (pending_delete requestId (pendingRequests s)) s,
     [Rejected requestId "Timeout batch embedding (30s)"])
  else (s, []).

(** The promises [handleWorkerError] rejects. *)
Definition crashRejections (message : string) (s : t) : list Settlement :=
  (λ k, Rejected k ("Worker crashed: " +:+ message)) <$> pendingRequests s.

(** The request ids. [stamp] stands for the time and the random digits:
    [Date.now() + '_' + Math.random().toString(36).substr(2, 9)]. *)
Definition embedId (stamp : string) : string := "embed_" +:+ stamp.
Definition batchId (stamp : string) : string := "batch_" +:+ stamp.

(** What happens to the client, in order. *)
Inductive ClientCall : Type :=
| Request (stamp text : string) (textType : TextType)
| BatchRequest (stamp : string) (texts : list string)
| Message (data : WorkerMessage)
| TimerFires (requestId : string)
| BatchTimerFires (requestId : string)
| Crashes (now : Z) (message : string).

Definition call (c : ClientCall) (s : t) : t * list Settlement :=
  match c with
  | Request stamp _ _ =>
      match generateEmbedding (embedId stamp) s with
      | Ok s' => (s', [])
      | Throw _ => (s, [])
      end
  | BatchRequest stamp _ =>
      match generateEmbeddingsBatch (batchId stamp) s with
      | Ok s' => (s', [])
      | Throw _ => (s, [])
      end
  | Message data => handleWorkerMessage data s
  | TimerFires requestId => embeddingTimeout requestId s
  | BatchTimerFires requestId => batchTimeout requestId s
  | Crashes now message => (fst (handleWorkerError now s), crashRejections message s)
  end.

Fixpoint run (cs : list ClientCall) (s : t) : t * list Settlement :=
  match cs with
  | [] => (s, [])
  | c :: cs' =>
      let '(s1, settled1) := call c s in
      let '(s2, settled2) := run cs' s1 in
      (s2, settled1 ++ settled2)
  end.

(** The id of the request a call makes. *)
Definition request_id (c : ClientCall) : option string :=
  match c with
  | Request stamp _ _ => Some (embedId stamp)
  | BatchRequest stamp _ => Some (batchId stamp)
  | _ => None
  end.

(** The ids of the requests made in a run. *)
Definition requested (cs : list ClientCall) : list string := omap request_id cs.

End Client.

Arguments Settlement : clear implicits.
Arguments WorkerMessage : clear implicits.
Arguments ClientCall : clear implicits.

End AIWorkerClient.

(** ** AIService: state changes and embedding requests *)

Module AIServiceCalls.
Import AIService.

(** What the service does to its surroundings. *)
Inductive ServiceEvent : Type :=
| SaveSettings        (* saveSettingsCallback() *)
| StateChanged.       (* 'link-grabber:ai-state-changed' *)

(** The service, [settings.aiState] and the events so far. *)
Record env : Type := {
  service : AIService.t;
  aiState : option (AIState * string);
  events : list ServiceEvent
}.

Definition with_client (c : AIWorkerService.t) (e : env) : env :=
  {| service := {| status := status (service e); message := message (service e);
                   aiWorkerService := c |};
     aiState := aiState e; events := events e |}.

(** [setState(state, message, persist)]: a failure of the settings callback
    is caught and logged. *)
Definition setState (state : AIState) (msg : string) (persist : bool) (e : env) : env :=
  {| service := {| status := state; message := msg;
                   aiWorkerService := aiWorkerService (service e) |};
     aiState := if persist then Some (state, msg) else aiState e;
     events := events e ++ (if persist then [SaveSettings] else []) ++ [StateChanged] |}.

(** [initializeXenova()]: [None] when the client's [initialize] never
    settles. *)
Definition initializeXenova (o : AIWorkerService.InitOutcome) (e : env)
  : option (bool * env) :=
  let '(settled, c) := AIWorkerService.initialize o (aiWorkerService (service e)) in
  let e := with_client c e in
  match settled with
  | None => None
  | Some true => Some (true, e)
  | Some false =>
      Some (false, setState error "Init failed: Worker initialization failed" true e)
  end.

Definition loadModel (e : env) : bool * env :=
  if AIWorkerService.isWorkerReady (aiWorkerService (service e)) then
    (true, setState ready "AI Model loaded in Worker" true e)
  else
    (false, setState error "Load failed: Worker not ready after initialization" true e).

(** Step 3 of [AIManager.initialize], once the model files are found. *)
Definition autoLoad (o : AIWorkerService.InitOutcome) (e : env) : option env :=
  match initializeXenova o e with
  | None => None
  | Some (true, e) => Some (loadModel e).2
  | Some (false, e) => Some e
  end.

Definition getStatus (e : env) : AIState * string :=
  (status (service e), message (service e)).

Section Embedding.
Context {num : Type}.

(** How the worker answers a request. *)
Inductive WorkerReply : Type :=
| Replies (embedding : list num)
| Fails (error : string)
| Silent.   (* nothing within 10 s *)

(** The promise of the client's [generateEmbedding]: the request is
    registered, then the answer or the timer settles it; [None] when nothing
    settles it. *)
Definition awaitEmbedding (requestId : string) (reply : WorkerReply)
    (c : AIWorkerService.t) : option (result (list num)) * AIWorkerService.t :=
  match AIWorkerClient.generateEmbedding requestId c with
  | Throw msg => (Some (Throw msg), c)
  | Ok c =>
      let '(c, settled) :=
        match reply with
        | Replies embedding =>
            AIWorkerClient.handleWorkerMessage
              (AIWorkerClient.EmbeddingResult requestId true embedding "") c
        | Fails err =>
            AIWorkerClient.handleWorkerMessage
              (AIWorkerClient.EmbeddingResult requestId false [] err) c
        | Silent => AIWorkerClient.embeddingTimeout requestId c
        end in
      (match settled with
       | AIWorkerClient.Resolved _ embedding :: _ => Some (Ok embedding)
       | AIWorkerClient.Rejected _ err :: _ => Some (Throw err)
       | [] => None
       end, c)
  end.

(** [generateEmbedding(text, textType)]: [null] when the service is not
    ready or the client's call throws; the outer [None] when the call never
    returns. *)
Definition generateEmbedding (requestId : string) (reply : WorkerReply) (e : env)
  : option (option (list num)) * env :=
  if negb (isReady (service e)) then (Some None, e)
  else
    let '(r, c) := awaitEmbedding requestId reply (aiWorkerService (service e)) in
    (match r with
     | Some (Ok embedding) => Some (Some embedding)
     | Some (Throw _) => Some None
     | None => None
     end, with_client c e).

End Embedding.

Arguments WorkerReply : clear implicits.

End AIServiceCalls.

(** ** The worker: the prefix of the text to embed *)

Definition textTypeName (textType : TextType) : string :=
  match textType with
  | query => "query"
  | passage => "passage"
  end.

(** [processedText] of [handleGenerateEmbedding]. *)
Definition processedText (text : string) (textType : TextType) : string :=
  if negb (String.prefix "query: " text) && negb (String.prefix "passage: " text)
  then textTypeName textType +:+ ": " +:+ text
  else text.

(** ** The worker: its message handler *)

Module AIWorker.
Import AIWorkerClient.

(** [e.data] of a message to the worker. *)
Inductive WorkerRequest : Type :=
| ReceiveFile
| LoadPipeline
| GenerateEmbedding (requestId text : string) (textType : option TextType)
| GenerateEmbeddingsBatch (requestId : string) (texts : list string).

(** How [pipeline(...)] ends: with the extractor, or with an error of the
    given message. *)
Inductive PipelineOutcome : Type :=
| PipelineLoads
| PipelineFails (message : string).

(** [filesReceived] and whether [extractor] is set. *)
Record t : Type := {
  filesReceived : Z;
  extractor : bool
}.

Section Worker.
Context {num : Type}.

(** How the extractor ends on a text: with the embedding read from its
    result, or with an error. *)
Inductive ExtractorOutcome : Type :=
| Extracts (embedding : list num)
| ExtractorFails (message : string).

(** [loadPipeline()]: the state, the messages posted, and the message of the
    error it throws, if it throws. *)
Definition loadPipeline (o : PipelineOutcome) (k : t)
  : t * list (WorkerMessage num) * option string :=
  match o with
  | PipelineLoads =>
      ({| filesReceived := filesReceived k; extractor := true |},
       [TransformersLoaded], None)
  | PipelineFails message =>
      (k,
       [WorkerError (if bool_decide (message = "") then "Pipeline loading failed"
                     else message)],
       Some message)
  end.

(** [handleReceiveFile]: the state, the messages posted, and whether the
    500 ms timer that loads the pipeline is set. *)
Definition handleReceiveFile (k : t) : t * list (WorkerMessage num) * bool :=
  let k := {| filesReceived := filesReceived k + 1; extractor := extractor k |} in
  if 4 <=? filesReceived k then (k, [AllFilesReceived], true) else (k, [], false).

(** The callback of that timer. *)
Definition autoLoad (o : PipelineOutcome) (k : t) : t * list (WorkerMessage num) :=
  match loadPipeline o k with
  | (k, posted, None) => (k, posted)
  | (k, posted, Some message) =>
      (k, posted ++ [WorkerError ("Pipeline loading failed: " +:+ message)])
  end.

(** [handleGenerateEmbedding]: [model] is the extractor as a function of
    the text it is given. *)
Definition handleGenerateEmbedding (requestId text : string) (textType : TextType)
    (o : PipelineOutcome) (model : string → ExtractorOutcome) (k : t)
  : t * list (WorkerMessage num) :=
  let '(k, posted, failure) :=
    if extractor k then (k, [], None) else loadPipeline o k in
  match failure with
  | Some message => (k, posted ++ [EmbeddingResult requestId false [] message])
  | None =>
      (k, posted ++
          [match model (processedText text textType) with
           | Extracts embedding => EmbeddingResult requestId true embedding ""
           | ExtractorFails message => EmbeddingResult requestId false [] message
           end])
  end.

(** [self.onmessage]: a message of any other type is ignored. *)
Definition onmessage (data : WorkerRequest) (o : PipelineOutcome)
    (model : string → ExtractorOutcome) (k : t) : t * list (WorkerMessage num) :=
  match data with
  | ReceiveFile => (handleReceiveFile k).1
  | LoadPipeline => (loadPipeline o k).1
  | GenerateEmbedding requestId text textType =>
      handleGenerateEmbedding requestId text (default passage textType) o model k
  | GenerateEmbeddingsBatch _ _ => (k, [])
  end.



End Worker.

Arguments ExtractorOutcome : clear implicits.

End AIWorker.

(** ** Occurrences in a string *)

(** [sub] occurs in [s]. *)
Definition occurs (sub s : string) : Prop :=
  ∃ pre post, s = pre +:+ sub +:+ post.

(** ** More sample data *)

(** "a.md" with the same embedding for its title and its content, "b.md"
    with a title only. *)
Definition library_db : EmbeddingDatabases float :=
  setTitleEmbedding "b.md"
    {| t_path := "b.md"; t_embedding := [0; 1]%float; t_lastModified := 1;
       t_title := "b" |}
    (setContentEmbedding "a.md"
       {| c_path := "a.md"; c_embedding := [1; 0]%float; c_lastModified := 1;
          c_excerpt := "text" |}
       (setTitleEmbedding "a.md"
          {| t_path := "a.md"; t_embedding := [1; 0]%float; t_lastModified := 1;
             t_title := "a" |}
          (createEmptyDatabase 0))).

Definition ten_results : SearchOptions float :=
  {| topK := Some 10; excludePath := None; minScore := None |}.

Definition without_a : SearchOptions float :=
  {| topK := Some 10; excludePath := Some "a.md"%string; minScore := None |}.

Definition library_allResults : list (SearchResult float) :=
  Eval vm_compute in
    match collectResults all_enabled library_db [1; 0]%float None with
    | Ok l => l
    | Throw _ => []
    end.

(** A vault in which every note has the one heading "Intro". *)
Definition heading_host (files : list TFile) : Host float :=
  {| aiService_generateEmbedding := λ _ _, Some [1; 0]%float;
     cachedRead := λ file, basename file;
     fileCache_headings := λ _, Some ["Intro"%string];
     getMarkdownFiles := files |}.

Definition headings_off : Settings :=
  {| aiIndexTitles := true; aiIndexHeadings := false; aiIndexContent := true |}.

(** A runtime whose [JSON.stringify] and [toLocaleString] are not looked at. *)
Definition no_text {A} (_ : A) : string := "".

(** A headings pass was interrupted 10 s before the plugin started. *)
Definition headings_locked : World float :=
  {| db := {| version := "2.0.0"; lastUpdate := 0;
              db_titles := ∅; db_headings := ∅; db_content := ∅;
              indexingStates :=
                {| st_titles := createEmptyState;
                   st_headings := {| isIndexing := true; progress := 3; total := 10;
                                     lastIndexed := 0;
                                     lastHeartbeat := Some 1699999990000 |};
                   st_content := createEmptyState |} |};
     disk := Missing; cancelIndexing := false; cleanupTimers := 0;
     clock := 1700000000000; trace := []; schedule := [] |}.

Definition ready_env : AIServiceCalls.env :=
  {| AIServiceCalls.service := ready_service;
     AIServiceCalls.aiState := Some (AIService.ready, "AI Model loaded in Worker"%string);
     AIServiceCalls.events := [] |}.

Definition new_env : AIServiceCalls.env :=
  {| AIServiceCalls.service :=
       {| AIService.status := AIService.not_configured;
          AIService.message := "Not configured";
          AIService.aiWorkerService := AIWorkerService.initial |};
     AIServiceCalls.aiState := None;
     AIServiceCalls.events := [] |}.

(** * Properties *)

Import Cosine.

Section RealCosine.
Local Open Scope R_scope.

Lemma dot_product_self_nonneg (a : list R) : 0 <= dot_product a a.
Proof. induction a as [|x a IH]; simpl; [lra | nra]. Qed.

(** The loop accumulates the three sums of the formula. *)
Lemma fold_accumulate_sums (a b : list R) :
  ∀ d na nb, length a = length b →
    fold_left accumulate (combine a b) (d, na, nb)
    = (d + dot_product a b, na + dot_product a a, nb + dot_product b b).
Proof.
  revert b. induction a as [|x a IH]; intros [|y b] d na nb Hlen;
    simpl in Hlen; try discriminate.
  - simpl. f_equal; [f_equal|]; lra.
  - simpl combine. simpl fold_left. rewrite IH by congruence.
    simpl. f_equal; [f_equal|]; lra.
Qed.

Lemma cauchy_schwarz (a b : list R) :
  length a = length b →
  dot_product a b * dot_product a b <= dot_product a a * dot_product b b.
Proof.
  revert b. induction a as [|x a IH]; intros [|y b] Hlen;
    simpl in Hlen; try discriminate.
  - simpl. lra.
  - assert (Hab := IH b ltac:(congruence)).
    pose proof (dot_product_self_nonneg a) as Ha.
    pose proof (dot_product_self_nonneg b) as Hb.
    simpl.
    set (d := dot_product a b) in *.
    set (sa := dot_product a a) in *.
    set (sb := dot_product b b) in *.
    assert (Hmid : 2 * (x * y) * d <= x * x * sb + y * y * sa).
    { pose proof (sqrt_sqrt sa Ha) as Hp. pose proof (sqrt_sqrt sb Hb) as Hq.
      pose proof (sqrt_pos sa) as Hp0. pose proof (sqrt_pos sb) as Hq0.
      set (p := sqrt sa) in *. set (q := sqrt sb) in *.
      assert (Hd : d * d <= (p * q) * (p * q)).
      { replace ((p * q) * (p * q)) with ((p * p) * (q * q)) by ring.
        rewrite Hp, Hq. exact Hab. }
      assert (Hpq : 0 <= p * q) by nra.
      assert (Hd1 : d <= p * q) by nra.
      assert (Hd2 : - (p * q) <= d) by nra.
      rewrite <- Hp, <- Hq.
      destruct (Rle_dec 0 (x * y)) as [Hxy|Hxy].
      - assert (H1 : (x * y) * d <= (x * y) * (p * q))
          by (apply Rmult_le_compat_l; lra).
        pose proof (Rle_0_sqr (x * q - y * p)) as H2. unfold Rsqr in H2.
        lra.
      - assert (H1 : (- (x * y)) * (- d) <= (- (x * y)) * (p * q))
          by (apply Rmult_le_compat_l; lra).
        pose proof (Rle_0_sqr (x * q + y * p)) as H2. unfold Rsqr in H2.
        lra. }
    nra.
Qed.

(** Over exact real arithmetic [cosineSimilarity] returns the dot product
    divided by the product of the two L2 norms, which lies in [-1, 1] when
    both norms are non-zero, and returns exactly 0 when either norm is
    zero. *)
Lemma cosineSimilarity_real_bounds (a b : list R) :
  length a = length b →
  ∃ c, cosineSimilarity a b = Ok c ∧
    (l2_norm a ≠ 0 → l2_norm b ≠ 0 →
       c = dot_product a b / (l2_norm a * l2_norm b) ∧ -1 <= c <= 1) ∧
    (l2_norm a = 0 ∨ l2_norm b = 0 → c = 0).
Proof.
  intros Hlen. unfold cosineSimilarity.
  rewrite Hlen, Nat.eqb_refl. cbn [negb].
  rewrite fold_accumulate_sums by exact Hlen.
  cbn [num_zero num_add num_mul num_div num_sqrt num_eqb real_Number].
  rewrite !Rplus_0_l. fold (l2_norm a) (l2_norm b).
  eexists; split; [reflexivity|].
  pose proof (sqrt_pos (dot_product a a)) as Hp0. fold (l2_norm a) in Hp0.
  pose proof (sqrt_pos (dot_product b b)) as Hq0. fold (l2_norm b) in Hq0.
  destruct (Req_dec_T (l2_norm a * l2_norm b) 0) as [Hz|Hnz]; split.
  - intros Ha Hb. apply Rmult_integral in Hz. tauto.
  - reflexivity.
  - intros Ha Hb. split; [reflexivity|].
    assert (Hden : 0 < l2_norm a * l2_norm b) by (apply Rmult_lt_0_compat; lra).
    pose proof (cauchy_schwarz a b Hlen) as Hcs.
    pose proof (sqrt_sqrt _ (dot_product_self_nonneg a)) as Hp.
    pose proof (sqrt_sqrt _ (dot_product_self_nonneg b)) as Hq.
    fold (l2_norm a) in Hp. fold (l2_norm b) in Hq.
    rewrite <- Hp, <- Hq in Hcs.
    set (p := l2_norm a) in *. set (q := l2_norm b) in *.
    set (d := dot_product a b) in *.
    assert (Hd1 : d <= p * q) by nra.
    assert (Hd2 : - (p * q) <= d) by nra.
    split.
    + apply Rmult_le_reg_r with (r := p * q); [exact Hden|].
      unfold Rdiv. rewrite Rmult_assoc, Rinv_l by lra. lra.
    + apply Rmult_le_reg_r with (r := p * q); [exact Hden|].
      unfold Rdiv. rewrite Rmult_assoc, Rinv_l by lra. lra.
  - intros [Ha|Hb]; exfalso; apply Hnz; [rewrite Ha|rewrite Hb]; ring.
Qed.

End RealCosine.

(** * The inference service and client *)

(** C1 (not met by the code): [isReady()] is meant to hold only when the
    persisted status is 'ready' and the client reports its unit ready. On the
    code, after a crash of the unit of a ready service, the status is still
    'ready', the client reports not ready, and [isReady()] returns true: the
    conjunction is computed for the log only. *)
Theorem isReady_after_worker_crash :
  let s := AIService.workerCrashed 1700000000000 ready_service in
  AIService.status s = AIService.ready
  ∧ AIWorkerService.isWorkerReady (AIService.aiWorkerService s) = false
  ∧ AIService.isReady s = true.
Proof. repeat split. Qed.

Section RestartPolicy.
Import AIWorkerService.

Lemma handleWorkerError_not_ready now s : isReady (fst (handleWorkerError now s)) = false.
Proof.
  unfold handleWorkerError.
  repeat (case_match; simpl); reflexivity.
Qed.

Lemma handleWorkerError_worker now s : worker (fst (handleWorkerError now s)) = worker s.
Proof.
  unfold handleWorkerError.
  repeat (case_match; simpl); reflexivity.
Qed.

Lemma restartCallback_stopped o s :
  worker s = true → isReady s = false → restartCallback o s = s.
Proof.
  intros Hw Hr. unfold restartCallback, initialize. rewrite Hw, Hr. reflexivity.
Qed.

Lemma exhausted_handle s e :
  exhausted s → within_window s e →
  handle s e = {| worker := true; isReady := false; pendingRequests :=
                    match e with Crash _ => [] | _ => pendingRequests s end;
                  restartAttempts := 3; lastRestartTime := lastRestartTime s |}
  ∧ (∀ now, e = Crash now → snd (handleWorkerError now s) = GiveUp).
Proof.
  intros (Hw & Hr & Ha) Hwin. destruct e as [now|o]; simpl in *.
  - assert (E : (60000 <? now - lastRestartTime s) = false) by lia.
    split; [|intros ? [= <-]]; unfold handleWorkerError;
      rewrite Ha, Hw, E; reflexivity.
  - rewrite restartCallback_stopped by assumption.
    split; [|intros; discriminate]. destruct s; simpl in *. subst. reflexivity.
Qed.

End RestartPolicy.
(** * The persisted envelope *)

Section DatabaseFacts.
Context {num : Type}.
Implicit Types (d e : EmbeddingDatabases num) (w : World num) (type : IndexType).

Lemma getIndexingState_put type st d :
  getIndexingState type (putIndexingState type st d) = st.
Proof. destruct type; reflexivity. Qed.

Lemma getIndexingState_put_ne type type' st d :
  type ≠ type' →
  getIndexingState type (putIndexingState type' st d) = getIndexingState type d.
Proof. destruct type, type'; intros Hne; try reflexivity; congruence. Qed.

Lemma getIndexingState_set type p d :
  getIndexingState type (setIndexingState type p d)
  = assign (getIndexingState type d) p.
Proof. apply getIndexingState_put. Qed.

Lemma getIndexingState_set_ne type type' p d :
  type ≠ type' →
  getIndexingState type (setIndexingState type' p d) = getIndexingState type d.
Proof. apply getIndexingState_put_ne. Qed.

Lemma version_set type p d : version (setIndexingState type p d) = version d.
Proof. reflexivity. Qed.

(** [recoverStaleLock] touches the state of its own collection only, and
    clears the flag exactly when the heartbeat is positive and more than
    30 s old. *)
Lemma recoverStaleLock_other now type type' d :
  type ≠ type' →
  getIndexingState type (recoverStaleLock now type' d) = getIndexingState type d.
Proof.
  intros Hne. unfold recoverStaleLock.
  repeat (case_match; rewrite ?getIndexingState_set_ne by done); reflexivity.
Qed.

Lemma recoverStaleLock_flag now type d :
  let st := getIndexingState type d in
  let hb := default 0 (lastHeartbeat st) in
  isIndexing (getIndexingState type (recoverStaleLock now type d))
  = isIndexing st && negb ((0 <? hb) && (30000 <? now - hb)).
Proof.
  unfold recoverStaleLock.
  destruct (lastHeartbeat (getIndexingState type d)) as [hb|] eqn:Hhb; simpl.
  - rewrite Hhb. simpl.
    destruct (isIndexing (getIndexingState type d)) eqn:Hi; simpl.
    2:{ exact Hi. }
    destruct ((0 <? hb) && (30000 <? now - hb)) eqn:Hs; simpl.
    + by rewrite getIndexingState_set.
    + exact Hi.
  - rewrite !getIndexingState_set. simpl.
    destruct (isIndexing (getIndexingState type d)) eqn:Hi; simpl.
    + rewrite getIndexingState_set. simpl. exact Hi.
    + rewrite getIndexingState_set. simpl. exact Hi.
Qed.

Lemma load_stored_flag w e type :
  disk w = Stored e → version e = "2.0.0" →
  let st := getIndexingState type e in
  let hb := default 0 (lastHeartbeat st) in
  isIndexing (getIndexingState type (db (load w)))
  = isIndexing st && negb ((0 <? hb) && (30000 <? clock w - hb)).
Proof.
  intros Hdisk Hv. unfold load. rewrite Hdisk, Hv. simpl.
  destruct type.
  - rewrite !recoverStaleLock_other by done. apply recoverStaleLock_flag.
  - rewrite recoverStaleLock_other by done. rewrite recoverStaleLock_flag.
    rewrite recoverStaleLock_other by done. done.
  - rewrite recoverStaleLock_flag. rewrite !recoverStaleLock_other by done. done.
Qed.

(** C3 (as amended): for a persisted envelope of version 2.0.0 in which a
    collection's [isIndexing] is true, [load()] clears the flag when the
    heartbeat is positive and more than 30 s old, and keeps it when the
    heartbeat is at most 30 s old (10 s in particular) or is missing or 0. *)
Theorem load_stale_lock_recovery w e type :
  disk w = Stored e →
  version e = "2.0.0" →
  isIndexing (getIndexingState type e) = true →
  let hb := default 0 (lastHeartbeat (getIndexingState type e)) in
  let flag := isIndexing (getIndexingState type (db (load w))) in
  (0 < hb → 30000 < clock w - hb → flag = false)
  ∧ (clock w - hb <= 30000 → flag = true)
  ∧ (hb <= 0 → flag = true).
Proof.
  intros Hdisk Hv Hflag hb flag. subst flag.
  rewrite (load_stored_flag w e type Hdisk Hv), Hflag. fold hb. simpl.
  repeat split; intros.
  - replace (0 <? hb) with true by lia. replace (30000 <? clock w - hb) with true by lia.
    reflexivity.
  - replace (30000 <? clock w - hb) with false by lia. by rewrite andb_false_r.
  - replace (0 <? hb) with false by lia. reflexivity.
Qed.

End DatabaseFacts.

Section HandlerFacts.
Context {num : Type}.
Implicit Types (d e : EmbeddingDatabases num) (w : World num) (type : IndexType).

Lemma handled_refl w : handled w w.
Proof.
  split; try reflexivity; [intros; tauto|].
  exists []. rewrite app_nil_r. auto.
Qed.

Lemma handled_same w w' : db w' = db w → trace w' = trace w → handled w w'.
Proof.
  intros Hdb Htr. split; rewrite ?Hdb; try reflexivity; [intros; tauto|].
  exists []. rewrite app_nil_r. auto.
Qed.

Lemma handled_trans w1 w2 w3 : handled w1 w2 → handled w2 w3 → handled w1 w3.
Proof.
  intros [T1 H1 C1 V1 S1 (evs & E1 & F1)] [T2 H2 C2 V2 S2 (evs' & E2 & F2)].
  split; try congruence.
  - intros type.
    destruct (S1 type) as (? & ? & ? & ? & ?).
    destruct (S2 type) as (? & ? & ? & ? & ?).
    repeat split; try congruence. auto.
  - exists (evs ++ evs'). rewrite E2, E1, app_assoc. split; [done|]. by apply Forall_app.
Qed.

Lemma handled_writeEnvelope w : handled w (writeEnvelope w).
Proof.
  split; try reflexivity.
  - intros []; simpl; tauto.
  - exists [EvWrite]. split; [reflexivity|]. by constructor.
Qed.

Lemma setAllIndexingFalse_state type d :
  getIndexingState type (setAllIndexingFalse d)
  = assign (getIndexingState type d) release.
Proof. destruct type; reflexivity. Qed.

Lemma handled_runInterrupt w i : handled w (runInterrupt w i).
Proof.
  destruct i as [| |ms]; simpl.
  - unfold cancelBackgroundIndexing. case_match; by apply handled_same.
  - unfold cancelCleanup. destruct (cleanupTimers w) as [|n]; [apply handled_refl|].
    eapply handled_trans; [|apply handled_writeEnvelope].
    split; try reflexivity.
    + intros type. simpl. rewrite setAllIndexingFalse_state. simpl.
      repeat split; discriminate.
    + exists []. rewrite app_nil_r. auto.
  - by apply handled_same.
Qed.

Lemma handled_fold_runInterrupt hs w : handled w (fold_left runInterrupt hs w).
Proof.
  revert w. induction hs as [|h hs IH]; intros w; simpl; [apply handled_refl|].
  eapply handled_trans; [apply handled_runInterrupt|apply IH].
Qed.

Lemma handled_yield w : handled w (yield w).
Proof.
  unfold yield. destruct (schedule w) as [|hs rest]; [apply handled_refl|].
  eapply handled_trans; [|apply handled_fold_runInterrupt].
  by apply handled_same.
Qed.

Lemma handled_save w : handled w (save w).
Proof.
  unfold save. eapply handled_trans; [apply handled_writeEnvelope|apply handled_yield].
Qed.

Lemma handled_embedCalls w w' : handled w w' → embedCalls (trace w') = embedCalls (trace w).
Proof.
  intros [_ _ _ _ _ (evs & -> & Hevs)]. unfold embedCalls.
  rewrite filter_app, length_app.
  replace (filter _ evs) with (@nil Event); [simpl; lia|].
  induction Hevs as [|ev evs -> _ IH]; [reflexivity|].
  rewrite filter_cons. simpl. destruct (decide (false = true)); [done|exact IH].
Qed.

Lemma synced_writeEnvelope w : synced (writeEnvelope w).
Proof. reflexivity. Qed.

Lemma synced_runInterrupt w i : synced w → synced (runInterrupt w i).
Proof.
  intros Hs. destruct i; simpl.
  - unfold cancelBackgroundIndexing. case_match; exact Hs.
  - unfold cancelCleanup. destruct (cleanupTimers w); [exact Hs|reflexivity].
  - exact Hs.
Qed.

Lemma synced_yield w : synced w → synced (yield w).
Proof.
  intros Hs. unfold yield. destruct (schedule w) as [|hs rest]; [exact Hs|].
  assert (Hs' : synced (with_schedule rest w)) by exact Hs.
  revert Hs'. generalize (with_schedule rest w). clear.
  induction hs as [|h hs IH]; intros w Hs; simpl; [exact Hs|].
  apply IH, synced_runInterrupt, Hs.
Qed.

Lemma synced_save w : synced (save w).
Proof. apply synced_yield, synced_writeEnvelope. Qed.

End HandlerFacts.

Section IndexNoteFacts.
Context {num : Type}.
Variable host : Host num.
Variable settings : Settings.
Implicit Types (w : World num) (file : TFile).

Lemma indexTitle_current file w t :
  getTitleEmbedding (path file) (db w) = Some t →
  t_lastModified t = stat_mtime file →
  indexTitle host file w = w.
Proof.
  intros Hget Hm. unfold indexTitle. rewrite Hget. simpl.
  rewrite Hm, Z.eqb_refl. reflexivity.
Qed.

Lemma indexHeadings_current file w h :
  getHeadingEmbedding (path file) (db w) = Some h →
  h_lastModified h = stat_mtime file →
  indexHeadings host file w = w.
Proof.
  intros Hget Hm. unfold indexHeadings. rewrite Hget. simpl.
  rewrite Hm, Z.eqb_refl. reflexivity.
Qed.

Lemma indexContent_current file w c :
  getContentEmbedding (path file) (db w) = Some c →
  c_lastModified c = stat_mtime file →
  indexContent host file w = w.
Proof.
  intros Hget Hm. unfold indexContent. rewrite Hget. simpl.
  rewrite Hm, Z.eqb_refl. reflexivity.
Qed.

(** C7: when the title, heading and content records of a document all carry
    its current modification time, [indexNote] makes no embedding call and
    leaves the three collections as they were; all it does is save, if asked. *)
Theorem indexNote_unchanged_document file doSave w t h c :
  getTitleEmbedding (path file) (db w) = Some t →
  getHeadingEmbedding (path file) (db w) = Some h →
  getContentEmbedding (path file) (db w) = Some c →
  t_lastModified t = stat_mtime file →
  h_lastModified h = stat_mtime file →
  c_lastModified c = stat_mtime file →
  let w' := indexNote host settings file doSave w in
  embedCalls (trace w') = embedCalls (trace w)
  ∧ db_titles (db w') = db_titles (db w)
  ∧ db_headings (db w') = db_headings (db w)
  ∧ db_content (db w') = db_content (db w)
  ∧ w' = (if doSave then save w else w).
Proof.
  intros Ht Hh Hc Hmt Hmh Hmc w'.
  assert (Hw' : w' = if doSave then save w else w).
  { subst w'. unfold indexNote.
    destruct (aiIndexTitles settings), (aiIndexHeadings settings),
             (aiIndexContent settings);
      rewrite ?(indexTitle_current file w t Ht Hmt),
              ?(indexHeadings_current file w h Hh Hmh),
              ?(indexContent_current file w c Hc Hmc); reflexivity. }
  assert (Hhd : handled w w').
  { rewrite Hw'. destruct doSave; [apply handled_save|apply handled_refl]. }
  split; [exact (handled_embedCalls _ _ Hhd)|].
  destruct Hhd. auto.
Qed.

Lemma is_stale_true {A} (lm : A → Z) (o : option A) file :
  is_stale lm o file = true ↔ ∃ x, o = Some x ∧ lm x ≠ stat_mtime file.
Proof.
  unfold is_stale. destruct o as [x|]; split.
  - intros H. exists x. split; [done|]. intros Heq. rewrite Heq, Z.eqb_refl in H. done.
  - intros (y & [= <-] & Hne). apply negb_true_iff, Z.eqb_neq, Hne.
  - done.
  - intros (? & ? & _). done.
Qed.

Lemma needsUpdate_true file (d : EmbeddingDatabases num) :
  needsUpdate file d = true ↔ has_stale_record file d ∨ has_no_record file d.
Proof.
  unfold needsUpdate, has_stale_record, has_no_record.
  rewrite !orb_true_iff, !andb_true_iff, !negb_true_iff, !is_stale_true,
          !bool_decide_eq_false, <- !eq_None_not_Some.
  tauto.
Qed.

(** C8 (as amended): [updateNoteIfNeeded] re-indexes exactly when some
    existing record of the path is stale or none of the three collections,
    enabled or not, holds the path; otherwise it leaves the state as it is,
    with no embedding call and no write. *)
Theorem updateNoteIfNeeded_trigger file w :
  (has_stale_record file (db w) ∨ has_no_record file (db w) →
     updateNoteIfNeeded host settings file w = indexNote host settings file true w)
  ∧ (¬ (has_stale_record file (db w) ∨ has_no_record file (db w)) →
     updateNoteIfNeeded host settings file w = w).
Proof.
  unfold updateNoteIfNeeded. rewrite <- needsUpdate_true.
  destruct (needsUpdate file (db w)); split; intros; congruence.
Qed.

End IndexNoteFacts.

(** * Sequences of steps *)

Section Steps.
Context {num : Type}.
Variable host : Host num.
Variable settings : Settings.
Implicit Types (d e : EmbeddingDatabases num) (w : World num) (type : IndexType).

Abbreviation steps := (rtc (@step num)).

Lemma steps_other w w' : db w' = db w → disk w' = disk w → steps w w'.
Proof. intros. by apply rtc_once, step_other. Qed.

Lemma steps_emit ev w : steps w (emit ev w).
Proof. by apply steps_other. Qed.

Lemma steps_update (f : EmbeddingDatabases num → EmbeddingDatabases num) w :
  step w (update_db f w) → steps w (update_db f w).
Proof. apply rtc_once. Qed.

Lemma steps_state type p w :
  p_isIndexing p ≠ Some true → steps w (update_db (setIndexingState type p) w).
Proof. intros. by apply rtc_once, step_state. Qed.

Lemma steps_fold_runInterrupt hs w : steps w (fold_left runInterrupt hs w).
Proof.
  revert w. induction hs as [|h hs IH]; intros w; simpl; [done|].
  etrans; [apply rtc_once, step_interrupt|apply IH].
Qed.

Lemma steps_yield w : steps w (yield w).
Proof.
  unfold yield. destruct (schedule w) as [|hs rest]; [done|].
  etrans; [|apply steps_fold_runInterrupt]. by apply steps_other.
Qed.

Lemma steps_save w : steps w (save w).
Proof. unfold save. etrans; [apply rtc_once, step_write|apply steps_yield]. Qed.

Lemma steps_reset w : steps w (reset w).
Proof. unfold reset. etrans; [apply rtc_once, step_empty|apply steps_save]. Qed.

Lemma steps_load w : steps w (load w).
Proof.
  unfold load. destruct (disk w) as [| |loaded] eqn:Hdisk;
    [apply steps_reset|done|].
  case_match; [|apply steps_reset]. by apply rtc_once, step_read.
Qed.

Lemma steps_sleep ms w : steps w (sleep ms w).
Proof. unfold sleep. etrans; [|apply steps_yield]. by apply steps_other. Qed.

Lemma steps_generate text w : steps w (generatePassageEmbedding host text w).2.
Proof. simpl. etrans; [apply steps_emit|apply steps_yield]. Qed.

Lemma steps_indexTitle file w : steps w (indexTitle host file w).
Proof.
  unfold indexTitle. case_match; [done|].
  pose proof (steps_generate (basename file) w) as Hg.
  destruct (generatePassageEmbedding host (basename file) w) as [[emb|] w1];
    simpl in Hg; [|exact Hg].
  etrans; [exact Hg|]. apply rtc_once, step_setTitle.
Qed.

Lemma steps_indexHeadings file w : steps w (indexHeadings host file w).
Proof.
  unfold indexHeadings. case_match; [done|].
  assert (Hrm : steps w match getHeadingEmbedding (path file) (db w) with
                        | Some _ => update_db (removeHeadingEmbedding (path file)) w
                        | None => w
                        end).
  { case_match; [apply rtc_once, step_removeHeading|done]. }
  destruct (fileCache_headings host file) as [[|h hs]|]; [exact Hrm| |exact Hrm].
  match goal with |- context [generatePassageEmbedding host ?t w] =>
    pose proof (steps_generate t w) as Hg;
    destruct (generatePassageEmbedding host t w) as [[emb|] w1] end;
    simpl in Hg; [|exact Hg].
  etrans; [exact Hg|]. apply rtc_once, step_setHeading.
Qed.

Lemma steps_indexContent file w : steps w (indexContent host file w).
Proof.
  unfold indexContent. case_match; [done|].
  match goal with |- context [generatePassageEmbedding host ?t (yield w)] =>
    pose proof (steps_generate t (yield w)) as Hg;
    destruct (generatePassageEmbedding host t (yield w)) as [[emb|] w1] end;
    simpl in Hg.
  - etrans; [apply steps_yield|]. etrans; [exact Hg|].
    apply rtc_once, step_setContent.
  - etrans; [apply steps_yield|exact Hg].
Qed.

Lemma steps_indexOne type file w : steps w (indexOne host type file w).
Proof.
  destruct type; [apply steps_indexTitle|apply steps_indexHeadings|apply steps_indexContent].
Qed.

Lemma steps_indexChunk type chunk w :
  steps w (fold_left (λ w file, indexOne host type file w) chunk w).
Proof.
  revert w. induction chunk as [|file chunk IH]; intros w; simpl; [done|].
  etrans; [apply steps_indexOne|apply IH].
Qed.

Lemma steps_indexNote file doSave w : steps w (indexNote host settings file doSave w).
Proof.
  unfold indexNote.
  etrans; [|destruct doSave; [apply steps_save|done]].
  etrans; [|destruct (aiIndexContent settings); [apply steps_indexContent|done]].
  etrans; [|destruct (aiIndexHeadings settings); [apply steps_indexHeadings|done]].
  destruct (aiIndexTitles settings); [apply steps_indexTitle|done].
Qed.

Lemma steps_updateNoteIfNeeded file w : steps w (updateNoteIfNeeded host settings file w).
Proof. unfold updateNoteIfNeeded. case_match; [apply steps_indexNote|done]. Qed.

Lemma steps_removeNote p w : steps w (removeNote p w).
Proof.
  unfold removeNote.
  set (w1 := if found (getTitleEmbedding p (db w)) p
             then (update_db (removeTitleEmbedding p) w, true)
             else (w, false)).
  assert (H1 : steps w w1.1) by (subst w1; case_match; [apply rtc_once, step_removeTitle|done]).
  destruct w1 as [w1 r1]. simpl in H1.
  set (w2 := if found (getHeadingEmbedding p (db w1)) p
             then (update_db (removeHeadingEmbedding p) w1, true)
             else (w1, r1)).
  assert (H2 : steps w1 w2.1) by (subst w2; case_match; [apply rtc_once, step_removeHeading|done]).
  destruct w2 as [w2 r2]. simpl in H2.
  set (w3 := if found (getContentEmbedding p (db w2)) p
             then (update_db (removeContentEmbedding p) w2, true)
             else (w2, r2)).
  assert (H3 : steps w2 w3.1) by (subst w3; case_match; [apply rtc_once, step_removeContent|done]).
  destruct w3 as [w3 r3]. simpl in H3.
  etrans; [exact H1|]. etrans; [exact H2|]. etrans; [exact H3|].
  destruct r3; [apply steps_save|done].
Qed.

Lemma steps_trigger type a b w : steps w (triggerIndexingUpdate type a b w).
Proof. apply steps_emit. Qed.

Lemma steps_save_trigger type a b w :
  steps w (triggerIndexingUpdate type a b (save w)).
Proof. etrans; [apply steps_save|apply steps_trigger]. Qed.

Lemma steps_progressCallback type onProgress a b w :
  steps w (progressCallback type onProgress a b w).
Proof.
  unfold progressCallback. etrans; [|apply steps_trigger].
  destruct onProgress; [apply steps_emit|done].
Qed.

Lemma chunkLoop_unfold fuel type files cb i indexed w :
  chunkLoop host (S fuel) type files cb i indexed w =
    let params := INDEXING_PARAMS type in
    if (i <? length files)%nat then
      if cancelIndexing w then Some w
      else
        let w := sleep (delayMs params) w in
        let chunk := slice i (Nat.min (i + chunkSize params) (length files)) files in
        let w := fold_left (λ w file, indexOne host type file w) chunk w in
        let indexed := indexed + Z.of_nat (length chunk) in
        let w := update_db (setIndexingState type
                   {| p_isIndexing := None; p_progress := Some indexed;
                      p_total := None; p_lastIndexed := None;
                      p_lastHeartbeat := Some (clock w) |}) w in
        let w := match cb with
                 | Some callback => callback indexed (Z.of_nat (length files)) w
                 | None => w
                 end in
        let w :=
          if Z.rem indexed (saveEvery params) =? 0 then
            triggerIndexingUpdate type (Some indexed)
              (Some (Z.of_nat (length files))) (save w)
          else w in
        chunkLoop host fuel type files cb (i + chunkSize params) indexed w
    else Some w.
Proof. reflexivity. Qed.

Lemma chunkSize_pos type : (1 <= chunkSize (INDEXING_PARAMS type))%nat.
Proof. destruct type; simpl; lia. Qed.

(** The loop ends: [length files + 1] iterations are enough. *)
Lemma chunkLoop_total type files cb fuel :
  ∀ i indexed w, (length files - i < fuel)%nat →
    is_Some (chunkLoop host fuel type files cb i indexed w).
Proof.
  induction fuel as [|fuel IH]; intros i indexed w Hfuel; [lia|].
  rewrite chunkLoop_unfold. cbv zeta.
  destruct (i <? length files)%nat eqn:Hi; [|done].
  destruct (cancelIndexing w); [done|].
  apply IH. apply Nat.ltb_lt in Hi. pose proof (chunkSize_pos type). lia.
Qed.

Lemma steps_chunkLoop type files cb fuel :
  (∀ callback, cb = Some callback → ∀ a b w, steps w (callback a b w)) →
  ∀ i indexed w w',
    chunkLoop host fuel type files cb i indexed w = Some w' → steps w w'.
Proof.
  intros Hcb. induction fuel as [|fuel IH]; intros i indexed w w'; [done|].
  rewrite chunkLoop_unfold. cbv zeta.
  destruct (i <? length files)%nat; [|by intros [= <-]].
  destruct (cancelIndexing w); [by intros [= <-]|].
  intros Hloop. apply IH in Hloop. etrans; [|exact Hloop]. clear Hloop.
  etrans; [|case_match; [apply steps_save_trigger|reflexivity]].
  etrans; [|destruct cb as [callback|]; [by apply Hcb|reflexivity]].
  etrans; [|by apply steps_state].
  etrans; [|apply steps_indexChunk].
  apply steps_sleep.
Qed.

Lemma steps_completeIndexing type w : steps w (completeIndexing type w).
Proof.
  unfold completeIndexing.
  etrans; [|by apply steps_state].
  etrans; [|apply steps_emit].
  etrans; [|apply steps_trigger].
  etrans; [|apply steps_save].
  by apply steps_state.
Qed.

Lemma steps_indexSpecificType type onProgress w w' :
  indexSpecificType host type onProgress w = Some w' → steps w w'.
Proof.
  unfold indexSpecificType.
  destruct (isAnyIndexing (db w)) eqn:Hany; [by intros [= <-]|].
  destruct (indexAll _ _ _ _ _) as [w1|] eqn:Hloop; [|done].
  intros [= <-].
  etrans; [apply rtc_once, step_lock, Hany|].
  etrans; [apply steps_save|].
  etrans; [|apply steps_completeIndexing].
  eapply steps_chunkLoop; [|exact Hloop].
  intros callback [= <-]. apply steps_progressCallback.
Qed.

Lemma perform_steps op w w' : perform host settings op w = Some w' → steps w w'.
Proof.
  destruct op; simpl; try (intros [= <-]).
  - apply steps_load.
  - apply steps_save.
  - apply steps_reset.
  - apply steps_indexNote.
  - apply steps_indexSpecificType.
  - apply steps_removeNote.
  - apply steps_updateNoteIfNeeded.
  - apply (rtc_once _ _ (step_interrupt CancelRequest w)).
  - apply (rtc_once _ _ (step_interrupt CancelCleanup w)).
  - by apply steps_state.
Qed.

End Steps.

(** * The lock *)

Section Lock.
Context {num : Type}.
Variable host : Host num.
Variable settings : Settings.
Implicit Types (d e : EmbeddingDatabases num) (w : World num) (type : IndexType).

Lemma atMostOneIndexing_lowered d d' :
  lowered d d' → atMostOneIndexing d → atMostOneIndexing d'.
Proof. intros Hl Hd t1 t2 H1 H2. apply Hd; by apply Hl. Qed.

Lemma lowered_refl d : lowered d d.
Proof. by intros type. Qed.

Lemma lowered_trans d1 d2 d3 : lowered d1 d2 → lowered d2 d3 → lowered d1 d3.
Proof. intros H12 H23 type H. by apply H12, H23. Qed.

Lemma lowered_set type p d :
  p_isIndexing p ≠ Some true → lowered d (setIndexingState type p d).
Proof.
  intros Hp t. destruct (decide (t = type)) as [->|Hne].
  - rewrite getIndexingState_set. simpl.
    destruct (p_isIndexing p) as [[]|]; simpl; done.
  - by rewrite getIndexingState_set_ne.
Qed.

Lemma lowered_recoverStaleLock now type d : lowered d (recoverStaleLock now type d).
Proof.
  intros t. destruct (decide (t = type)) as [->|Hne].
  - rewrite recoverStaleLock_flag. by intros [? _]%andb_true_iff.
  - by rewrite recoverStaleLock_other.
Qed.

Lemma lowered_setAllIndexingFalse d : lowered d (setAllIndexingFalse d).
Proof. intros t. rewrite setAllIndexingFalse_state. simpl. done. Qed.

Lemma isAnyIndexing_false d :
  isAnyIndexing d = false ↔ ∀ type, isIndexing (getIndexingState type d) = false.
Proof.
  unfold isAnyIndexing. rewrite !orb_false_iff. split.
  - intros [[? ?] ?] []; done.
  - intros H. by rewrite !H.
Qed.

Lemma atMostOneIndexing_markIndexing type n w :
  isAnyIndexing (db w) = false → atMostOneIndexing (db (markIndexing type n w)).
Proof.
  intros Hany0 t1 t2 H1 H2. simpl in H1, H2.
  pose proof (proj1 (isAnyIndexing_false (db w)) Hany0) as Hany.
  destruct (decide (t1 = type)) as [->|Hne1]; destruct (decide (t2 = type)) as [->|Hne2];
    try done.
  - rewrite getIndexingState_set_ne, Hany in H2; done.
  - rewrite getIndexingState_set_ne, Hany in H1; done.
  - rewrite getIndexingState_set_ne, Hany in H1; done.
Qed.

Lemma exclusive_writeEnvelope w : exclusive w → exclusive (writeEnvelope w).
Proof.
  intros [Hdb _]. split; [exact Hdb|]. intros e [= <-]. exact Hdb.
Qed.

Lemma exclusive_runInterrupt w i : exclusive w → exclusive (runInterrupt w i).
Proof.
  intros Hex. destruct i; simpl.
  - unfold cancelBackgroundIndexing. case_match; exact Hex.
  - unfold cancelCleanup. destruct (cleanupTimers w); [exact Hex|].
    apply exclusive_writeEnvelope. destruct Hex as [Hdb Hdisk]. split; [|exact Hdisk].
    simpl. eapply atMostOneIndexing_lowered; [apply lowered_setAllIndexingFalse|exact Hdb].
  - exact Hex.
Qed.

Lemma step_exclusive w w' : exclusive w → step w w' → exclusive w'.
Proof.
  intros Hex Hstep. revert Hex.
  destruct Hstep as [type n w0 Hany|type p w0 Hp| | | | | | |w0|w0|loaded w0 Hl|i w0|w0 w1 Hd Hf];
    intros [Hdb Hdisk]; try (split; [exact Hdb|exact Hdisk]).
  - split; [by apply atMostOneIndexing_markIndexing|exact Hdisk].
  - split; [|exact Hdisk]. simpl.
    eapply atMostOneIndexing_lowered; [by apply lowered_set|exact Hdb].
  - split; [|exact Hdisk]. intros t1 t2 H1. by destruct t1.
  - by apply exclusive_writeEnvelope.
  - split; [|exact Hdisk]. simpl.
    eapply atMostOneIndexing_lowered; [|exact (Hdisk _ Hl)].
    eapply lowered_trans; [|apply lowered_recoverStaleLock].
    eapply lowered_trans; [|apply lowered_recoverStaleLock].
    apply lowered_recoverStaleLock.
  - by apply exclusive_runInterrupt.
  - split; [by rewrite Hd|]. by rewrite Hf.
Qed.

Lemma steps_exclusive w w' : exclusive w → rtc step w w' → exclusive w'.
Proof. intros Hex Hsteps. induction Hsteps; eauto using step_exclusive. Qed.

(** C4: [indexSpecificType] called while a flag is set returns at once and
    leaves the whole state as it was; every step of the engine, and so every
    operation, keeps at most one of the three flags set, in memory and in the
    file, starting from the empty envelope. *)
Theorem indexing_lock_exclusive :
  (* a call while a flag is set returns at once and changes nothing *)
  (∀ type onProgress w,
     isAnyIndexing (db w) = true →
     indexSpecificType host type onProgress w = Some w)
  (* the flag is raised only under the guard *)
  ∧ (∀ w w', exclusive w → rtc step w w' → exclusive w')
  ∧ (∀ op w w', exclusive w → perform host settings op w = Some w' →
       rtc step w w' ∧ exclusive w')
  ∧ (∀ now w, db w = createEmptyDatabase now → disk w = Missing → exclusive w).
Proof.
  split; [|split; [|split]].
  - intros type onProgress w Hany. unfold indexSpecificType. by rewrite Hany.
  - intros w w'. apply steps_exclusive.
  - intros op w w' Hex Hop.
    pose proof (perform_steps host settings op w w' Hop) as Hsteps.
    split; [exact Hsteps|]. by apply (steps_exclusive w w').
  - intros now w Hdb Hdisk. split.
    + rewrite Hdb. intros t1 t2 H1. by destruct t1.
    + rewrite Hdisk. done.
Qed.

End Lock.

(** * Cancellation *)

Section Cancellation.
Context {num : Type}.
Variable host : Host num.
Implicit Types (w : World num) (type : IndexType).

Lemma chunkLoop_cancelled fuel type files cb i indexed w :
  (i < length files)%nat → cancelIndexing w = true →
  chunkLoop host (S fuel) type files cb i indexed w = Some w.
Proof.
  intros Hi Hc. rewrite chunkLoop_unfold. cbv zeta.
  apply Nat.ltb_lt in Hi. by rewrite Hi, Hc.
Qed.

(** The record, the file and the notification the completion path leaves,
    from the state [w1] in which the loop returned. *)
Lemma completeIndexing_records type w1 :
  let st1 := getIndexingState type (db w1) in
  let w' := completeIndexing type w1 in
  getIndexingState type (db w')
    = {| isIndexing := false; progress := 0; total := 0;
         lastIndexed := clock w1; lastHeartbeat := lastHeartbeat st1 |}
  ∧ (∃ e, disk w' = Stored e
          ∧ getIndexingState type e
            = {| isIndexing := false; progress := progress st1; total := total st1;
                 lastIndexed := clock w1; lastHeartbeat := lastHeartbeat st1 |})
  ∧ (∃ before after,
       trace w' = trace w1 ++ before
                  ++ EvIndexingUpdate type false (progress st1) (total st1)
                  :: EvSettingsChanged :: after).
Proof.
  intros st1 w'. subst w'. unfold completeIndexing.
  set (wa := update_db (setIndexingState type _) w1).
  assert (Hsta : getIndexingState type (db wa)
                 = {| isIndexing := false; progress := progress st1; total := total st1;
                      lastIndexed := clock w1; lastHeartbeat := lastHeartbeat st1 |}).
  { subst wa. simpl. rewrite getIndexingState_set. reflexivity. }
  pose proof (handled_save wa) as [_ _ _ _ Hst (evs & Htr & _)].
  pose proof (synced_save wa) as Hsync.
  set (wb := save wa) in *.
  destruct (Hst type) as (Hp & Ht & Hli & Hhb & Hflag).
  assert (Hstb : getIndexingState type (db wb)
                 = {| isIndexing := false; progress := progress st1; total := total st1;
                      lastIndexed := clock w1; lastHeartbeat := lastHeartbeat st1 |}).
  { rewrite Hsta in Hp, Ht, Hli, Hhb, Hflag. simpl in *.
    destruct (getIndexingState type (db wb)) as [f p t li hb]. simpl in *.
    subst. destruct f; [by specialize (Hflag eq_refl)|reflexivity]. }
  split; [|split].
  - simpl. rewrite getIndexingState_set. simpl. rewrite Hstb. reflexivity.
  - exists (db wb). split; [exact Hsync|exact Hstb].
  - exists evs, []. simpl. unfold triggerIndexingUpdate. simpl.
    rewrite Hstb. simpl. rewrite Htr. subst wa. simpl.
    rewrite <- !app_assoc. reflexivity.
Qed.

End Cancellation.

(** * Semantic search *)

Section SearchFacts.
Context {num : Type} `{!Number num}.
Implicit Types (r m : SearchResult num) (best : list (string * SearchResult num)).

(** ** Collecting the matches *)

Lemma mapM_result_Ok {A B} (f : A → result B) l ys :
  mapM_result f l = Ok ys →
  (∀ x, x ∈ l → ∃ y, f x = Ok y ∧ y ∈ ys)
  ∧ (∀ y, y ∈ ys → ∃ x, x ∈ l ∧ f x = Ok y).
Proof.
  revert ys. induction l as [|x l IH]; intros ys; simpl.
  - intros [= <-]. split; intros ? H; by apply elem_of_nil in H.
  - destruct (f x) as [y|] eqn:Hfx; simpl; [|done].
    destruct (mapM_result f l) as [ys'|] eqn:Hl; simpl; [|done].
    intros [= <-]. destruct (IH ys' eq_refl) as [IH1 IH2]. split.
    + intros x' [->|Hin]%elem_of_cons.
      * exists y. split; [done|]. left.
      * destruct (IH1 x' Hin) as (y' & ? & ?). exists y'. split; [done|]. by right.
    + intros y' [->|Hin]%elem_of_cons.
      * exists x. split; [left|done].
      * destruct (IH2 y' Hin) as (x' & ? & ?). exists x'. split; [by right|done].
Qed.

Lemma collectionResults_Ok {A} (enabled : bool) exclude
    (entryResult : string * A → result (SearchResult num)) (collection : gmap string A) rs :
  collectionResults enabled exclude entryResult collection = Ok rs →
  (∀ r, r ∈ rs →
     enabled = true ∧ ∃ p data, collection !! p = Some data
       ∧ is_excluded exclude p = false ∧ entryResult (p, data) = Ok r)
  ∧ (∀ p data, enabled = true → collection !! p = Some data →
       is_excluded exclude p = false →
       ∃ r, r ∈ rs ∧ entryResult (p, data) = Ok r).
Proof.
  unfold collectionResults. destruct enabled.
  - intros [H1 H2]%mapM_result_Ok. split.
    + intros r Hr. split; [done|].
      destruct (H2 r Hr) as ([p data] & [Hex Hin]%list_elem_of_filter & Hres).
      apply elem_of_map_to_list in Hin. by exists p, data.
    + intros p data _ Hlook Hex.
      destruct (H1 (p, data)) as (r & ? & ?); [|by exists r].
      apply list_elem_of_filter. split; [done|]. by apply elem_of_map_to_list.
  - intros [= <-]. split; [by intros ? ?%elem_of_nil|done].
Qed.

Lemma titleResult_Ok q p data r :
  titleResult q (p, data) = Ok r →
  sr_path r = p ∧ source r = src_title
  ∧ Cosine.cosineSimilarity q (t_embedding data) = Ok (score r).
Proof.
  unfold titleResult. destruct (Cosine.cosineSimilarity _ _); simpl; [|done].
  by intros [= <-].
Qed.

Lemma headingResult_Ok q p data r :
  headingResult q (p, data) = Ok r →
  sr_path r = p ∧ source r = src_heading
  ∧ Cosine.cosineSimilarity q (h_embedding data) = Ok (score r).
Proof.
  unfold headingResult. destruct (Cosine.cosineSimilarity _ _); simpl; [|done].
  by intros [= <-].
Qed.

Lemma contentResult_Ok q p data r :
  contentResult q (p, data) = Ok r →
  sr_path r = p ∧ source r = src_content
  ∧ Cosine.cosineSimilarity q (c_embedding data) = Ok (score r).
Proof.
  unfold contentResult. destruct (Cosine.cosineSimilarity _ _); simpl; [|done].
  by intros [= <-].
Qed.

(** [allResults] holds exactly the matches of the paths that are not excluded. *)
Lemma collectResults_Ok settings d q exclude allResults :
  collectResults settings d q exclude = Ok allResults →
  (∀ r, r ∈ allResults →
     is_excluded exclude (sr_path r) = false
     ∧ stored_match settings d q (sr_path r) (source r) (score r))
  ∧ (∀ p src sc, is_excluded exclude p = false →
       stored_match settings d q p src sc →
       ∃ r, r ∈ allResults ∧ sr_path r = p ∧ source r = src ∧ score r = sc).
Proof.
  unfold collectResults.
  destruct (collectionResults (aiIndexTitles settings) _ _ _) as [ts|] eqn:Ht; simpl; [|done].
  destruct (collectionResults (aiIndexHeadings settings) _ _ _) as [hs|] eqn:Hh; simpl; [|done].
  destruct (collectionResults (aiIndexContent settings) _ _ _) as [cs|] eqn:Hc; simpl; [|done].
  intros [= <-].
  apply collectionResults_Ok in Ht as [Ht1 Ht2].
  apply collectionResults_Ok in Hh as [Hh1 Hh2].
  apply collectionResults_Ok in Hc as [Hc1 Hc2].
  split.
  - intros r [Hr|[Hr|Hr]%elem_of_app]%elem_of_app.
    + destruct (Ht1 r Hr) as (Hen & p & data & Hl & Hex & Hres).
      apply titleResult_Ok in Hres as (-> & -> & Hcos). split; [done|].
      simpl. eauto.
    + destruct (Hh1 r Hr) as (Hen & p & data & Hl & Hex & Hres).
      apply headingResult_Ok in Hres as (-> & -> & Hcos). split; [done|].
      simpl. eauto.
    + destruct (Hc1 r Hr) as (Hen & p & data & Hl & Hex & Hres).
      apply contentResult_Ok in Hres as (-> & -> & Hcos). split; [done|].
      simpl. eauto.
  - intros p src sc Hex Hm. destruct src; simpl in Hm;
      destruct Hm as (Hen & data & Hl & Hcos).
    + destruct (Ht2 p data Hen Hl Hex) as (r & Hr & Hres).
      apply titleResult_Ok in Hres as (? & ? & Hcos').
      exists r. rewrite !elem_of_app. repeat split; [auto|done|done|congruence].
    + destruct (Hh2 p data Hen Hl Hex) as (r & Hr & Hres).
      apply headingResult_Ok in Hres as (? & ? & Hcos').
      exists r. rewrite !elem_of_app. repeat split; [auto|done|done|congruence].
    + destruct (Hc2 p data Hen Hl Hex) as (r & Hr & Hres).
      apply contentResult_Ok in Hres as (? & ? & Hcos').
      exists r. rewrite !elem_of_app. repeat split; [auto|done|done|congruence].
Qed.

(** ** The map of the best result per path *)

Lemma map_get_set_eq k v best : map_get k (map_set k v best) = Some v.
Proof.
  induction best as [|[k' v'] best IH]; simpl.
  - by rewrite String.eqb_refl.
  - destruct (String.eqb k' k) eqn:E; simpl; rewrite E; [done|exact IH].
Qed.

Lemma map_get_set_ne k k' v best :
  k ≠ k' → map_get k' (map_set k v best) = map_get k' best.
Proof.
  intros Hne. induction best as [|[k2 v2] best IH]; simpl.
  - destruct (String.eqb_spec k k'); [done|reflexivity].
  - destruct (String.eqb_spec k2 k) as [->|Hk2]; simpl.
    + destruct (String.eqb_spec k k'); [done|reflexivity].
    + destruct (String.eqb_spec k2 k'); [reflexivity|exact IH].
Qed.

Lemma map_get_elem_of k v best : map_get k best = Some v → (k, v) ∈ best.
Proof.
  induction best as [|[k' v'] best IH]; simpl; [done|].
  destruct (String.eqb_spec k' k) as [->|Hne].
  - intros [= ->]. left.
  - intros H. right. by apply IH.
Qed.

Lemma map_get_None k best : map_get k best = None → k ∉ best.*1.
Proof.
  induction best as [|[k' v'] best IH]; simpl; [by intros _ ?%elem_of_nil|].
  destruct (String.eqb_spec k' k) as [->|Hne]; [done|].
  intros H [->|Hin]%elem_of_cons; [done|]. by apply IH.
Qed.

Lemma elem_of_map_get k v best : NoDup best.*1 → (k, v) ∈ best → map_get k best = Some v.
Proof.
  induction best as [|[k' v'] best IH]; simpl; [by intros _ ?%elem_of_nil|].
  intros [Hnin Hnd]%NoDup_cons [[= -> ->]|Hin]%elem_of_cons.
  - by rewrite String.eqb_refl.
  - destruct (String.eqb_spec k' k) as [->|Hne]; [|by apply IH].
    exfalso. apply Hnin. apply list_elem_of_fmap. by exists (k, v).
Qed.

Lemma map_set_keys k v best :
  (map_set k v best).*1 = if bool_decide (k ∈ best.*1) then best.*1 else best.*1 ++ [k].
Proof.
  induction best as [|[k' v'] best IH]; [done|].
  cbn [map_set]. destruct (String.eqb_spec k' k) as [->|Hne]; rewrite !fmap_cons; cbn [fst].
  - rewrite bool_decide_eq_true_2; [done|left].
  - rewrite IH. destruct (decide (k ∈ best.*1)) as [Hin|Hnin].
    + rewrite !bool_decide_eq_true_2; [done|by right|done].
    + rewrite !bool_decide_eq_false_2; [done| |done].
      intros [->|?]%elem_of_cons; done.
Qed.

Lemma map_set_NoDup k v best : NoDup best.*1 → NoDup (map_set k v best).*1.
Proof.
  intros Hnd. rewrite map_set_keys. case_bool_decide as Hin; [done|].
  apply NoDup_app. split; [done|]. split; [|apply NoDup_singleton].
  intros x Hx Hk%list_elem_of_singleton. by subst.
Qed.

Lemma elem_of_snoc {A} (x y : A) (l : list A) : x ∈ l ++ [y] → x ∈ l ∨ x = y.
Proof.
  rewrite elem_of_app, list_elem_of_singleton. tauto.
Qed.

Lemma comparable_subseteq (l l' : list num) : l ⊆ l' → comparable l' → comparable l.
Proof.
  intros Hsub [H1 H2 H3 H4 H5]. split; intros; eauto.
Qed.

Lemma merged_upto_nil : merged_upto [] [].
Proof. split; [constructor|done|by intros _ ? ?%elem_of_nil]. Qed.

Lemma merged_upto_keepBest processed best r :
  merged_upto processed best →
  merged_upto (processed ++ [r]) (keepBest best r).
Proof.
  intros [Hnd Hfrom Hbest].
  assert (Hset_from : ∀ k v, map_get k (map_set (sr_path r) r best) = Some v →
            sr_path v = k ∧ v ∈ processed ++ [r]).
  { intros k v. destruct (decide (sr_path r = k)) as [<-|Hne].
    - rewrite map_get_set_eq. intros [= <-]. split; [done|].
      apply elem_of_app. right. left.
    - rewrite map_get_set_ne by done. intros Hk.
      destruct (Hfrom _ _ Hk). split; [done|]. apply elem_of_app. by left. }
  assert (Hkeep_from : ∀ k v, map_get k best = Some v →
            sr_path v = k ∧ v ∈ processed ++ [r]).
  { intros k v Hk. destruct (Hfrom _ _ Hk). split; [done|].
    apply elem_of_app. by left. }
  assert (Hfacts : comparable (score <$> processed ++ [r]) →
            comparable (score <$> processed)
            ∧ (∀ m, m ∈ processed ++ [r] → score m ∈ score <$> processed ++ [r])
            ∧ num_ltb (score r) (score r) = false).
  { intros Hcmp.
    assert (Hsc : ∀ m, m ∈ processed ++ [r] → score m ∈ score <$> processed ++ [r])
      by (intros; by apply list_elem_of_fmap_2).
    assert (Hr : r ∈ processed ++ [r]) by (apply elem_of_app; right; left).
    split; [|split; [exact Hsc|]].
    - eapply comparable_subseteq; [|exact Hcmp].
      rewrite fmap_app. intros x Hx. apply elem_of_app. by left.
    - destruct (num_ltb (score r) (score r)) eqn:E; [|done].
      by rewrite (cmp_asym _ Hcmp _ _ (Hsc _ Hr) (Hsc _ Hr) E) in E. }
  unfold keepBest.
  destruct (map_get (sr_path r) best) as [existing|] eqn:Hget.
  - destruct (Hfrom _ _ Hget) as [Hpath Hex].
    unfold num_gtb. destruct (num_ltb (score existing) (score r)) eqn:Hlt.
    + split; [by apply map_set_NoDup|exact Hset_from|].
      intros Hcmp. destruct (Hfacts Hcmp) as (Hcmp0 & Hsc & Hirr).
      intros m [Hm| ->]%elem_of_snoc.
      * destruct (decide (sr_path r = sr_path m)) as [Heq|Hne].
        -- rewrite <- Heq, map_get_set_eq. exists r. split; [done|].
           destruct (Hbest Hcmp0 m Hm) as (v & Hv & Hvm).
           rewrite <- Heq, Hget in Hv.
           assert (v = existing) as -> by congruence.
           destruct (num_ltb (score r) (score m)) eqn:Hrm; [|done].
           rewrite (cmp_lt_trans _ Hcmp (score existing) (score r) (score m)) in Hvm;
             try done; apply Hsc; rewrite elem_of_app, list_elem_of_singleton; auto.
        -- rewrite map_get_set_ne by done. by apply Hbest.
      * rewrite map_get_set_eq. by exists r.
    + split; [done|exact Hkeep_from|].
      intros Hcmp. destruct (Hfacts Hcmp) as (Hcmp0 & Hsc & Hirr).
      intros m [Hm| ->]%elem_of_snoc; [by apply Hbest|].
      by exists existing.
  - split; [by apply map_set_NoDup|exact Hset_from|].
    intros Hcmp. destruct (Hfacts Hcmp) as (Hcmp0 & Hsc & Hirr).
    intros m [Hm| ->]%elem_of_snoc.
    + destruct (Hbest Hcmp0 m Hm) as (v & Hv & Hvm).
      destruct (decide (sr_path r = sr_path m)) as [Heq|Hne].
      * rewrite <- Heq, Hget in Hv. done.
      * rewrite map_get_set_ne by done. by exists v.
    + rewrite map_get_set_eq. by exists r.
Qed.

Lemma merged_upto_fold rest :
  ∀ processed best,
    merged_upto processed best →
    merged_upto (processed ++ rest) (fold_left keepBest rest best).
Proof.
  induction rest as [|r rest IH]; intros processed best Hmu; simpl.
  - by rewrite app_nil_r.
  - rewrite (cons_middle r processed rest), app_assoc.
    apply IH. by apply merged_upto_keepBest.
Qed.

(** ** The sort *)

Lemma insert_sorted_Permutation r l : insert_sorted r l ≡ₚ r :: l.
Proof.
  induction l as [|y l IH]; simpl; [done|].
  case_match; [|done]. rewrite IH. apply Permutation_swap.
Qed.

Lemma sortByScore_Permutation l : sortByScore l ≡ₚ l.
Proof.
  induction l as [|x l IH]; simpl; [done|].
  rewrite insert_sorted_Permutation. by rewrite IH.
Qed.

Lemma insert_sorted_StronglySorted (scores : list num) r l :
  comparable scores → score r ∈ scores → Forall (λ m, score m ∈ scores) l →
  StronglySorted before l → StronglySorted before (insert_sorted r l).
Proof.
  intros Hcmp Hr Hl Hs. induction Hs as [|y l Hsl IH Hy]; simpl.
  - repeat constructor.
  - apply Forall_cons in Hl as [Hys Hl].
    unfold num_gtb, compareFn. rewrite (cmp_sub _ Hcmp) by done.
    destruct (num_ltb (score r) (score y)) eqn:Hlt.
    + constructor; [by apply IH|].
      rewrite insert_sorted_Permutation. constructor; [|done].
      unfold before. rewrite (cmp_total _ Hcmp) by done.
      by rewrite (cmp_asym _ Hcmp _ _ Hr Hys Hlt).
    + assert (Hry : before r y).
      { unfold before. rewrite (cmp_total _ Hcmp) by done. by rewrite Hlt. }
      constructor; [by constructor|]. constructor; [done|].
      rewrite Forall_forall in Hy, Hl. apply Forall_forall. intros z Hz.
      unfold before in *.
      apply (cmp_le_trans _ Hcmp (score z) (score y) (score r)); auto.
Qed.

Lemma sortByScore_StronglySorted (scores : list num) l :
  comparable scores → Forall (λ m, score m ∈ scores) l →
  StronglySorted before (sortByScore l).
Proof.
  intros Hcmp. induction l as [|x l IH]; simpl; intros Hl; [constructor|].
  apply Forall_cons in Hl as [Hx Hl].
  apply (insert_sorted_StronglySorted scores); [done|done| |by apply IH].
  by rewrite sortByScore_Permutation.
Qed.

Lemma StronglySorted_sublist {A} (R : relation A) l1 l2 :
  l1 `sublist_of` l2 → StronglySorted R l2 → StronglySorted R l1.
Proof.
  induction 1 as [|x l1 l2 Hsub IH|x l1 l2 Hsub IH]; intros Hs; [done| |].
  - apply StronglySorted_inv in Hs as [Hs Hx]. constructor; [by apply IH|].
    apply Forall_forall. intros y Hy. rewrite Forall_forall in Hx.
    apply Hx. by eapply elem_of_sublist.
  - apply StronglySorted_inv in Hs as [Hs _]. by apply IH.
Qed.

Lemma StronglySorted_descending l : StronglySorted before l → descending l.
Proof.
  induction 1 as [|x l Hs IH Hx]; intros i j a b Hij Hi Hj.
  - by rewrite lookup_nil in Hi.
  - destruct j as [|j]; [lia|]. simpl in Hj. destruct i as [|i]; simpl in Hi.
    + assert (x = a) as -> by congruence. rewrite Forall_forall in Hx. apply Hx.
      by eapply list_elem_of_lookup_2.
    + apply (IH i j); [lia|done|done].
Qed.

Lemma rank_sublist k minimum allResults :
  rank k minimum allResults
  `sublist_of` sortByScore (fold_left keepBest allResults []).*2.
Proof.
  unfold rank, slice_to.
  etrans; [case_match; apply sublist_take|].
  destruct minimum as [mn|]; [|done]. case_match; [|done]. apply sublist_filter.
Qed.

End SearchFacts.

Section SearchTheorem.
Context {num : Type} `{!Number num}.

Lemma merged_upto_paths processed (best : list (string * SearchResult num)) :
  merged_upto processed best → sr_path <$> best.*2 = best.*1.
Proof.
  intros [Hnd Hfrom _].
  assert (Hall : ∀ k v, (k, v) ∈ best → sr_path v = k).
  { intros k v Hin. by destruct (Hfrom k v (elem_of_map_get k v best Hnd Hin)). }
  clear Hnd Hfrom. induction best as [|[k v] best IH]; [done|].
  rewrite !fmap_cons. cbn [fst snd]. f_equal.
  - apply Hall. left.
  - apply IH. intros k' v' Hin. apply Hall. by right.
Qed.

(** The merge in any arithmetic: at most one result per path, each the match
    of its path in an enabled collection; when the scores are comparable, no
    match of the path has a higher score, and the list is in descending order
    of score. *)
Lemma searchByEmbedding_merge_comparable settings (d : EmbeddingDatabases num) q options allResults :
  collectResults settings d q (excludePath options) = Ok allResults →
  ∃ results,
    searchByEmbedding settings d q options = Ok results
    ∧ NoDup (sr_path <$> results)
    ∧ (∀ r, r ∈ results →
         stored_match settings d q (sr_path r) (source r) (score r))
    ∧ (comparable (score <$> allResults) →
       (∀ r src sc, r ∈ results →
          stored_match settings d q (sr_path r) src sc →
          num_leb sc (score r) = true)
       ∧ descending results).
Proof.
  intros Hall.
  set (k := default 5 (topK options)).
  set (minimum := Some (default num_zero (minScore options))).
  exists (rank k minimum allResults).
  split; [unfold searchByEmbedding, findSimilar; by rewrite Hall|].
  pose proof (merged_upto_fold allResults [] [] merged_upto_nil) as Hmu.
  rewrite app_nil_l in Hmu.
  pose proof (rank_sublist k minimum allResults) as Hsub.
  set (best := fold_left keepBest allResults []) in *.
  destruct (collectResults_Ok _ _ _ _ _ Hall) as [Hfrom Hto].
  assert (Hmerged : ∀ r, r ∈ best.*2 →
            map_get (sr_path r) best = Some r ∧ r ∈ allResults).
  { intros r ([k' r'] & -> & Hin)%list_elem_of_fmap. simpl.
    pose proof (elem_of_map_get k' r' best (mu_nodup _ _ Hmu) Hin) as Hget.
    destruct (mu_from _ _ Hmu k' r' Hget) as [-> ?]. done. }
  assert (Hin_sorted : ∀ r, r ∈ rank k minimum allResults → r ∈ best.*2).
  { intros r Hr. rewrite <- (sortByScore_Permutation best.*2).
    by eapply elem_of_sublist. }
  split; [|split; [|intros Hcmp; split]].
  - eapply sublist_NoDup; [|exact (fmap_sublist sr_path _ _ Hsub)].
    rewrite sortByScore_Permutation, (merged_upto_paths _ _ Hmu).
    apply (mu_nodup _ _ Hmu).
  - intros r Hr. destruct (Hmerged r (Hin_sorted r Hr)) as [_ Hrall].
    by destruct (Hfrom r Hrall).
  - intros r src sc Hr Hm.
    destruct (Hmerged r (Hin_sorted r Hr)) as [Hget Hrall].
    destruct (Hfrom r Hrall) as [Hex _].
    destruct (Hto _ _ _ Hex Hm) as (m & Hmall & Hpath & _ & Hsc).
    destruct (mu_best _ _ Hmu Hcmp m Hmall) as (v & Hv & Hvm).
    rewrite Hpath, Hget in Hv. assert (v = r) as -> by congruence.
    rewrite (cmp_total _ Hcmp sc (score r)).
    + by rewrite <- Hsc, Hvm.
    + rewrite <- Hsc. by apply list_elem_of_fmap_2.
    + by apply list_elem_of_fmap_2.
  - apply StronglySorted_descending.
    eapply StronglySorted_sublist; [exact Hsub|].
    apply (sortByScore_StronglySorted (score <$> allResults)); [done|].
    apply Forall_forall. intros m Hm. apply list_elem_of_fmap_2.
    by destruct (Hmerged m Hm).
Qed.

End SearchTheorem.

(** * The order of doubles *)

Lemma SFcompare_key x y :
  x ≠ S754_nan → y ≠ S754_nan → SFcompare x y = Some (lex3 (sf_key x) (sf_key y)).
Proof.
  intros Hx Hy.
  destruct x as [sx|sx| |sx mx ex], y as [sy|sy| |sy my ey]; try done;
    try (destruct sx; try destruct sy; reflexivity);
    try (destruct sy; reflexivity).
  destruct sx, sy; try reflexivity; unfold lex3; cbn.
  rewrite Z.compare_opp, (Z.compare_antisym ex ey).
  destruct (ex ?= ey); reflexivity.
Qed.

Lemma lex3_Lt a b : lex3 a b = Lt ↔
  a.1.1 < b.1.1 ∨ (a.1.1 = b.1.1 ∧ (a.1.2 < b.1.2 ∨ (a.1.2 = b.1.2 ∧ a.2 < b.2))).
Proof.
  destruct a as [[a1 a2] a3], b as [[b1 b2] b3]. unfold lex3. cbn [fst snd].
  destruct (Z.compare_spec a1 b1); [|split; [lia|done]|split; [done|lia]].
  destruct (Z.compare_spec a2 b2); [|split; [lia|done]|split; [done|lia]].
  destruct (Z.compare_spec a3 b3); split; done || lia.
Qed.

Lemma lex3_Gt a b : lex3 a b = Gt ↔ lex3 b a = Lt.
Proof.
  rewrite lex3_Lt.
  destruct a as [[a1 a2] a3], b as [[b1 b2] b3]. unfold lex3. cbn [fst snd].
  destruct (Z.compare_spec a1 b1); [|split; [done|lia]|split; [lia|done]].
  destruct (Z.compare_spec a2 b2); [|split; [done|lia]|split; [lia|done]].
  destruct (Z.compare_spec a3 b3); split; done || lia.
Qed.

Lemma not_nan_Prim2SF x : not_nan x → Prim2SF x ≠ S754_nan.
Proof.
  unfold not_nan, PrimFloat.is_nan. rewrite FloatAxioms.eqb_spec. intros H Hn.
  rewrite Hn in H. done.
Qed.

Lemma ltb_key x y : not_nan x → not_nan y →
  PrimFloat.ltb x y = true ↔ lex3 (sf_key (Prim2SF x)) (sf_key (Prim2SF y)) = Lt.
Proof.
  intros Hx%not_nan_Prim2SF Hy%not_nan_Prim2SF.
  rewrite FloatAxioms.ltb_spec. unfold SFltb. rewrite SFcompare_key by done.
  destruct (lex3 _ _); split; done.
Qed.

Lemma leb_key x y : not_nan x → not_nan y →
  PrimFloat.leb x y = true ↔ lex3 (sf_key (Prim2SF x)) (sf_key (Prim2SF y)) ≠ Gt.
Proof.
  intros Hx%not_nan_Prim2SF Hy%not_nan_Prim2SF.
  rewrite FloatAxioms.leb_spec. unfold SFleb. rewrite SFcompare_key by done.
  destruct (lex3 _ _); split; done.
Qed.

Lemma double_leb_total x y : not_nan x → not_nan y →
  PrimFloat.leb x y = negb (PrimFloat.ltb y x).
Proof.
  intros Hx Hy. apply eq_true_iff_eq. rewrite negb_true_iff, <- not_true_iff_false.
  rewrite leb_key, ltb_key, lex3_Gt by done. done.
Qed.

Lemma double_ltb_asym x y : not_nan x → not_nan y →
  PrimFloat.ltb x y = true → PrimFloat.ltb y x = false.
Proof.
  intros Hx Hy. rewrite <- not_true_iff_false, !ltb_key, !lex3_Lt by done. lia.
Qed.

Lemma double_ltb_trans x y z : not_nan x → not_nan y → not_nan z →
  PrimFloat.ltb x y = true → PrimFloat.ltb y z = true → PrimFloat.ltb x z = true.
Proof.
  intros Hx Hy Hz. rewrite !ltb_key, !lex3_Lt by done. lia.
Qed.

Lemma double_leb_trans x y z : not_nan x → not_nan y → not_nan z →
  PrimFloat.leb x y = true → PrimFloat.leb y z = true → PrimFloat.leb x z = true.
Proof.
  intros Hx Hy Hz. rewrite !leb_key, !lex3_Gt, !lex3_Lt by done. lia.
Qed.

(** ** The sign of a difference of doubles *)

Lemma digits2_pos_bounds m :
  2 ^ (Zpos (digits2_pos m) - 1) ≤ Zpos m < 2 ^ Zpos (digits2_pos m).
Proof.
  induction m as [m IH|m IH|]; cbn [digits2_pos].
  - rewrite Pos2Z.inj_succ. replace (Z.succ (Zpos (digits2_pos m)) - 1)
      with (Z.succ (Zpos (digits2_pos m) - 1)) by lia.
    rewrite !Z.pow_succ_r by lia. lia.
  - rewrite Pos2Z.inj_succ. replace (Z.succ (Zpos (digits2_pos m)) - 1)
      with (Z.succ (Zpos (digits2_pos m) - 1)) by lia.
    rewrite !Z.pow_succ_r by lia. lia.
  - simpl. lia.
Qed.

Lemma fexp_double x : SpecFloat.fexp prec emax x = Z.max (x - 53) (-1074).
Proof. reflexivity. Qed.

(** What validity says of a finite double. *)
Lemma valid_finite s m e :
  valid_binary (S754_finite s m e) = true →
  -1074 ≤ e ∧ Zpos (digits2_pos m) ≤ 53
  ∧ (-1074 < e → Zpos (digits2_pos m) = 53).
Proof.
  unfold SpecFloat.valid_binary, SpecFloat.bounded, SpecFloat.canonical_mantissa.
  rewrite fexp_double. intros [Hc _]%andb_true_iff. apply Z.eqb_eq in Hc. lia.
Qed.

Lemma iter_xO m d : Zpos (Pos.iter xO m d) = Zpos m * 2 ^ Zpos d.
Proof.
  induction d as [|d IH] using Pos.peano_ind.
  - simpl. lia.
  - rewrite Pos.iter_succ, Pos2Z.inj_succ, Z.pow_succ_r by lia.
    rewrite Pos2Z.inj_xO, IH. lia.
Qed.

Lemma shl_align_value m e ez :
  ez ≤ e → Zpos (shl_align m e ez).1 = Zpos m * 2 ^ (e - ez).
Proof.
  intros Hle. unfold shl_align.
  destruct (ez - e) as [|d|d] eqn:Hd; cbn [fst].
  - replace (e - ez) with 0 by lia. simpl. lia.
  - lia.
  - rewrite iter_xO. f_equal. f_equal. lia.
Qed.

Lemma iter_pos_nat {A} (f : A → A) p x :
  SpecFloat.iter_pos f p x = Nat.iter (Pos.to_nat p) f x.
Proof.
  revert x. induction p as [p IH|p IH|]; intros x; cbn [SpecFloat.iter_pos].
  - rewrite !IH, Pos2Nat.inj_xI.
    replace (S (2 * Pos.to_nat p)) with (Pos.to_nat p + S (Pos.to_nat p))%nat by lia.
    rewrite Nat.iter_add, Nat.iter_succ_r. reflexivity.
  - rewrite !IH, Pos2Nat.inj_xO.
    replace (2 * Pos.to_nat p)%nat with (Pos.to_nat p + Pos.to_nat p)%nat by lia.
    rewrite Nat.iter_add. reflexivity.
  - reflexivity.
Qed.

(** Shifting a positive mantissa right by fewer places than it has digits
    leaves a positive mantissa. *)
Lemma shr_1_iter_pos k :
  ∀ m r s, (Z.of_nat k < Zpos (digits2_pos m)) →
    ∃ m' r' s',
      Nat.iter k shr_1 {| shr_m := Zpos m; shr_r := r; shr_s := s |}
      = {| shr_m := Zpos m'; shr_r := r'; shr_s := s' |}
      ∧ Zpos (digits2_pos m') = Zpos (digits2_pos m) - Z.of_nat k.
Proof.
  induction k as [|k IH]; intros m r s Hk.
  - exists m, r, s. split; [reflexivity|lia].
  - destruct (IH m r s) as (m1 & r1 & s1 & Hit & Hd); [lia|].
    rewrite Nat.iter_succ, Hit. cbn [shr_1].
    destruct m1 as [p|p|]; cbn [digits2_pos] in Hd.
    + exists p, true, (r1 || s1). split; [reflexivity|]. lia.
    + exists p, false, (r1 || s1). split; [reflexivity|]. lia.
    + lia.
Qed.

Lemma shr_fexp_pos m e l :
  -1074 ≤ e →
  ∃ m' r' s' e',
    shr_fexp prec emax (Zpos m) e l
    = ({| shr_m := Zpos m'; shr_r := r'; shr_s := s' |}, e')
    ∧ -1074 ≤ e'.
Proof.
  intros He. unfold shr_fexp, shr. rewrite fexp_double. cbn [Zdigits2].
  destruct (shr_record_of_loc (Zpos m) l) as [m0 r0 s0] eqn:Hrec.
  assert (m0 = Zpos m) as ->.
  { destruct l as [|[]]; cbn in Hrec; congruence. }
  destruct (Z.max (Zpos (digits2_pos m) + e - 53) (-1074) - e) as [|p|p] eqn:Hn.
  - by exists m, r0, s0, e.
  - rewrite iter_pos_nat.
    destruct (shr_1_iter_pos (Pos.to_nat p) m r0 s0) as (m' & r' & s' & Hit & _).
    { rewrite positive_nat_Z. lia. }
    rewrite Hit. exists m', r', s', (e + Zpos p). split; [reflexivity|lia].
  - by exists m, r0, s0, e.
Qed.

Lemma round_nearest_even_pos m l : ∃ m', round_nearest_even (Zpos m) l = Zpos m'.
Proof.
  destruct l as [|[]]; cbn [round_nearest_even]; eauto.
  - destruct (Z.even (Zpos m)); eauto.
Qed.

(** Rounding keeps the sign, and a positive mantissa at an exponent of at
    least [emin] does not round to zero. *)
Lemma binary_round_aux_pos m e l :
  -1074 ≤ e →
  (∃ m' e', binary_round_aux prec emax false (Zpos m) e l = S754_finite false m' e')
  ∨ binary_round_aux prec emax false (Zpos m) e l = S754_infinity false.
Proof.
  intros He. unfold binary_round_aux.
  destruct (shr_fexp_pos m e l He) as (m1 & r1 & s1 & e1 & -> & He1).
  cbn [shr_m].
  destruct (round_nearest_even_pos m1
              (loc_of_shr_record {| shr_m := Zpos m1; shr_r := r1; shr_s := s1 |}))
    as (m2 & ->).
  destruct (shr_fexp_pos m2 e1 loc_Exact He1) as (m3 & r3 & s3 & e3 & -> & He3).
  cbn [shr_m]. case_match; eauto.
Qed.

Lemma binary_round_aux_sign s m e l :
  match binary_round_aux prec emax s m e l with
  | S754_zero s' | S754_infinity s' | S754_finite s' _ _ => s' = s
  | S754_nan => True
  end.
Proof.
  unfold binary_round_aux.
  destruct (shr_fexp prec emax m e l) as [mrs' e'].
  destruct (shr_fexp prec emax _ e' loc_Exact) as [mrs'' e''].
  destruct (shr_m mrs''); [done| |done]. destruct (_ <=? _); done.
Qed.

Lemma binary_normalize_pos M e :
  0 < M → -1074 ≤ e →
  SFltb (S754_zero false) (binary_normalize prec emax M e false) = true.
Proof.
  intros HM He. destruct M as [|m|m]; [lia| |lia].
  cbn [binary_normalize]. unfold binary_round.
  destruct (shl_align m e _) as [mz ez] eqn:Halign.
  assert (Hez : -1074 ≤ ez).
  { unfold shl_align in Halign. rewrite fexp_double in Halign.
    destruct (Z.max _ _ - e) eqn:Hd; injection Halign as <- <-; lia. }
  destruct (binary_round_aux_pos mz ez loc_Exact Hez) as [(m' & e' & ->)| ->];
    reflexivity.
Qed.

Lemma binary_normalize_nonpos M e :
  M ≤ 0 →
  SFltb (S754_zero false) (binary_normalize prec emax M e false) = false.
Proof.
  intros HM. destruct M as [|m|m]; [reflexivity|lia|].
  cbn [binary_normalize]. unfold binary_round.
  destruct (shl_align m e _) as [mz ez].
  pose proof (binary_round_aux_sign true (Zpos mz) ez loc_Exact) as Hs.
  destruct (binary_round_aux _ _ _ _ _ _) as [s'|s'| |s' m' e']; subst; reflexivity.
Qed.

Lemma mantissa_range s m e :
  valid_binary (S754_finite s m e) = true →
  -1074 ≤ e ∧ Zpos m < 2 ^ 53 ∧ (-1074 < e → 2 ^ 52 ≤ Zpos m).
Proof.
  intros (He & Hd & Hn)%valid_finite.
  pose proof (digits2_pos_bounds m) as [Hlo Hhi].
  split; [done|]. split.
  - eapply Z.lt_le_trans; [exact Hhi|]. apply Z.pow_le_mono_r; lia.
  - intros Hlt. rewrite (Hn Hlt) in Hlo. exact Hlo.
Qed.

(** The sign of the difference of the aligned mantissas is the order of the
    two operands. *)
Lemma aligned_difference_sign sx mx ex sy my ey :
  valid_binary (S754_finite sx mx ex) = true →
  valid_binary (S754_finite sy my ey) = true →
  0 < cond_Zopp sy (Zpos (shl_align my ey (Z.min ey ex)).1)
      - cond_Zopp sx (Zpos (shl_align mx ex (Z.min ey ex)).1)
  ↔ lex3 (sf_key (S754_finite sx mx ex)) (sf_key (S754_finite sy my ey)) = Lt.
Proof.
  intros (Hex & Hxhi & Hxlo)%mantissa_range (Hey & Hyhi & Hylo)%mantissa_range.
  rewrite !shl_align_value by lia. rewrite lex3_Lt.
  change (2 ^ 53) with 9007199254740992 in *.
  change (2 ^ 52) with 4503599627370496 in *.
  destruct (Z.lt_trichotomy ex ey) as [Hlt|[->|Hgt]].
  - rewrite Z.min_r by lia. rewrite Z.sub_diag, Z.pow_0_r, Z.mul_1_r.
    assert (2 ≤ 2 ^ (ey - ex)).
    { change 2 with (2 ^ 1) at 1. apply Z.pow_le_mono_r; lia. }
    specialize (Hylo ltac:(lia)).
    destruct sx, sy; cbn [cond_Zopp sf_key fst snd]; nia.
  - rewrite Z.min_id, Z.sub_diag, Z.pow_0_r, !Z.mul_1_r.
    destruct sx, sy; cbn [cond_Zopp sf_key fst snd]; lia.
  - rewrite Z.min_l by lia. rewrite Z.sub_diag, Z.pow_0_r, Z.mul_1_r.
    assert (2 ≤ 2 ^ (ex - ey)).
    { change 2 with (2 ^ 1) at 1. apply Z.pow_le_mono_r; lia. }
    specialize (Hxlo ltac:(lia)).
    destruct sx, sy; cbn [cond_Zopp sf_key fst snd]; nia.
Qed.

Lemma SFltb_zero_key x :
  x ≠ S754_nan → SFltb (S754_zero false) x = true ↔ lex3 (0, 0, 0) (sf_key x) = Lt.
Proof.
  intros Hx. unfold SFltb. rewrite SFcompare_key by done.
  change (sf_key (S754_zero false)) with (0, 0, 0).
  destruct (lex3 _ _); split; done.
Qed.

Lemma SFsub_sign x y :
  valid_binary x = true → valid_binary y = true →
  SFltb (S754_zero false) (SFsub prec emax y x) = SFltb x y.
Proof.
  intros Vx Vy.
  destruct x as [[]|[]| |sx mx ex], y as [[]|[]| |sy my ey];
    try reflexivity; try (destruct sx; reflexivity).
  cbn [SFsub].
  pose proof (aligned_difference_sign sx mx ex sy my ey Vx Vy) as Hsign.
  apply mantissa_range in Vx as (Hex & _). apply mantissa_range in Vy as (Hey & _).
  change (IntDef.Z.min ey ex) with (Z.min ey ex).
  set (M := cond_Zopp sy _ - cond_Zopp sx _) in *.
  unfold SFltb at 2. rewrite SFcompare_key by done.
  destruct (decide (0 < M)) as [HM|HM].
  - rewrite binary_normalize_pos by lia. by rewrite (proj1 Hsign HM).
  - rewrite binary_normalize_nonpos by lia.
    destruct (lex3 _ _); [done| |done]. by destruct HM; apply Hsign.
Qed.

Lemma Prim2SF_zero : Prim2SF 0 = S754_zero false.
Proof. reflexivity. Qed.

Lemma double_sub_sign x y :
  PrimFloat.ltb 0 (PrimFloat.sub y x) = PrimFloat.ltb x y.
Proof.
  rewrite !FloatAxioms.ltb_spec, FloatAxioms.sub_spec, Prim2SF_zero.
  apply SFsub_sign; apply FloatAxioms.Prim2SF_valid.
Qed.

(** Doubles other than NaN are comparable. *)
Lemma double_comparable (l : list float) : Forall not_nan l → comparable l.
Proof.
  rewrite Forall_forall. intros Hl. split.
  - intros x y Hx Hy. apply double_leb_total; auto.
  - intros x y Hx Hy. apply double_ltb_asym; auto.
  - intros x y z Hx Hy Hz. apply double_ltb_trans; auto.
  - intros x y z Hx Hy Hz. apply double_leb_trans; auto.
  - intros x y _ _. apply double_sub_sign.
Qed.

(** C5 (as amended): on doubles, [searchByEmbedding] returns at most one
    result per path, and each result is a match of its path in an enabled
    collection, with that match's source; when no score is NaN, no match of
    the path has a higher score, and the list is in descending order of
    score. *)
Theorem searchByEmbedding_merge settings (d : EmbeddingDatabases float) q options
    allResults :
  collectResults settings d q (excludePath options) = Ok allResults →
  ∃ results,
    searchByEmbedding settings d q options = Ok results
    ∧ NoDup (sr_path <$> results)
    ∧ (∀ r, r ∈ results →
         stored_match settings d q (sr_path r) (source r) (score r))
    ∧ (Forall not_nan (score <$> allResults) →
       (∀ r src sc, r ∈ results →
          stored_match settings d q (sr_path r) src sc →
          num_leb sc (score r) = true)
       ∧ descending results).
Proof.
  intros Hall.
  destruct (searchByEmbedding_merge_comparable settings d q options allResults Hall)
    as (results & Hres & Hnd & Hmatch & Hcmp).
  exists results. split; [exact Hres|]. split; [exact Hnd|]. split; [exact Hmatch|].
  intros Hnan. apply Hcmp, double_comparable, Hnan.
Qed.

(** * Concrete runs *)

(** The scenario of the specification: the query [1, 0] against a title
    embedding [1, 0] and a content embedding [0, 1] of the same document. *)
Lemma searchByEmbedding_merge_witness :
  ∃ results,
    searchByEmbedding all_enabled sample_db [1; 0]%float sample_options = Ok results
    ∧ NoDup (sr_path <$> results)
    ∧ (∀ r, r ∈ results →
         stored_match all_enabled sample_db [1; 0]%float (sr_path r) (source r) (score r))
    ∧ (∀ r src sc, r ∈ results →
         stored_match all_enabled sample_db [1; 0]%float (sr_path r) src sc →
         num_leb sc (score r) = true)
    ∧ descending results.
Proof.
  destruct (searchByEmbedding_merge all_enabled sample_db [1; 0]%float sample_options
              sample_allResults) as (results & Hres & Hnd & Hmatch & Hcmp).
  - vm_compute. reflexivity.
  - exists results. split; [exact Hres|]. split; [exact Hnd|]. split; [exact Hmatch|].
    apply Hcmp. vm_compute. repeat constructor.
Defined.

(** C5 (as stated) fails when a score is NaN. The title of "a.md" is
    [2^600, 0], its content [1, 0] and the query [2^600, 0]: the title
    scores NaN (infinity divided by infinity), the content scores 0, and
    since [0 > NaN] is false the merge keeps the title match. The one result
    for the path carries NaN, which is not the higher of the two scores. *)
Lemma searchByEmbedding_keeps_nan_score :
  searchByEmbedding all_enabled nan_db [0x1p600; 0]%float no_options
  = Ok [ {| sr_path := "a.md"; score := nan; sr_title := "a"; excerpt := "a";
            source := src_title |} ]
  ∧ stored_match all_enabled nan_db [0x1p600; 0]%float "a.md" src_title nan
  ∧ stored_match all_enabled nan_db [0x1p600; 0]%float "a.md" src_content 0%float
  ∧ num_leb 0%float nan = false.
Proof.
  split; [vm_compute; reflexivity|]. split; [|split; [|reflexivity]].
  - split; [reflexivity|]. eexists. split; [vm_compute; reflexivity|].
    vm_compute. reflexivity.
  - split; [reflexivity|]. eexists. split; [vm_compute; reflexivity|].
    vm_compute. reflexivity.
Qed.

(** With [topK] 5 and [minScore] 0.5 the one result is the title match. *)
Example searchByEmbedding_title_wins :
  searchByEmbedding all_enabled sample_db [1; 0]%float sample_options
  = Ok [ {| sr_path := "a.md"; score := 1%float; sr_title := "a"; excerpt := "a";
            source := src_title |} ].
Proof. vm_compute. reflexivity. Qed.

(** A lock whose heartbeat is 31 s old is released; one whose heartbeat is
    10 s old is kept. *)
Lemma load_stale_lock_recovery_witness :
  isIndexing (getIndexingState titles
    (db (load (restarted 1700000000000
           (Stored (locked_envelope "2.0.0" (Some 1699999969000))))))) = false
  ∧ isIndexing (getIndexingState titles
      (db (load (restarted 1700000000000
             (Stored (locked_envelope "2.0.0" (Some 1699999990000))))))) = true.
Proof.
  split.
  - apply (proj1 (load_stale_lock_recovery
             (restarted 1700000000000
                (Stored (locked_envelope "2.0.0" (Some 1699999969000))))
             (locked_envelope "2.0.0" (Some 1699999969000)) titles
             eq_refl eq_refl eq_refl)); reflexivity.
  - apply (proj1 (proj2 (load_stale_lock_recovery
             (restarted 1700000000000
                (Stored (locked_envelope "2.0.0" (Some 1699999990000))))
             (locked_envelope "2.0.0" (Some 1699999990000)) titles
             eq_refl eq_refl eq_refl))). simpl. lia.
Defined.

(** C3 (as stated) fails twice: a lock with heartbeat 0, which is more than
    30 s in the past, survives [load()]; and a lock with a heartbeat 10 s old
    in an envelope of version 1.0.0 is gone after [load()], which resets. *)
Lemma load_ignores_zero_heartbeat_and_resets_old_version :
  (30000 < 1700000000000 - 0
   ∧ isIndexing (getIndexingState titles (locked_envelope "2.0.0" (Some 0))) = true
   ∧ isIndexing (getIndexingState titles
       (db (load (restarted 1700000000000
              (Stored (locked_envelope "2.0.0" (Some 0))))))) = true)
  ∧ (1700000000000 - 1699999990000 = 10000
     ∧ isIndexing (getIndexingState titles
         (locked_envelope "1.0.0" (Some 1699999990000))) = true
     ∧ isIndexing (getIndexingState titles
         (db (load (restarted 1700000000000
                (Stored (locked_envelope "1.0.0" (Some 1699999990000))))))) = false).
Proof. repeat split. Qed.

(** "a.md" with current records in the three collections. *)
Lemma indexNote_unchanged_document_witness :
  let w := world_of indexed_db in
  let w' := indexNote (sample_host [note "a" 1]) all_enabled (note "a" 1) true w in
  embedCalls (trace w') = embedCalls (trace w)
  ∧ db_titles (db w') = db_titles (db w)
  ∧ db_headings (db w') = db_headings (db w)
  ∧ db_content (db w') = db_content (db w)
  ∧ w' = save w.
Proof.
  intros w w'.
  eapply (indexNote_unchanged_document (sample_host [note "a" 1]) all_enabled
            (note "a" 1) true w); reflexivity.
Defined.

(** C8 (as stated) fails: only titles are enabled and no title record exists
    for "a.md", but a current heading record does; [updateNoteIfNeeded]
    leaves the state as it is, where re-indexing would have changed it. *)
Lemma updateNoteIfNeeded_skips_unindexed_enabled_collection :
  let w := world_of headings_db in
  let host := sample_host [note "a" 1] in
  has_no_enabled_record titles_only (note "a" 1) (db w)
  ∧ updateNoteIfNeeded host titles_only (note "a" 1) w = w
  ∧ indexNote host titles_only (note "a" 1) true w ≠ w.
Proof.
  intros w host. split; [|split].
  - split; [reflexivity|split; discriminate].
  - vm_compute. reflexivity.
  - intros Heq. apply (f_equal (λ x, length (trace x))) in Heq.
    vm_compute in Heq. discriminate.
Qed.

(** An empty store triggers re-indexing; a store with current records in
    the three collections does not. *)
Lemma updateNoteIfNeeded_trigger_witness :
  let w := world_of (createEmptyDatabase 0) in
  let host := sample_host [note "a" 1] in
  updateNoteIfNeeded host titles_only (note "a" 1) w
  = indexNote host titles_only (note "a" 1) true w
  ∧ updateNoteIfNeeded host titles_only (note "a" 1) (world_of indexed_db)
    = world_of indexed_db.
Proof.
  intros w host. split.
  - apply (proj1 (updateNoteIfNeeded_trigger host titles_only (note "a" 1) w)).
    right. repeat split.
  - apply (proj2 (updateNoteIfNeeded_trigger host titles_only (note "a" 1)
                    (world_of indexed_db))).
    intros [[(t & Ht & Hne)|[(h & Hh & Hne)|(c & Hc & Hne)]]|(Ht & _)].
    + vm_compute in Ht. injection Ht as <-. by apply Hne.
    + vm_compute in Hh. injection Hh as <-. by apply Hne.
    + vm_compute in Hc. injection Hc as <-. by apply Hne.
    + vm_compute in Ht. discriminate.
Defined.

Section RestartRuns.
Import AIWorkerService.

(** C9 (as stated) fails: of four crashes within 6 s the second and third
    come less than 5 s after the restart scheduled by the first and are
    skipped without counting, so the fourth schedules a restart. *)
Lemma fourth_crash_schedules_restart :
  decisions ready_client
    [Crash 1700000000000; Crash 1700000001000; RestartTimer LoadFails;
     Crash 1700000002500; Crash 1700000006000]
  = [ScheduleRestart 2000; TooSoon; TooSoon; ScheduleRestart 4000].
Proof. reflexivity. Qed.

End RestartRuns.

(** C2 (not met by the code): the content parameters are chunk size 2, delay
    50 ms and save-every 5, but the loop writes the envelope only when the
    count of processed documents, which grows by 2, is a multiple of 5. Over
    six new documents it never writes (the first [EvWrite] below is the one
    that persisted the lock before the loop); over twelve it writes once,
    when ten are done. *)
Theorem content_pass_saves_every_ten :
  INDEXING_PARAMS content = {| chunkSize := 2; delayMs := 50; saveEvery := 5 |}
  (* six documents: the loop never writes the envelope *)
  ∧ (∃ w, indexAllContent (sample_host six_notes) six_notes None (started content six_notes)
          = Some w
          ∧ progress (getIndexingState content (db w)) = 6
          ∧ embedCalls (trace w) = 6%nat
          ∧ filter (λ e, is_embed e = false) (trace w)
            = [EvWrite; EvSleep 50; EvSleep 50; EvSleep 50]
          ∧ disk w = disk (started content six_notes))
  (* twelve documents: one write, when ten are done *)
  ∧ (∃ w, indexAllContent (sample_host twelve_notes) twelve_notes None
            (started content twelve_notes) = Some w
          ∧ filter (λ e, is_embed e = false) (trace w)
            = [EvWrite; EvSleep 50; EvSleep 50; EvSleep 50; EvSleep 50; EvSleep 50;
               EvWrite; EvIndexingUpdate content true 10 12; EvSleep 50]).
Proof.
  split; [reflexivity|]. split.
  - eexists. split; [vm_compute; reflexivity|]. repeat split.
  - eexists. split; [vm_compute; reflexivity|]. reflexivity.
Qed.

(** A content pass over six documents in which cancellation is requested
    during the first delay: the pass embeds the two documents of the first
    chunk, then completes. *)
Example cancelled_pass_trace :
  option_map (λ w, (trace w, getIndexingState content (db w)))
    (indexSpecificType (sample_host six_notes) content false
       (fresh_world 1000 [[]; [CancelRequest]]))
  = Some ([EvWrite; EvSleep 50; EvEmbed "a" passage; EvEmbed "b" passage;
           EvIndexingUpdate content true 2 6; EvWrite;
           EvIndexingUpdate content false 2 6; EvSettingsChanged],
          {| isIndexing := false; progress := 0; total := 0;
             lastIndexed := 1050; lastHeartbeat := Some 1050 |}).
Proof. vm_compute. reflexivity. Qed.

(** While a title pass holds the lock a heading pass is turned away; and a
    cancelled content pass ends in a state with at most one flag set. *)
Lemma indexing_lock_exclusive_witness :
  let host := sample_host six_notes in
  indexSpecificType host headings false (started titles six_notes)
  = Some (started titles six_notes)
  ∧ ∃ w', perform host all_enabled (OpIndexSpecificType content false)
            (fresh_world 1000 [[]; [CancelRequest]]) = Some w'
          ∧ exclusive w'.
Proof.
  intros host.
  destruct (indexing_lock_exclusive host all_enabled) as (Hreject & _ & Hop & Hinit).
  split.
  - apply Hreject. reflexivity.
  - destruct (perform host all_enabled (OpIndexSpecificType content false)
                (fresh_world 1000 [[]; [CancelRequest]])) as [w'|] eqn:Hrun.
    + exists w'. split; [reflexivity|].
      apply (Hop _ _ w' (Hinit 1000 (fresh_world 1000 [[]; [CancelRequest]])
                           eq_refl eq_refl) Hrun).
    + vm_compute in Hrun. discriminate.
Defined.

(** * The cosine on doubles *)

Section CosineFormula.
Context {num : Type} `{!Number num}.

(** The loop accumulates the three sums independently. *)
Lemma fold_accumulate_split (a b : list num) :
  ∀ d na nb, length a = length b →
    fold_left accumulate (combine a b) (d, na, nb)
    = (fold_left (λ acc xy, num_add acc (num_mul xy.1 xy.2)) (combine a b) d,
       fold_left (λ acc x, num_add acc (num_mul x x)) a na,
       fold_left (λ acc x, num_add acc (num_mul x x)) b nb).
Proof.
  revert b. induction a as [|x a IH]; intros [|y b] d na nb Hlen;
    simpl in Hlen; try discriminate; [reflexivity|].
  simpl. apply IH. congruence.
Qed.

Lemma cosineSimilarity_formula (a b : list num) :
  length a = length b →
  cosineSimilarity a b
  = Ok (let denominator := num_mul (computed_norm a) (computed_norm b) in
        if num_eqb denominator num_zero then num_zero
        else num_div (sum_products a b) denominator).
Proof.
  intros Hlen. unfold cosineSimilarity.
  rewrite Hlen, Nat.eqb_refl. cbn [negb].
  by rewrite fold_accumulate_split.
Qed.

Lemma cosineSimilarity_mismatch (a b : list num) :
  length a ≠ length b →
  cosineSimilarity a b = Throw "Vectors must have same length".
Proof.
  intros Hlen. unfold cosineSimilarity.
  by rewrite (proj2 (Nat.eqb_neq _ _) Hlen).
Qed.

End CosineFormula.

Lemma Prim2SF_infinity : Prim2SF infinity = S754_infinity false.
Proof. reflexivity. Qed.

Lemma is_zero_Prim2SF x : is_zero x = true → ∃ s, Prim2SF x = S754_zero s.
Proof.
  unfold is_zero. rewrite FloatAxioms.eqb_spec.
  change (Prim2SF zero) with (S754_zero false).
  destruct (Prim2SF x) as [s|s| |s m e]; [by exists s|..];
    try (destruct s); discriminate.
Qed.

Lemma is_finite_Prim2SF x :
  is_finite x = true →
  (∃ s, Prim2SF x = S754_zero s) ∨ (∃ s m e, Prim2SF x = S754_finite s m e).
Proof.
  unfold is_finite, is_nan, is_infinity.
  rewrite !FloatAxioms.eqb_spec, FloatAxioms.abs_spec, Prim2SF_infinity.
  destruct (Prim2SF x) as [s|s| |s m e]; [left; by exists s|..|right; by exists s, m, e];
    [destruct s|]; by vm_compute.
Qed.

(** Zero times a finite double is zero. *)
Lemma double_zero_mul x y :
  is_zero x = true → is_finite y = true →
  is_zero (x * y) = true ∧ is_zero (y * x) = true.
Proof.
  intros [sx Hx]%is_zero_Prim2SF Hy%is_finite_Prim2SF.
  unfold is_zero. rewrite !FloatAxioms.eqb_spec, !FloatAxioms.mul_spec, Hx.
  change (Prim2SF zero) with (S754_zero false).
  destruct Hy as [[sy ->]|(sy & m & e & ->)]; split; reflexivity.
Qed.

(** The square of a zero is +0. *)
Lemma double_zero_square x : is_zero x = true → (x * x)%float = 0%float.
Proof.
  intros [s Hx]%is_zero_Prim2SF. apply FloatAxioms.Prim2SF_inj.
  rewrite FloatAxioms.mul_spec, Hx. by destruct s.
Qed.

Lemma sum_squares_zeros (a : list float) :
  Forall (λ x, is_zero x = true) a → sum_squares a = 0%float.
Proof.
  unfold sum_squares. cbn [num_zero num_add num_mul double_Number].
  induction 1 as [|x a Hx _ IH]; [reflexivity|].
  simpl. rewrite (double_zero_square x Hx). exact IH.
Qed.

(** C6 (as amended): [cosineSimilarity] throws on vectors of different
    length and otherwise divides the sum of the products by the product of
    the two norms, unless that product equals zero, when it returns 0. In
    exact arithmetic the result lies in [-1, 1] when both norms are non-zero
    and is 0 when one of them is zero. On doubles the result is 0 when the
    norm computed for one vector is zero and the norm computed for the other
    is finite; a vector of zeros has the computed norm 0. *)
Theorem cosineSimilarity_bounds :
  (* vectors of different length *)
  (∀ a b : list float, length a ≠ length b →
     cosineSimilarity a b = Throw "Vectors must have same length")
  (* the formula, in the arithmetic of the code *)
  ∧ (∀ a b : list float, length a = length b →
       cosineSimilarity a b
       = Ok (let denominator := (computed_norm a * computed_norm b)%float in
             if (denominator =? 0)%float then 0%float
             else (sum_products a b / denominator)%float))
  (* exact arithmetic: the bounds and the zero case *)
  ∧ (∀ a b : list R, length a = length b →
       ∃ c, cosineSimilarity a b = Ok c
            ∧ (l2_norm a ≠ 0%R → l2_norm b ≠ 0%R →
               c = (dot_product a b / (l2_norm a * l2_norm b))%R
               ∧ (-1 <= c <= 1)%R)
            ∧ (l2_norm a = 0%R ∨ l2_norm b = 0%R → c = 0%R))
  (* doubles: the zero case *)
  ∧ (∀ a b : list float, length a = length b →
       (is_zero (computed_norm a) = true ∧ is_finite (computed_norm b) = true)
       ∨ (is_finite (computed_norm a) = true ∧ is_zero (computed_norm b) = true) →
       cosineSimilarity a b = Ok 0%float)
  ∧ (∀ a : list float,
       Forall (λ x, is_zero x = true) a → computed_norm a = 0%float).
Proof.
  split; [|split; [|split; [|split]]].
  - intros a b. apply cosineSimilarity_mismatch.
  - intros a b Hlen. exact (cosineSimilarity_formula a b Hlen).
  - intros a b. apply cosineSimilarity_real_bounds.
  - intros a b Hlen Hzero. rewrite cosineSimilarity_formula by exact Hlen.
    assert (Hden : (computed_norm a * computed_norm b =? 0)%float = true).
    { destruct Hzero as [[Ha Hb]|[Ha Hb]].
      - apply (double_zero_mul _ _ Ha Hb).
      - apply (double_zero_mul _ _ Hb Ha). }
    change (Ok (if (computed_norm a * computed_norm b =? 0)%float then 0%float
                else (sum_products a b
                      / (computed_norm a * computed_norm b))%float)
            = Ok 0%float).
    by rewrite Hden.
  - intros a Ha. unfold computed_norm. by rewrite sum_squares_zeros.
Qed.

(** A vector of zeros against [3, 4], whose computed norm is 5. *)
Lemma cosineSimilarity_bounds_witness :
  cosineSimilarity [0; -0]%float [3; 4]%float = Ok 0%float.
Proof.
  destruct cosineSimilarity_bounds as (_ & _ & _ & Hzero & Hnorm).
  apply Hzero; [reflexivity|]. left. split; [|reflexivity].
  rewrite Hnorm; [reflexivity|]. repeat constructor.
Defined.

(** C6 (as stated) fails on doubles. For a = b = [1, 1, 1] both norms are
    sqrt 3, their rounded product is 2.9999999999999996, and the quotient
    3 / 2.9999999999999996 rounds to 1.0000000000000002 > 1. For the vector of
    zeros against [2^600, 0] the norm computed for the second is infinite,
    the denominator 0 * infinity is NaN, and so is the result. For
    [2^-600, 0] against itself the squares underflow, both computed norms
    are zero, and the result is 0 although the vectors are not zero. *)
Lemma cosineSimilarity_double_leaves_bounds :
  (cosineSimilarity [1; 1; 1]%float [1; 1; 1]%float = Ok 0x1.0000000000001p+0%float
   ∧ is_zero (computed_norm [1; 1; 1]%float) = false
   ∧ PrimFloat.leb 0x1.0000000000001p+0 1 = false)
  ∧ (cosineSimilarity [0; 0]%float [0x1p600; 0]%float = Ok nan
     ∧ is_zero (computed_norm [0; 0]%float) = true
     ∧ is_finite (computed_norm [0x1p600; 0]%float) = false)
  ∧ (cosineSimilarity [0x1p-600; 0]%float [0x1p-600; 0]%float = Ok 0%float
     ∧ is_zero 0x1p-600 = false
     ∧ is_zero (computed_norm [0x1p-600; 0]%float) = true).
Proof. repeat split. Qed.

(** * The restart policy along a run *)

Section RestartBound.
Import AIWorkerService.

(** The three ways [handleWorkerError] ends. *)
Lemma handleWorkerError_cases now s :
  let attempts := if 60000 <? now - lastRestartTime s then 0 else restartAttempts s in
  let stopped (attempts last : Z) :=
    {| worker := worker s; isReady := false; pendingRequests := [];
       restartAttempts := attempts; lastRestartTime := last |} in
  (MAX_RESTART_ATTEMPTS <= attempts ∧ attempts = restartAttempts s
   ∧ handleWorkerError now s = (stopped attempts (lastRestartTime s), GiveUp))
  ∨ (attempts < MAX_RESTART_ATTEMPTS ∧ now - lastRestartTime s < MIN_RESTART_INTERVAL
     ∧ attempts = restartAttempts s
     ∧ handleWorkerError now s = (stopped attempts (lastRestartTime s), TooSoon))
  ∨ (attempts < MAX_RESTART_ATTEMPTS ∧ MIN_RESTART_INTERVAL <= now - lastRestartTime s
     ∧ handleWorkerError now s
       = (stopped (attempts + 1) now,
          ScheduleRestart (Z.min (2000 * 2 ^ attempts) 10000))).
Proof.
  cbv zeta. unfold handleWorkerError, MAX_RESTART_ATTEMPTS, MIN_RESTART_INTERVAL.
  destruct (60000 <? now - lastRestartTime s) eqn:Hquiet.
  - right. right. apply Z.ltb_lt in Hquiet. cbn [Z.leb Z.compare].
    destruct (now - lastRestartTime s <? 5000) eqn:Hsoon; [lia|].
    split; [lia|]. split; [lia|]. reflexivity.
  - apply Z.ltb_ge in Hquiet.
    destruct (3 <=? restartAttempts s) eqn:Hmax.
    + left. split; [lia|]. split; reflexivity.
    + right. destruct (now - lastRestartTime s <? 5000) eqn:Hsoon.
      * left. split; [lia|]. split; [lia|]. split; reflexivity.
      * right. split; [lia|]. split; [lia|]. reflexivity.
Qed.

Lemma initialize_kept o s : worker s = true → initialize o s = (Some (isReady s), s).
Proof. intros Hw. unfold initialize. by rewrite Hw. Qed.

(** A client that is not ready schedules its restarts at allowed times. *)
Lemma scheduled_allowed xs :
  ∀ s, worker s = true → isReady s = false → ReadyMessage ∉ xs →
    allowed (restartAttempts s) (lastRestartTime s) (scheduled s xs).
Proof.
  induction xs as [|x xs IH]; intros s Hw Hr Hno; [exact I|].
  assert (Hno' : ReadyMessage ∉ xs) by (intros Hin; apply Hno; by right).
  destruct x as [[now|o]| |o|ids].
  - cbn [scheduled action occur handle].
    pose proof (IH (handleWorkerError now s).1
                  ltac:(by rewrite handleWorkerError_worker)
                  (handleWorkerError_not_ready now s) Hno') as Hrest.
    destruct (handleWorkerError_cases now s)
      as [(_ & Ha & E)|[(_ & _ & Ha & E)|(Hlt & Hge & E)]];
      rewrite E in *; cbn [fst snd restartAttempts lastRestartTime] in *.
    + by rewrite Ha in Hrest |- *.
    + by rewrite Ha in Hrest |- *.
    + cbn [allowed]. auto.
  - cbn [scheduled action occur handle].
    rewrite restartCallback_stopped by assumption. by apply IH.
  - exfalso. apply Hno. by left.
  - cbn [scheduled action occur]. rewrite initialize_kept by assumption.
    by apply IH.
  - cbn [scheduled action occur]. by apply (IH (occur s (RequestsChange ids))).
Qed.

(** So does a client that is ready when the run begins. *)
Lemma scheduled_allowed_from xs :
  ∀ s, worker s = true → 0 <= restartAttempts s → ReadyMessage ∉ xs →
    ∃ attempts, 0 <= attempts
      ∧ allowed attempts (lastRestartTime s) (scheduled s xs).
Proof.
  induction xs as [|x xs IH]; intros s Hw Hnn Hno; [by exists 0|].
  assert (Hno' : ReadyMessage ∉ xs) by (intros Hin; apply Hno; by right).
  destruct x as [[now|o]| |o|ids].
  - cbn [scheduled action occur handle].
    pose proof (scheduled_allowed xs (handleWorkerError now s).1
                  ltac:(by rewrite handleWorkerError_worker)
                  (handleWorkerError_not_ready now s) Hno') as Hrest.
    exists (restartAttempts s). split; [exact Hnn|].
    destruct (handleWorkerError_cases now s)
      as [(_ & Ha & E)|[(_ & _ & Ha & E)|(Hlt & Hge & E)]];
      rewrite E in *; cbn [fst snd restartAttempts lastRestartTime] in *.
    + by rewrite Ha in Hrest |- *.
    + by rewrite Ha in Hrest |- *.
    + cbn [allowed]. auto.
  - cbn [scheduled action occur handle].
    assert (Hlast : lastRestartTime (restartCallback o s) = lastRestartTime s).
    { unfold restartCallback. rewrite initialize_kept by assumption.
      by destruct (isReady s). }
    rewrite <- Hlast.
    apply (IH (restartCallback o s)); [| |exact Hno'];
      unfold restartCallback; rewrite initialize_kept by assumption;
      destruct (isReady s); cbn; done.
  - exfalso. apply Hno. by left.
  - cbn [scheduled action occur]. rewrite initialize_kept by assumption.
    by apply IH.
  - cbn [scheduled action occur]. by apply (IH (occur s (RequestsChange ids))).
Qed.

(** Among allowed times the fourth comes more than 60 s after the first. *)
Lemma allowed_window pre r1 r2 r3 r4 post :
  ∀ attempts last, 0 <= attempts →
    allowed attempts last (pre ++ r1 :: r2 :: r3 :: r4 :: post) →
    60000 < r4 - r1.
Proof.
  unfold MAX_RESTART_ATTEMPTS, MIN_RESTART_INTERVAL.
  induction pre as [|r pre IH]; intros attempts last Hnn Hall.
  - cbn [app allowed] in Hall.
    unfold MAX_RESTART_ATTEMPTS, MIN_RESTART_INTERVAL in Hall.
    destruct Hall as (H1 & G1 & H2 & G2 & H3 & G3 & H4 & G4 & _).
    destruct (60000 <? r1 - last); destruct (Z.ltb_spec 60000 (r2 - r1));
      destruct (Z.ltb_spec 60000 (r3 - r2)); destruct (Z.ltb_spec 60000 (r4 - r3));
      lia.
  - cbn [app allowed] in Hall. destruct Hall as (_ & _ & Hall).
    apply (IH ((if 60000 <? r - last then 0 else attempts) + 1) r);
      [destruct (60000 <? r - last); lia|exact Hall].
Qed.

Lemma exhausted_occur s x :
  exhausted s → stays_stopped s x →
  exhausted (occur s x)
  ∧ lastRestartTime (occur s x) = lastRestartTime s
  ∧ (action s x = None ∨ action s x = Some GiveUp)
  ∧ ∀ xs, scheduled s (x :: xs) = scheduled (occur s x) xs.
Proof.
  intros Hex Hstay. destruct x as [e| |o|ids]; [| done | |].
  - destruct (exhausted_handle s e Hex Hstay) as [Hs Hgive].
    cbn [occur]. rewrite Hs. split; [by repeat split|]. split; [reflexivity|].
    destruct e as [now|o]; cbn [action scheduled]; rewrite ?(Hgive now eq_refl);
      (split; [auto|intros xs; cbn [occur]; by rewrite Hs]).
  - destruct Hex as (Hw & Hr & Ha). cbn [occur action scheduled].
    rewrite initialize_kept by assumption. by repeat split; auto.
  - destruct Hex as (Hw & Hr & Ha). cbn [occur action scheduled].
    by repeat split; auto.
Qed.

Lemma exhausted_run xs :
  ∀ s, exhausted s → Forall (stays_stopped s) xs →
    Forall (λ a, a = GiveUp) (actions s xs)
    ∧ scheduled s xs = []
    ∧ exhausted (fold_left occur xs s)
    ∧ lastRestartTime (fold_left occur xs s) = lastRestartTime s.
Proof.
  induction xs as [|x xs IH]; intros s Hex Hstay; [cbn; by auto|].
  inversion Hstay as [|? ? Hx Hxs]; subst.
  destruct (exhausted_occur s x Hex Hx) as (Hex' & Hlast & Hact & Hsched).
  assert (Hstay' : Forall (stays_stopped (occur s x)) xs).
  { eapply Forall_impl; [exact Hxs|].
    intros [[?|?]| | |]; cbn [stays_stopped within_window]; rewrite ?Hlast; done. }
  destruct (IH _ Hex' Hstay') as (Hgive & Hnone & Hex'' & Hlast'').
  split; [|split; [|split]].
  - cbn [actions]. destruct Hact as [-> | ->]; [exact Hgive|by constructor].
  - by rewrite Hsched.
  - exact Hex''.
  - cbn [fold_left]. congruence.
Qed.

(** A crash that finds attempts left, 5 s or more after the last restart
    that was scheduled. *)
Lemma handleWorkerError_schedules now s :
  worker s = true →
  let attempts := if 60000 <? now - lastRestartTime s then 0 else restartAttempts s in
  attempts < 3 → 5000 <= now - lastRestartTime s →
  handleWorkerError now s
  = ({| worker := true; isReady := false; pendingRequests := [];
        restartAttempts := attempts + 1; lastRestartTime := now |},
     ScheduleRestart (Z.min (2000 * 2 ^ attempts) 10000)).
Proof.
  intros Hw attempts Hlt Hge. subst attempts.
  destruct (handleWorkerError_cases now s)
    as [(Hmax & _)|[(_ & Hsoon & _)|(_ & _ & E)]];
    unfold MAX_RESTART_ATTEMPTS, MIN_RESTART_INTERVAL in *;
    [lia|lia|]. by rewrite E, Hw.
Qed.

(** The run up to its first crash: what comes before leaves the worker and
    the time of the last restart as they are, and the counter too when the
    client is not ready. *)
Lemma first_crash xs :
  ∀ s t rest,
    worker s = true → ReadyMessage ∉ xs → crashes xs = t :: rest →
    ∃ s1 xs',
      actions s xs = (handleWorkerError t s1).2 :: actions (handleWorkerError t s1).1 xs'
      ∧ crashes xs' = rest ∧ (ReadyMessage ∉ xs')
      ∧ worker s1 = true ∧ lastRestartTime s1 = lastRestartTime s
      ∧ (isReady s = false → restartAttempts s1 = restartAttempts s).
Proof.
  induction xs as [|x xs IH]; intros s t rest Hw Hno Hcr; [discriminate|].
  assert (Hno' : ReadyMessage ∉ xs) by (intros Hin; apply Hno; by right).
  destruct x as [[now|o]| |o|ids].
  - injection Hcr as <- <-. exists s, xs. by repeat split.
  - cbn [actions action occur handle]. cbn in Hcr.
    assert (Hcb : worker (restartCallback o s) = true
                  ∧ lastRestartTime (restartCallback o s) = lastRestartTime s)
      by (unfold restartCallback; rewrite initialize_kept by assumption;
          by destruct (isReady s)).
    destruct Hcb as [Hw' Hl'].
    destruct (IH (restartCallback o s) t rest Hw' Hno' Hcr)
      as (s1 & xs' & Hact & Hrest & Hnone & Hw1 & Hl1 & Ha1).
    exists s1, xs'. split; [exact Hact|]. split; [exact Hrest|].
    split; [exact Hnone|]. split; [exact Hw1|]. split; [congruence|].
    intros Hr. rewrite restartCallback_stopped in Ha1 by assumption. auto.
  - exfalso. apply Hno. by left.
  - cbn [actions action occur]. cbn in Hcr.
    rewrite initialize_kept by assumption. by apply IH.
  - cbn [actions action]. cbn in Hcr.
    destruct (IH (occur s (RequestsChange ids)) t rest Hw Hno' Hcr)
      as (s1 & xs' & Hact & Hrest & Hnone & Hw1 & Hl1 & Ha1).
    exists s1, xs'. by repeat split.
Qed.

Lemma no_crash xs : ∀ s, crashes xs = [] → actions s xs = [].
Proof.
  induction xs as [|x xs IH]; intros s Hcr; [done|].
  destruct x as [[now|o]| |o|ids]; [discriminate|..]; cbn [actions action];
    by apply IH.
Qed.

(** C9 (as amended): while the worker object is kept and no
    'transformers-loaded' message arrives, of any four restarts scheduled one
    after the other the fourth is scheduled more than 60 s after the first,
    whatever crashes, timers, calls of [initialize] and requests occur. Four
    crashes of which the first comes more than 60 s after the last scheduled
    restart, the second and third at least 5 s after the crash before, and
    the fourth within 60 s of the first get the delays 2 s, 4 s, 8 s and then
    no restart, whatever timers, calls and requests occur in between. Once
    the counter is at 3 and the client not ready, every crash within 60 s of
    the last scheduled restart and every restart timer, call of [initialize]
    and request leave the client not ready, the counter at 3 and nothing
    scheduled; a crash more than 60 s after the last scheduled restart
    schedules one with delay 2 s, a 'transformers-loaded' message makes the
    client ready, and [forceReset] zeroes the counter. A restart that is
    scheduled is delayed by min(2000 * 2^attempts, 10000) ms. *)
Theorem restart_bound :
  (* at most three restarts are scheduled within 60 s *)
  (∀ s xs pre r1 r2 r3 r4 post,
     worker s = true → 0 <= restartAttempts s → ReadyMessage ∉ xs →
     scheduled s xs = pre ++ r1 :: r2 :: r3 :: r4 :: post →
     60000 < r4 - r1)
  (* four crashes, each at least 5 s after the restart scheduled before it *)
  ∧ (∀ s xs t1 t2 t3 t4,
       worker s = true → ReadyMessage ∉ xs →
       crashes xs = [t1; t2; t3; t4] →
       60000 < t1 - lastRestartTime s →
       5000 <= t2 - t1 → 5000 <= t3 - t2 → t3 <= t4 → t4 - t1 <= 60000 →
       actions s xs
       = [ScheduleRestart 2000; ScheduleRestart 4000; ScheduleRestart 8000; GiveUp])
  (* once the counter is at 3 the client stays stopped *)
  ∧ (∀ s xs,
       exhausted s → Forall (stays_stopped s) xs →
       Forall (λ a, a = GiveUp) (actions s xs)
       ∧ scheduled s xs = []
       ∧ isReady (fold_left occur xs s) = false
       ∧ worker (fold_left occur xs s) = true
       ∧ restartAttempts (fold_left occur xs s) = MAX_RESTART_ATTEMPTS
       ∧ lastRestartTime (fold_left occur xs s) = lastRestartTime s)
  (* until a minute has passed since the last scheduled restart *)
  ∧ (∀ s now,
       exhausted s → 60000 < now - lastRestartTime s →
       snd (handleWorkerError now s) = ScheduleRestart 2000)
  (* or the worker reports the model loaded *)
  ∧ (∀ s o,
       exhausted s →
       isWorkerReady (occur s ReadyMessage) = true
       ∧ restartAttempts (restartCallback o (occur s ReadyMessage)) = 0)
  (* or forceReset, which zeroes the counter *)
  ∧ (∀ s o, restartAttempts (snd (forceReset o s)) = 0
            ∧ lastRestartTime (snd (forceReset o s)) = 0)
  (* the delay of every restart that is scheduled *)
  ∧ (∀ now s d,
       0 <= restartAttempts s →
       snd (handleWorkerError now s) = ScheduleRestart d →
       let attempts := restartAttempts (fst (handleWorkerError now s)) - 1 in
       d = Z.min (2000 * 2 ^ attempts) 10000 ∧ 0 <= attempts < 3).
Proof.
  split; [|split; [|split; [|split; [|split; [|split]]]]].
  - intros s xs pre r1 r2 r3 r4 post Hw Hnn Hno Hsched.
    destruct (scheduled_allowed_from xs s Hw Hnn Hno) as (attempts & Hge & Hall).
    rewrite Hsched in Hall. exact (allowed_window _ _ _ _ _ _ _ _ Hge Hall).
  - intros s xs t1 t2 t3 t4 Hw Hno Hcr H1 H2 H3 H34 H4.
    destruct (first_crash xs s t1 _ Hw Hno Hcr)
      as (s1 & xs1 & -> & Hcr1 & Hno1 & Hw1 & Hl1 & _).
    rewrite (handleWorkerError_schedules t1 s1 Hw1); rewrite Hl1;
      destruct (Z.ltb_spec 60000 (t1 - lastRestartTime s)); try lia.
    cbn [fst snd]. f_equal.
    match goal with |- context [actions ?st xs1] =>
      destruct (first_crash xs1 st t2 _ eq_refl Hno1 Hcr1)
        as (s2 & xs2 & -> & Hcr2 & Hno2 & Hw2 & Hl2 & Ha2) end.
    specialize (Ha2 eq_refl). cbn in Hl2, Ha2.
    rewrite (handleWorkerError_schedules t2 s2 Hw2); rewrite ?Hl2, ?Ha2;
      destruct (Z.ltb_spec 60000 (t2 - t1)); try lia.
    cbn [fst snd]. f_equal.
    match goal with |- context [actions ?st xs2] =>
      destruct (first_crash xs2 st t3 _ eq_refl Hno2 Hcr2)
        as (s3 & xs3 & -> & Hcr3 & Hno3 & Hw3 & Hl3 & Ha3) end.
    specialize (Ha3 eq_refl). cbn in Hl3, Ha3.
    rewrite (handleWorkerError_schedules t3 s3 Hw3); rewrite ?Hl3, ?Ha3;
      destruct (Z.ltb_spec 60000 (t3 - t2)); try lia.
    cbn [fst snd]. f_equal.
    match goal with |- context [actions ?st xs3] =>
      destruct (first_crash xs3 st t4 _ eq_refl Hno3 Hcr3)
        as (s4 & xs4 & -> & Hcr4 & Hno4 & Hw4 & Hl4 & Ha4) end.
    specialize (Ha4 eq_refl). cbn in Hl4, Ha4.
    rewrite (no_crash xs4 _ Hcr4).
    destruct (handleWorkerError_cases t4 s4)
      as [(_ & _ & E)|[(Hlt & _)|(Hlt & _)]];
      unfold MAX_RESTART_ATTEMPTS in *; rewrite ?Hl4, ?Ha4 in *;
      destruct (Z.ltb_spec 60000 (t4 - t3)); try lia.
    by rewrite E.
  - intros s xs Hex Hstay.
    destruct (exhausted_run xs s Hex Hstay) as (Hd & Hnone & (Hw & Hr & Ha) & Hl).
    auto 10.
  - intros s now (Hw & Hr & Ha) Hquiet.
    destruct (handleWorkerError_cases now s)
      as [(Hmax & _)|[(_ & Hsoon & _)|(_ & _ & E)]];
      unfold MAX_RESTART_ATTEMPTS, MIN_RESTART_INTERVAL in *.
    + destruct (60000 <? now - lastRestartTime s) eqn:E; lia.
    + lia.
    + rewrite E. cbn [snd].
      destruct (60000 <? now - lastRestartTime s) eqn:E'; [reflexivity|lia].
  - intros s o (Hw & Hr & Ha). unfold isWorkerReady, restartCallback, initialize.
    cbn. by rewrite Hw.
  - intros s o. unfold forceReset, initialize. cbn. by destruct o.
  - intros now s d Hnn. unfold handleWorkerError.
    destruct (60000 <? now - lastRestartTime s) eqn:E;
    repeat (case_match; cbn [fst snd restartAttempts]); try discriminate;
      intros [= <-]; unfold MAX_RESTART_ATTEMPTS in *;
      (split; [f_equal; f_equal; f_equal; lia | lia]).
Qed.

(** Of the four restarts scheduled along [crash_run] the fourth comes 70.001 s
    after the first; its first three crashes use up the attempts, and the
    crash at 60 s schedules nothing. *)
Lemma restart_bound_witness :
  60000 < 1700000070001 - 1700000000000
  ∧ actions ready_client (take 7 crash_run)
    = [ScheduleRestart 2000; ScheduleRestart 4000; ScheduleRestart 8000; GiveUp].
Proof.
  destruct restart_bound as (Hwindow & Hfour & _). split.
  - apply (Hwindow ready_client crash_run [] 1700000000000 1700000005000
             1700000010000 1700000070001 []); [reflexivity|simpl; lia| |reflexivity].
    unfold crash_run. intros Hin. apply list_elem_of_fmap in Hin as (e & He & _).
    discriminate.
  - apply (Hfour ready_client (take 7 crash_run) 1700000000000 1700000005000
             1700000010000 1700000060000);
      [reflexivity| |reflexivity|simpl; lia|lia|lia|lia|lia].
    cbn. intros Hin.
    repeat (apply elem_of_cons in Hin as [Hin|Hin]; [discriminate|]).
    by apply elem_of_nil in Hin.
Defined.

(** The 60 s are counted from the last restart that was scheduled, not from
    the last crash: with a crash every few seconds the client gives up at
    60 s, 65 s and 69 s and schedules a restart again at 70.001 s, 60.001 s
    after the restart scheduled at 10 s. *)
Example quiet_period_counts_from_last_restart :
  actions ready_client crash_run
  = [ScheduleRestart 2000; ScheduleRestart 4000; ScheduleRestart 8000;
     GiveUp; GiveUp; GiveUp; ScheduleRestart 2000]
  ∧ scheduled ready_client crash_run
    = [1700000000000; 1700000005000; 1700000010000; 1700000070001].
Proof. split; reflexivity. Qed.

(** A client that has given up becomes ready when the worker it kept reports
    the model loaded. *)
Example ready_message_revives :
  let s := fold_left occur (take 7 crash_run) ready_client in
  exhausted s
  ∧ action s (Happens (Crash 1700000015000)) = Some GiveUp
  ∧ isWorkerReady (occur s ReadyMessage) = true.
Proof. repeat split. Qed.

End RestartBound.

(** * Cancelling a pass *)

Section CancelledPass.
Context {num : Type}.
Variable host : Host num.
Implicit Types (w : World num) (type : IndexType).




























End CancelledPass.



(** * What a search returns *)

Section SearchResults.
Context {num : Type} `{!Number num}.
Implicit Types (r m : SearchResult num) (best : list (string * SearchResult num)).

Lemma slice_to_length {A} (k : Z) (l : list A) :
  0 ≤ k → Z.of_nat (length (slice_to k l)) ≤ k.
Proof.
  intros Hk. unfold slice_to. destruct (k <? 0) eqn:E; [lia|].
  rewrite length_take. lia.
Qed.

Lemma slice_to_all {A} (k : Z) (l : list A) :
  Z.of_nat (length l) ≤ k → slice_to k l = l.
Proof.
  intros Hk. unfold slice_to. destruct (k <? 0) eqn:E; [lia|].
  apply take_ge. lia.
Qed.

Lemma slice_to_sublist {A} (k : Z) (l : list A) : slice_to k l `sublist_of` l.
Proof. unfold slice_to. case_match; apply sublist_take. Qed.

Lemma searchByEmbedding_rank settings (d : EmbeddingDatabases num) q options results :
  searchByEmbedding settings d q options = Ok results →
  ∃ allResults,
    collectResults settings d q (excludePath options) = Ok allResults
    ∧ results = rank (default 5 (topK options))
                  (Some (default num_zero (minScore options))) allResults.
Proof.
  unfold searchByEmbedding, findSimilar.
  destruct (collectResults _ _ _ _) as [allResults|] eqn:Hall; simpl; [|done].
  intros [= <-]. by exists allResults.
Qed.

Lemma fold_keepBest_from rest best :
  ∀ v, v ∈ (fold_left keepBest rest best).*2 → v ∈ best.*2 ∨ v ∈ rest.
Proof.
  revert best. induction rest as [|r rest IH]; intros best v; simpl; [auto|].
  intros [Hv|Hv]%IH; [|right; by right].
  assert (Hset : v ∈ (map_set (sr_path r) r best).*2 → v ∈ best.*2 ∨ v = r).
  { clear. induction best as [|[k' v'] best IHb]; simpl.
    - intros ->%list_elem_of_singleton. by right.
    - destruct (String.eqb k' (sr_path r)); simpl.
      + intros [->|?]%elem_of_cons; [by right|left; by right].
      + intros [->|[?|?]%IHb]%elem_of_cons; [left; left|left; by right|by right]. }
  unfold keepBest in Hv. destruct (map_get _ _).
  - destruct (num_gtb _ _); [|by left].
    destruct (Hset Hv) as [?| ->]; [by left|right; left].
  - destruct (Hset Hv) as [?| ->]; [by left|right; left].
Qed.

Lemma rank_elem_of k minimum allResults r :
  r ∈ rank k minimum allResults → r ∈ allResults.
Proof.
  intros Hr.
  pose proof (rank_sublist k minimum allResults) as Hsub.
  eapply elem_of_sublist in Hr; [|exact Hsub].
  rewrite sortByScore_Permutation in Hr.
  destruct (fold_keepBest_from allResults [] r Hr) as [Hnil|]; [|done].
  by apply elem_of_nil in Hnil.
Qed.

(** A search returns at most [topK] results, five when the caller gives
    no [topK]. *)
Theorem searchByEmbedding_at_most_topK settings (d : EmbeddingDatabases num) q options
    results :
  searchByEmbedding settings d q options = Ok results →
  0 ≤ default 5 (topK options) →
  Z.of_nat (length results) ≤ default 5 (topK options).
Proof.
  intros (allResults & _ & ->)%searchByEmbedding_rank Hk.
  unfold rank. by apply slice_to_length.
Qed.

(** With a [minScore] above zero every result has a score of at least
    [minScore]. *)
Theorem searchByEmbedding_minScore settings (d : EmbeddingDatabases num) q options
    minimum results :
  minScore options = Some minimum →
  num_gtb minimum num_zero = true →
  searchByEmbedding settings d q options = Ok results →
  ∀ r, r ∈ results → num_geb (score r) minimum = true.
Proof.
  intros Hmin Hpos (allResults & _ & ->)%searchByEmbedding_rank r Hr.
  unfold rank in Hr. rewrite Hmin in Hr. simpl in Hr. rewrite Hpos in Hr.
  eapply elem_of_sublist in Hr; [|apply slice_to_sublist].
  by apply list_elem_of_filter in Hr as [Hr _].
Qed.

(** The path given as [excludePath] is in no result. *)
Theorem searchByEmbedding_excludes settings (d : EmbeddingDatabases num) q options
    excluded results :
  excludePath options = Some excluded →
  excluded ≠ EmptyString →
  searchByEmbedding settings d q options = Ok results →
  ∀ r, r ∈ results → sr_path r ≠ excluded.
Proof.
  intros Hex Hne (allResults & Hall & ->)%searchByEmbedding_rank r Hr Hpath.
  apply rank_elem_of in Hr.
  destruct (collectResults_Ok _ _ _ _ _ Hall) as [Hfrom _].
  destruct (Hfrom r Hr) as [Hexcl _].
  rewrite Hex, Hpath in Hexcl. simpl in Hexcl.
  rewrite String.eqb_refl, andb_true_r in Hexcl.
  apply negb_false_iff in Hexcl. by apply String.eqb_eq in Hexcl.
Qed.


(** ** When a search fails *)

Lemma cosineSimilarity_Ok_iff (a b : list num) :
  (∃ sc, cosineSimilarity a b = Ok sc) ↔ length a = length b.
Proof.
  unfold cosineSimilarity. destruct (Nat.eqb_spec (length a) (length b)) as [He|Hne]; simpl.
  - split; [done|]. intros _.
    destruct (fold_left accumulate _ _) as [[dotProduct normA] normB]. eauto.
  - split; [by intros [? ?]|done].
Qed.

Lemma cosineSimilarity_Throw (a b : list num) msg :
  cosineSimilarity a b = Throw msg → msg = "Vectors must have same length"%string.
Proof.
  unfold cosineSimilarity. destruct (negb _); [by intros [= <-]|].
  by destruct (fold_left accumulate _ _) as [[? ?] ?].
Qed.

Lemma mapM_result_total {A B} (f : A → result B) l :
  (∀ x, x ∈ l → ∃ y, f x = Ok y) → ∃ ys, mapM_result f l = Ok ys.
Proof.
  induction l as [|x l IH]; intros Hall; simpl; [eauto|].
  destruct (Hall x) as [y ->]; [left|]. simpl.
  destruct IH as [ys ->]; [intros; apply Hall; by right|]. simpl. eauto.
Qed.

Lemma mapM_result_Throw {A B} (f : A → result B) l msg :
  mapM_result f l = Throw msg → ∃ x, x ∈ l ∧ f x = Throw msg.
Proof.
  induction l as [|x l IH]; simpl; [done|].
  destruct (f x) as [y|msg'] eqn:Hfx; simpl.
  - destruct (mapM_result f l) as [ys|msg'] eqn:Hl; simpl; [done|].
    intros [= <-]. destruct (IH eq_refl) as (x' & ? & ?). exists x'. split; [by right|done].
  - intros [= <-]. exists x. split; [left|done].
Qed.

Lemma collectionResults_total {A} (enabled : bool) exclude
    (entryResult : string * A → result (SearchResult num)) (collection : gmap string A) :
  (enabled = true → ∀ p data, collection !! p = Some data →
     is_excluded exclude p = false → ∃ r, entryResult (p, data) = Ok r) →
  ∃ rs, collectionResults enabled exclude entryResult collection = Ok rs.
Proof.
  intros Hall. unfold collectionResults. destruct enabled; [|eauto].
  apply mapM_result_total. intros [p data] [Hex Hin]%list_elem_of_filter.
  apply elem_of_map_to_list in Hin. by apply Hall.
Qed.

Lemma collectionResults_Throw {A} (enabled : bool) exclude
    (entryResult : string * A → result (SearchResult num)) (collection : gmap string A) msg :
  collectionResults enabled exclude entryResult collection = Throw msg →
  ∃ p data, collection !! p = Some data ∧ entryResult (p, data) = Throw msg.
Proof.
  unfold collectionResults. destruct enabled; [|done].
  intros ([p data] & [_ Hin]%list_elem_of_filter & Hf)%mapM_result_Throw.
  apply elem_of_map_to_list in Hin. eauto.
Qed.

Lemma titleResult_total q p (data : TitleEmbedding num) :
  length (t_embedding data) = length q → ∃ r, titleResult q (p, data) = Ok r.
Proof.
  intros Hl. unfold titleResult.
  destruct (proj2 (cosineSimilarity_Ok_iff q (t_embedding data))) as [sc ->]; [done|].
  simpl. eauto.
Qed.

Lemma headingResult_total q p (data : HeadingEmbedding num) :
  length (h_embedding data) = length q → ∃ r, headingResult q (p, data) = Ok r.
Proof.
  intros Hl. unfold headingResult.
  destruct (proj2 (cosineSimilarity_Ok_iff q (h_embedding data))) as [sc ->]; [done|].
  simpl. eauto.
Qed.

Lemma contentResult_total q p (data : ContentEmbedding num) :
  length (c_embedding data) = length q → ∃ r, contentResult q (p, data) = Ok r.
Proof.
  intros Hl. unfold contentResult.
  destruct (proj2 (cosineSimilarity_Ok_iff q (c_embedding data))) as [sc ->]; [done|].
  simpl. eauto.
Qed.

(** A search returns exactly when every stored embedding it compares with
    the query has the query's length; otherwise it throws 'Vectors must have
    same length', whatever the other records are. *)
Theorem searchByEmbedding_returns_iff settings (d : EmbeddingDatabases num) q options :
  ((∃ results, searchByEmbedding settings d q options = Ok results)
   ↔ searchable settings d q (excludePath options))
  ∧ (∀ msg, searchByEmbedding settings d q options = Throw msg →
       msg = "Vectors must have same length"%string).
Proof.
  split; [split|].
  - intros (results & (allResults & Hall & _)%searchByEmbedding_rank).
    destruct (collectResults_Ok _ _ _ _ _ Hall) as [_ Hto].
    unfold collectResults in Hall.
    destruct (collectionResults (aiIndexTitles settings) _ _ _) as [ts|] eqn:Ht;
      simpl in Hall; [|done].
    destruct (collectionResults (aiIndexHeadings settings) _ _ _) as [hs|] eqn:Hh;
      simpl in Hall; [|done].
    destruct (collectionResults (aiIndexContent settings) _ _ _) as [cs|] eqn:Hc;
      simpl in Hall; [|done].
    apply collectionResults_Ok in Ht as [_ Ht].
    apply collectionResults_Ok in Hh as [_ Hh].
    apply collectionResults_Ok in Hc as [_ Hc].
    split; [|split]; intros Hen p data Hl Hex.
    + destruct (Ht p data Hen Hl Hex) as (r & _ & (_ & _ & Hcos)%titleResult_Ok).
      symmetry. apply cosineSimilarity_Ok_iff. eauto.
    + destruct (Hh p data Hen Hl Hex) as (r & _ & (_ & _ & Hcos)%headingResult_Ok).
      symmetry. apply cosineSimilarity_Ok_iff. eauto.
    + destruct (Hc p data Hen Hl Hex) as (r & _ & (_ & _ & Hcos)%contentResult_Ok).
      symmetry. apply cosineSimilarity_Ok_iff. eauto.
  - intros (Ht & Hh & Hc).
    unfold searchByEmbedding, findSimilar, collectResults.
    destruct (collectionResults_total (aiIndexTitles settings) (excludePath options)
                (titleResult q) (db_titles d)) as [ts ->].
    { intros Hen p data Hl Hex. apply titleResult_total. by eapply Ht. }
    destruct (collectionResults_total (aiIndexHeadings settings) (excludePath options)
                (headingResult q) (db_headings d)) as [hs ->].
    { intros Hen p data Hl Hex. apply headingResult_total. by eapply Hh. }
    destruct (collectionResults_total (aiIndexContent settings) (excludePath options)
                (contentResult q) (db_content d)) as [cs ->].
    { intros Hen p data Hl Hex. apply contentResult_total. by eapply Hc. }
    simpl. eauto.
  - intros msg. unfold searchByEmbedding, findSimilar, collectResults.
    destruct (collectionResults (aiIndexTitles settings) _ _ _) as [ts|m1] eqn:Ht; simpl.
    2:{ intros [= <-]. apply collectionResults_Throw in Ht as (p & data & _ & Hf).
        unfold titleResult in Hf.
        destruct (cosineSimilarity q (t_embedding data)) eqn:Hcos; simpl in Hf; [done|].
        injection Hf as <-. by eapply cosineSimilarity_Throw. }
    destruct (collectionResults (aiIndexHeadings settings) _ _ _) as [hs|m2] eqn:Hh; simpl.
    2:{ intros [= <-]. apply collectionResults_Throw in Hh as (p & data & _ & Hf).
        unfold headingResult in Hf.
        destruct (cosineSimilarity q (h_embedding data)) eqn:Hcos; simpl in Hf; [done|].
        injection Hf as <-. by eapply cosineSimilarity_Throw. }
    destruct (collectionResults (aiIndexContent settings) _ _ _) as [cs|m3] eqn:Hc; simpl.
    2:{ intros [= <-]. apply collectionResults_Throw in Hc as (p & data & _ & Hf).
        unfold contentResult in Hf.
        destruct (cosineSimilarity q (c_embedding data)) eqn:Hcos; simpl in Hf; [done|].
        injection Hf as <-. by eapply cosineSimilarity_Throw. }
    done.
Qed.

(** ** Which documents a search returns *)

Lemma map_get_keys k best : is_Some (map_get k best) ↔ k ∈ best.*1.
Proof.
  split.
  - intros [v Hv]. apply map_get_elem_of in Hv. apply list_elem_of_fmap. by exists (k, v).
  - intros Hin. destruct (map_get k best) eqn:E; [eauto|].
    by apply map_get_None in E.
Qed.

Lemma keepBest_keys best r k :
  k ∈ (keepBest best r).*1 ↔ k ∈ best.*1 ∨ k = sr_path r.
Proof.
  assert (Hset : k ∈ (map_set (sr_path r) r best).*1 ↔ k ∈ best.*1 ∨ k = sr_path r).
  { rewrite map_set_keys. case_bool_decide as Hin.
    - split; [auto|]. intros [?| ->]; done.
    - rewrite elem_of_app, list_elem_of_singleton. done. }
  unfold keepBest. destruct (map_get (sr_path r) best) as [existing|] eqn:Hget; [|done].
  destruct (num_gtb _ _); [done|].
  split; [auto|]. intros [?| ->]; [done|]. apply map_get_keys. eauto.
Qed.

Lemma fold_keepBest_keys rest best k :
  k ∈ (fold_left keepBest rest best).*1 ↔ k ∈ best.*1 ∨ k ∈ sr_path <$> rest.
Proof.
  revert best. induction rest as [|r rest IH]; intros best; simpl.
  - rewrite elem_of_nil. tauto.
  - rewrite IH, keepBest_keys, elem_of_cons. tauto.
Qed.

Lemma keepBest_length best r : (length (keepBest best r) ≤ S (length best))%nat.
Proof.
  assert (Hset : (length (map_set (sr_path r) r best) ≤ S (length best))%nat).
  { rewrite <- (length_fmap fst (map_set _ _ _)), map_set_keys.
    case_bool_decide; rewrite ?length_app, !length_fmap; simpl; lia. }
  unfold keepBest. destruct (map_get _ _); [|done]. destruct (num_gtb _ _); [done|lia].
Qed.

Lemma fold_keepBest_length rest best :
  (length (fold_left keepBest rest best) ≤ length best + length rest)%nat.
Proof.
  revert best. induction rest as [|r rest IH]; intros best; simpl; [lia|].
  etrans; [apply IH|]. pose proof (keepBest_length best r). lia.
Qed.

Lemma mapM_result_length {A B} (f : A → result B) l ys :
  mapM_result f l = Ok ys → length ys = length l.
Proof.
  revert ys. induction l as [|x l IH]; intros ys; simpl; [by intros [= <-]|].
  destruct (f x); simpl; [|done]. destruct (mapM_result f l); simpl; [|done].
  intros [= <-]. simpl. f_equal. by apply IH.
Qed.

Lemma collectionResults_length {A} (enabled : bool) exclude
    (entryResult : string * A → result (SearchResult num)) (collection : gmap string A) rs :
  collectionResults enabled exclude entryResult collection = Ok rs →
  (length rs ≤ size collection)%nat.
Proof.
  unfold collectionResults. destruct enabled.
  - intros ->%mapM_result_length. rewrite <- length_map_to_list. apply length_filter.
  - intros [= <-]. simpl. lia.
Qed.

Lemma collectResults_length settings (d : EmbeddingDatabases num) q exclude allResults :
  collectResults settings d q exclude = Ok allResults →
  (length allResults
   ≤ size (db_titles d) + size (db_headings d) + size (db_content d))%nat.
Proof.
  unfold collectResults.
  destruct (collectionResults (aiIndexTitles settings) _ _ _) as [ts|] eqn:Ht; simpl; [|done].
  destruct (collectionResults (aiIndexHeadings settings) _ _ _) as [hs|] eqn:Hh; simpl; [|done].
  destruct (collectionResults (aiIndexContent settings) _ _ _) as [cs|] eqn:Hc; simpl; [|done].
  intros [= <-]. rewrite !length_app.
  apply collectionResults_length in Ht, Hh, Hc. lia.
Qed.

(** When [minScore] is not above zero and [topK] is at least the number
    of stored records, the paths of the results are exactly the paths that
    an enabled collection stores, the excluded path left out: no document is
    lost by the merge. *)
Theorem searchByEmbedding_complete settings (d : EmbeddingDatabases num) q options
    results :
  searchByEmbedding settings d q options = Ok results →
  num_gtb (default num_zero (minScore options)) num_zero = false →
  Z.of_nat (size (db_titles d) + size (db_headings d) + size (db_content d))
    ≤ default 5 (topK options) →
  ∀ p, p ∈ sr_path <$> results
       ↔ is_excluded (excludePath options) p = false
         ∧ ∃ src sc, stored_match settings d q p src sc.
Proof.
  intros (allResults & Hall & ->)%searchByEmbedding_rank Hmin Hk p.
  pose proof (merged_upto_fold allResults [] [] merged_upto_nil) as Hmu.
  rewrite app_nil_l in Hmu.
  pose proof (fold_keepBest_length allResults []) as Hlen.
  pose proof (collectResults_length _ _ _ _ _ Hall) as Hlen'.
  set (best := fold_left keepBest allResults []) in *.
  assert (Hrank : rank (default 5 (topK options))
                    (Some (default num_zero (minScore options))) allResults
                  = sortByScore best.*2).
  { unfold rank. fold best. rewrite Hmin. apply slice_to_all.
    rewrite sortByScore_Permutation, length_fmap. simpl in Hlen. lia. }
  rewrite Hrank, sortByScore_Permutation, (merged_upto_paths _ _ Hmu).
  unfold best. rewrite fold_keepBest_keys. simpl. rewrite elem_of_nil.
  destruct (collectResults_Ok _ _ _ _ _ Hall) as [Hfrom Hto].
  split.
  - intros [[]|(r & -> & Hr)%list_elem_of_fmap].
    destruct (Hfrom r Hr) as [Hex Hm]. eauto.
  - intros (Hex & src & sc & Hm). right.
    destruct (Hto p src sc Hex Hm) as (r & Hr & <- & _).
    by apply list_elem_of_fmap_2.
Qed.

End SearchResults.

(** * Ties between collections *)

Section Ties.
Context {num : Type} `{!Number num}.
Implicit Types (r m v : SearchResult num) (best : list (string * SearchResult num)).

Lemma collected_before_unique (l : list (SearchResult num)) a b :
  StronglySorted collected_before l → a ∈ l → b ∈ l →
  sr_path a = sr_path b → source a = source b → a = b.
Proof.
  induction 1 as [|x l Hs IH Hx]; intros Ha Hb Hp Hsrc; [by apply elem_of_nil in Ha|].
  rewrite Forall_forall in Hx.
  apply elem_of_cons in Ha as [->|Ha], Hb as [->|Hb]; [done| | |by apply IH].
  - destruct (Hx b Hb) as [_ Hlt]. specialize (Hlt Hp). rewrite Hsrc in Hlt. lia.
  - destruct (Hx a Ha) as [_ Hlt]. specialize (Hlt (eq_sym Hp)). rewrite Hsrc in Hlt. lia.
Qed.

Lemma source_rank_inj s1 s2 : source_rank s1 = source_rank s2 → s1 = s2.
Proof. by destruct s1, s2. Qed.

(** A score that is not above another, itself below a third, is below the
    third. *)
Lemma comparable_le_lt (l : list num) x y z :
  comparable l → x ∈ l → y ∈ l → z ∈ l →
  num_ltb y x = false → num_ltb y z = true → num_ltb x z = true.
Proof.
  intros Hcmp Hx Hy Hz Hxy Hyz.
  destruct (num_ltb x z) eqn:Hxz; [done|].
  assert (Hzx : num_leb z x = true) by (by rewrite (cmp_total _ Hcmp z x), Hxz).
  assert (Hxy' : num_leb x y = true) by (by rewrite (cmp_total _ Hcmp x y), Hxy).
  pose proof (cmp_le_trans _ Hcmp z x y Hz Hx Hy Hzx Hxy') as Hzy.
  rewrite (cmp_total _ Hcmp z y), Hyz in Hzy by done. done.
Qed.

Lemma tied_upto_keepBest processed best r :
  comparable (score <$> processed ++ [r]) →
  StronglySorted collected_before (processed ++ [r]) →
  merged_upto processed best →
  (∀ m, m ∈ processed → sr_path m ∈ best.*1) →
  tied_upto processed best →
  tied_upto (processed ++ [r]) (keepBest best r).
Proof.
  intros Hcmp Hsorted Hmu Hkeys Htied.
  assert (Hbefore : ∀ m, m ∈ processed → collected_before m r).
  { intros m Hm. eapply StronglySorted_app_1_elem_of; [exact Hsorted|exact Hm|left]. }
  assert (Hsc : ∀ m, m ∈ processed ++ [r] → score m ∈ score <$> processed ++ [r])
    by (intros; by apply list_elem_of_fmap_2).
  assert (Hin : ∀ m, m ∈ processed → m ∈ processed ++ [r])
    by (intros; apply elem_of_app; by left).
  assert (Hr : r ∈ processed ++ [r]) by (apply elem_of_app; right; left).
  assert (Hold : ∀ k v m, k ≠ sr_path r → map_get k best = Some v →
            m ∈ processed ++ [r] → sr_path m = k →
            ((source_rank (source m) < source_rank (source v))%nat →
               num_ltb (score m) (score v) = true)
            ∧ ((source_rank (source v) < source_rank (source m))%nat →
               num_ltb (score v) (score m) = false)).
  { intros k v m Hk Hv [Hm| ->]%elem_of_snoc Hp; [by eapply Htied|congruence]. }
  unfold keepBest.
  destruct (map_get (sr_path r) best) as [e|] eqn:Hget.
  - destruct (mu_from _ _ Hmu _ _ Hget) as [Hpe He].
    unfold num_gtb. destruct (num_ltb (score e) (score r)) eqn:Hlt.
    + intros k v m Hv Hm Hp.
      destruct (decide (sr_path r = k)) as [<-|Hne].
      2:{ rewrite map_get_set_ne in Hv by done. by eapply Hold. }
      rewrite map_get_set_eq in Hv. injection Hv as <-.
      apply elem_of_snoc in Hm as [Hm| ->]; [|split; lia].
      destruct (Hbefore m Hm) as [_ Hrank]. specialize (Hrank Hp).
      split; [intros _|lia].
      destruct (Htied _ e m Hget Hm Hp) as [Hlo Hhi].
      destruct (Nat.lt_total (source_rank (source m)) (source_rank (source e)))
        as [Hme|[Hme|Hme]].
      * eapply (cmp_lt_trans _ Hcmp (score m) (score e) (score r)); auto.
      * assert (m = e) as ->; [|done].
        eapply collected_before_unique;
          [eapply StronglySorted_app_1_l, Hsorted|done|done|congruence|].
        by apply source_rank_inj.
      * eapply (comparable_le_lt _ (score m) (score e) (score r)); eauto.
    + intros k v m Hv Hm Hp.
      destruct (decide (sr_path r = k)) as [<-|Hne]; [|by eapply Hold].
      assert (v = e) as -> by congruence.
      apply elem_of_snoc in Hm as [Hm| ->]; [by eapply Htied|].
      destruct (Hbefore e He) as [_ Hrank]. specialize (Hrank Hpe).
      split; [lia|done].
  - intros k v m Hv Hm Hp.
    destruct (decide (sr_path r = k)) as [<-|Hne].
    2:{ rewrite map_get_set_ne in Hv by done. by eapply Hold. }
    rewrite map_get_set_eq in Hv. injection Hv as <-.
    apply elem_of_snoc in Hm as [Hm| ->]; [|split; lia].
    apply Hkeys in Hm. rewrite Hp in Hm. by apply map_get_None in Hget.
Qed.

Lemma tied_upto_fold rest :
  ∀ processed best,
    comparable (score <$> processed ++ rest) →
    StronglySorted collected_before (processed ++ rest) →
    merged_upto processed best →
    (∀ m, m ∈ processed → sr_path m ∈ best.*1) →
    tied_upto processed best →
    tied_upto (processed ++ rest) (fold_left keepBest rest best).
Proof.
  induction rest as [|r rest IH]; intros processed best Hcmp Hsorted Hmu Hkeys Htied.
  - by rewrite app_nil_r.
  - simpl. rewrite (cons_middle r processed rest), app_assoc in Hcmp, Hsorted |- *.
    apply IH; [done|done|by apply merged_upto_keepBest| |].
    + intros m [Hm| ->]%elem_of_snoc; apply keepBest_keys; auto.
    + apply tied_upto_keepBest; [|by eapply StronglySorted_app_1_l|done..].
      eapply comparable_subseteq; [|exact Hcmp].
      rewrite (fmap_app _ (processed ++ [r]) rest). intros x Hx. apply elem_of_app. by left.
Qed.

(** ** The order of [allResults] *)

Lemma mapM_result_fmap {A B C} (f : A → result B) (g : B → C) (h : A → C) l ys :
  (∀ x y, f x = Ok y → g y = h x) →
  mapM_result f l = Ok ys → g <$> ys = h <$> l.
Proof.
  intros Hf. revert ys. induction l as [|x l IH]; intros ys; simpl; [by intros [= <-]|].
  destruct (f x) as [y|] eqn:Hfx; simpl; [|done].
  destruct (mapM_result f l) as [ys'|]; simpl; [|done].
  intros [= <-]. simpl. f_equal; [by apply Hf|by apply IH].
Qed.

Lemma collectionResults_block {A} (enabled : bool) exclude
    (entryResult : string * A → result (SearchResult num)) (collection : gmap string A)
    (src : Source) rs :
  (∀ x r, entryResult x = Ok r → sr_path r = x.1 ∧ source r = src) →
  collectionResults enabled exclude entryResult collection = Ok rs →
  NoDup (sr_path <$> rs) ∧ Forall (λ r, source r = src) rs.
Proof.
  intros Hentry. unfold collectionResults. destruct enabled.
  - intros Hm. split.
    + rewrite (mapM_result_fmap _ sr_path fst _ _ (λ x r H, proj1 (Hentry x r H)) Hm).
      eapply sublist_NoDup; [apply (NoDup_fst_map_to_list collection)|].
      apply fmap_sublist, sublist_filter.
    + apply Forall_forall. intros r Hr.
      destruct (proj2 (mapM_result_Ok _ _ _ Hm) r Hr) as (x & _ & Hx).
      by destruct (Hentry x r Hx).
  - intros [= <-]. split; [constructor|constructor].
Qed.

Lemma block_sorted (src : Source) (rs : list (SearchResult num)) :
  NoDup (sr_path <$> rs) → Forall (λ r, source r = src) rs →
  StronglySorted collected_before rs.
Proof.
  induction rs as [|r rs IH]; [constructor|].
  rewrite fmap_cons. intros [Hnin Hnd]%NoDup_cons [Hr Hrs]%Forall_cons.
  constructor; [by apply IH|]. apply Forall_forall. intros m Hm.
  rewrite Forall_forall in Hrs. unfold collected_before.
  rewrite Hr, (Hrs m Hm). split; [done|].
  intros Hp. destruct Hnin. rewrite Hp. by apply list_elem_of_fmap_2.
Qed.

Lemma collectResults_sorted settings (d : EmbeddingDatabases num) q exclude allResults :
  collectResults settings d q exclude = Ok allResults →
  StronglySorted collected_before allResults.
Proof.
  unfold collectResults.
  destruct (collectionResults (aiIndexTitles settings) _ _ _) as [ts|] eqn:Ht; simpl; [|done].
  destruct (collectionResults (aiIndexHeadings settings) _ _ _) as [hs|] eqn:Hh; simpl; [|done].
  destruct (collectionResults (aiIndexContent settings) _ _ _) as [cs|] eqn:Hc; simpl; [|done].
  intros [= <-].
  apply (collectionResults_block _ _ _ _ src_title) in Ht as [Nt Ft].
  2:{ intros [p data] r (? & ? & _)%titleResult_Ok. done. }
  apply (collectionResults_block _ _ _ _ src_heading) in Hh as [Nh Fh].
  2:{ intros [p data] r (? & ? & _)%headingResult_Ok. done. }
  apply (collectionResults_block _ _ _ _ src_content) in Hc as [Nc Fc].
  2:{ intros [p data] r (? & ? & _)%contentResult_Ok. done. }
  pose proof (block_sorted _ _ Nt Ft) as St.
  pose proof (block_sorted _ _ Nh Fh) as Sh.
  pose proof (block_sorted _ _ Nc Fc) as Sc.
  rewrite Forall_forall in Ft, Fh, Fc.
  apply StronglySorted_app_2; [|done|apply StronglySorted_app_2; [|done|done]].
  - intros a b Ha [Hb|Hb]%elem_of_app; unfold collected_before;
      rewrite (Ft a Ha), ?(Fh b Hb), ?(Fc b Hb); simpl; lia.
  - intros a b Ha Hb. unfold collected_before. rewrite (Fh a Ha), (Fc b Hb). simpl. lia.
Qed.

(** The tie rule in any arithmetic with comparable scores. *)
Lemma searchByEmbedding_tie_comparable settings (d : EmbeddingDatabases num) q options
    allResults results r src sc :
  collectResults settings d q (excludePath options) = Ok allResults →
  comparable (score <$> allResults) →
  searchByEmbedding settings d q options = Ok results →
  r ∈ results →
  stored_match settings d q (sr_path r) src sc →
  num_ltb sc (score r) = false →
  (source_rank (source r) ≤ source_rank src)%nat.
Proof.
  intros Hall Hcmp (allResults' & Hall' & ->)%searchByEmbedding_rank Hr Hm Hsc.
  assert (allResults' = allResults) as -> by congruence.
  pose proof (collectResults_sorted _ _ _ _ _ Hall) as Hsorted.
  pose proof (merged_upto_fold allResults [] [] merged_upto_nil) as Hmu.
  pose proof (tied_upto_fold allResults [] [] Hcmp Hsorted merged_upto_nil) as Htied.
  rewrite app_nil_l in Hmu, Htied.
  set (best := fold_left keepBest allResults []) in *.
  assert (Htied' : tied_upto allResults best).
  { apply Htied; [by intros ? ?%elem_of_nil|]. intros k v m Hv. done. }
  clear Htied.
  pose proof (rank_sublist (default 5 (topK options))
                (Some (default num_zero (minScore options))) allResults) as Hsub.
  eapply elem_of_sublist in Hr; [|exact Hsub].
  rewrite sortByScore_Permutation in Hr.
  apply list_elem_of_fmap in Hr as ([k v] & -> & Hin). simpl in *.
  pose proof (elem_of_map_get k v best (mu_nodup _ _ Hmu) Hin) as Hget.
  destruct (mu_from _ _ Hmu k v Hget) as [Hk Hv].
  destruct (collectResults_Ok _ _ _ _ _ Hall) as [Hfrom Hto].
  destruct (Hfrom v Hv) as [Hex _].
  destruct (Hto _ _ _ Hex Hm) as (m & Hmall & Hpath & Hsrc & Hscore).
  destruct (Htied' k v m Hget Hmall (eq_trans Hpath Hk)) as [Hlo _].
  destruct (Nat.le_gt_cases (source_rank (source v)) (source_rank src)) as [?|Hgt];
    [done|].
  rewrite <- Hsrc in Hgt. specialize (Hlo Hgt). congruence.
Qed.

End Ties.

(** When two collections hold matches of one path with the same score,
    the result carries the source of the collection that is searched first:
    titles before headings before content. On doubles, for scores other than
    NaN: a match of the path that is not below the result's score comes from
    the result's collection or from a later one. *)
Theorem searchByEmbedding_tie_break settings (d : EmbeddingDatabases float) q options
    allResults results r src sc :
  collectResults settings d q (excludePath options) = Ok allResults →
  Forall not_nan (score <$> allResults) →
  searchByEmbedding settings d q options = Ok results →
  r ∈ results →
  stored_match settings d q (sr_path r) src sc →
  num_ltb sc (score r) = false →
  (source_rank (source r) ≤ source_rank src)%nat.
Proof.
  intros Hall Hnan. eapply searchByEmbedding_tie_comparable; [exact Hall|].
  by apply double_comparable.
Qed.

(** * Indexing one note *)

Section NoteFacts.
Context {num : Type}.
Variable host : Host num.
Variable settings : Settings.
Implicit Types (w : World num) (file : TFile) (d : EmbeddingDatabases num).

Lemma same_records_refl d : same_records d d.
Proof. by repeat split. Qed.

Lemma same_records_trans d1 d2 d3 :
  same_records d1 d2 → same_records d2 d3 → same_records d1 d3.
Proof. intros (? & ? & ?) (? & ? & ?). repeat split; congruence. Qed.

Lemma handled_same_records w w' : handled w w' → same_records (db w) (db w').
Proof. intros []. by repeat split. Qed.

Lemma embedRequests_app (tr tr' : list Event) :
  embedRequests (tr ++ tr') = embedRequests tr ++ embedRequests tr'.
Proof. apply filter_app. Qed.

Lemma embedRequests_writes (evs : list Event) :
  Forall (λ ev, ev = EvWrite) evs → embedRequests evs = [].
Proof.
  induction 1 as [|ev evs -> _ IH]; [reflexivity|].
  unfold embedRequests. rewrite filter_cons. simpl.
  destruct (decide (false = true)); [done|exact IH].
Qed.

(** The embedding requests made since the trace had length [n]. *)
Lemma generate_requests text w :
  let w' := (generatePassageEmbedding host text w).2 in
  handled (emit (EvEmbed text passage) w) w'
  ∧ embedRequests (drop (length (trace w)) (trace w')) = [EvEmbed text passage].
Proof.
  simpl. pose proof (handled_yield (emit (EvEmbed text passage) w)) as Hh.
  split; [exact Hh|].
  destruct Hh as [_ _ _ _ _ (evs & -> & Hevs)]. cbn [trace emit].
  rewrite <- app_assoc, drop_app_length.
  rewrite embedRequests_app, (embedRequests_writes evs) by done. reflexivity.
Qed.

(** [indexTitle] on a note whose title record is missing or stale makes
    one embedding request for the basename; if the service answers, the
    record of the path becomes the new one, and if it does not, the title
    collection is left as it was. The other collections are not touched. *)
Theorem indexTitle_outcome file w :
  is_current t_lastModified (getTitleEmbedding (path file) (db w)) file = false →
  let w' := indexTitle host file w in
  db_titles (db w')
  = match aiService_generateEmbedding host (basename file) passage with
    | Some embedding =>
        <[path file := {| t_path := path file; t_embedding := embedding;
                          t_lastModified := stat_mtime file;
                          t_title := basename file |}]> (db_titles (db w))
    | None => db_titles (db w)
    end
  ∧ db_headings (db w') = db_headings (db w)
  ∧ db_content (db w') = db_content (db w)
  ∧ embedRequests (drop (length (trace w)) (trace w'))
    = [EvEmbed (basename file) passage].
Proof.
  intros Hcur w'. subst w'. unfold indexTitle. rewrite Hcur.
  destruct (generate_requests (basename file) w) as [Hh Hreq].
  destruct (generatePassageEmbedding host (basename file) w) as [embedding w1] eqn:Hgen.
  assert (embedding = aiService_generateEmbedding host (basename file) passage) as ->
    by (by injection Hgen).
  simpl in Hh, Hreq. destruct Hh as [Ht Hhd Hc _ _ _]. simpl in Ht, Hhd, Hc.
  destruct (aiService_generateEmbedding host (basename file) passage); simpl;
    rewrite ?Ht; auto.
Qed.

(** [indexHeadings] on a note without headings whose record is missing or
    stale removes the record of the path and asks for no embedding. *)
Theorem indexHeadings_without_headings file w :
  is_current h_lastModified (getHeadingEmbedding (path file) (db w)) file = false →
  fileCache_headings host file = None ∨ fileCache_headings host file = Some [] →
  let w' := indexHeadings host file w in
  db_headings (db w') = delete (path file) (db_headings (db w))
  ∧ db_titles (db w') = db_titles (db w)
  ∧ db_content (db w') = db_content (db w)
  ∧ trace w' = trace w.
Proof.
  intros Hcur Hnone w'. subst w'. unfold indexHeadings. rewrite Hcur.
  destruct Hnone as [Hn|Hn]; rewrite Hn;
    (destruct (getHeadingEmbedding (path file) (db w)) eqn:Hget; simpl;
     [done|unfold getHeadingEmbedding in Hget; by rewrite delete_id]).
Qed.

(** ** Cutting a string by UTF-16 code units *)

Lemma units_le c : (units c ≤ 2)%nat.
Proof. unfold units. destruct (is_continuation c), (240 <=? code c)%N; lia. Qed.





Lemma substring_to_all (n : nat) (s : string) :
  (js_length s ≤ n)%nat → substring_to n s = s.
Proof.
  revert n. induction s as [|c s IH]; intros n Hn; [done|].
  cbn [substring_to js_length] in *. pose proof (units_le c) as Hc.
  destruct (units c) as [|[|[|k]]] eqn:Hu; [| | |lia].
  - f_equal. apply IH. lia.
  - destruct n as [|n]; [lia|]. f_equal. apply IH. lia.
  - destruct n as [|[|n]]; [lia..|]. f_equal. apply IH. lia.
Qed.






(** The text [indexContent] sends to the service: the first 3000 code units
    of the note. *)
Lemma truncated_text (text : string) :
  (if (3000 <? js_length text)%nat then substring_to 3000 text else text)
  = substring_to 3000 text.
Proof.
  destruct (Nat.ltb_spec 3000 (js_length text)) as [Hlt|Hge]; [done|].
  symmetry. by apply substring_to_all.
Qed.


(** Code units and bytes differ: a bullet is one code unit in three bytes, a
    character outside the basic plane two code units in four bytes, and a cut
    between its two halves keeps the first half. *)
Example substring_to_code_units :
  js_length (bullets 60) = 60%nat ∧ String.length (bullets 60) = 180%nat
  ∧ substring_to 150 (bullets 60) = bullets 60
  ∧ substring_to 150 (bullets 200) = bullets 150
  ∧ js_length "a😀b" = 4%nat
  ∧ substring_to 3 "a😀b" = "a😀"%string
  ∧ js_length (substring_to 2 "a😀b") = 2%nat
  ∧ String.length (substring_to 2 "a😀b") = 4%nat.
Proof. repeat split; vm_compute; reflexivity. Qed.

(** ** Removing a note *)

Lemma removeNote_cases p w :
  removeNote p w
  = let w1 := update_db (λ d, with_titles (delete p (db_titles d))
                          (with_headings (delete p (db_headings d))
                             (with_content (delete p (db_content d)) d))) w in
    if bool_decide (has_record p (db w)) || inherited p then save w1 else w.
Proof.
  unfold removeNote, found, has_record, getTitleEmbedding, getHeadingEmbedding,
    getContentEmbedding.
  destruct w as [d dk ci ct ck tr sc]. destruct d as [v lu ts hs cs sts]. simpl.
  destruct (inherited p); rewrite ?orb_true_r, ?orb_false_r; simpl;
    [reflexivity|].
  destruct (ts !! p) as [t|] eqn:Ht; simpl;
    (destruct (hs !! p) as [h|] eqn:Hh; simpl);
    (destruct (cs !! p) as [c|] eqn:Hc; simpl);
    rewrite ?bool_decide_eq_true_2 by (rewrite <- ?not_eq_None_Some; naive_solver);
    try (unfold update_db, with_db, removeTitleEmbedding, removeHeadingEmbedding,
           removeContentEmbedding, with_titles, with_headings, with_content; simpl;
         rewrite ?(delete_id ts) by done; rewrite ?(delete_id hs) by done;
         rewrite ?(delete_id cs) by done; reflexivity).
Qed.



End NoteFacts.

(** The path constructor has no record, but every collection answers the
    lookup with the function inherited from [Object.prototype]: [removeNote]
    deletes nothing and writes the file. *)
Example removeNote_prototype_key :
  let w := world_of indexed_db in
  let w' := removeNote "constructor" w in
  inherited "constructor" = true
  ∧ ¬ has_record "constructor" (db w)
  ∧ same_records (db w) (db w')
  ∧ trace w' = [EvWrite]
  ∧ synced w'.
Proof.
  intros w w'. split; [reflexivity|]. split.
  { intros [[r Hr]|[[r Hr]|[r Hr]]]; vm_compute in Hr; discriminate. }
  split; [|split; [vm_compute; reflexivity|]].
  - repeat split; vm_compute; reflexivity.
  - unfold w'. rewrite removeNote_cases. cbv zeta.
    change (inherited "constructor") with true. rewrite orb_true_r.
    apply synced_save.
Qed.

(** * A pass that is not cancelled *)

Section PassFacts.
Context {num : Type}.
Variable host : Host num.
Implicit Types (w : World num) (file : TFile) (d : EmbeddingDatabases num)
  (type : IndexType).

Lemma kept_refl w : kept w w.
Proof. split; [apply same_records_refl|done]. Qed.

Lemma kept_trans w1 w2 w3 : kept w1 w2 → kept w2 w3 → kept w1 w3.
Proof.
  intros [R1 C1] [R2 C2]. split; [by eapply same_records_trans|auto].
Qed.

Lemma kept_same w w' :
  db w' = db w → cancelIndexing w' = cancelIndexing w → schedule w' = schedule w →
  kept w w'.
Proof.
  intros Hdb Hc Hs. split; [rewrite Hdb; apply same_records_refl|].
  unfold calm. by rewrite Hc, Hs.
Qed.


Lemma kept_writeEnvelope w : kept w (writeEnvelope w).
Proof. split; [by repeat split|done]. Qed.

Lemma kept_runInterrupt w i : i ≠ CancelRequest → kept w (runInterrupt w i).
Proof.
  intros Hi. destruct i as [| |ms]; [done| |by apply kept_same].
  simpl. unfold cancelCleanup. destruct (cleanupTimers w) as [|n]; [apply kept_refl|].
  eapply kept_trans; [|apply kept_writeEnvelope].
  split; [|done]. by repeat split.
Qed.

Lemma kept_fold_runInterrupt hs w :
  Forall (λ i, i ≠ CancelRequest) hs → kept w (fold_left runInterrupt hs w).
Proof.
  intros Hhs. revert w. induction Hhs as [|h hs Hh _ IH]; intros w; simpl.
  - apply kept_refl.
  - eapply kept_trans; [by apply kept_runInterrupt|apply IH].
Qed.

Lemma kept_yield w : kept w (yield w).
Proof.
  split; [apply handled_same_records, handled_yield|].
  intros [Hc Hq]. unfold yield. destruct (schedule w) as [|hs rest] eqn:Hs.
  - split; [done|]. by rewrite Hs.
  - inversion Hq as [|? ? Hhs Hrest]; subst.
    apply (kept_fold_runInterrupt hs (with_schedule rest w) Hhs).
    split; [exact Hc|exact Hrest].
Qed.

Lemma kept_emit ev w : kept w (emit ev w).
Proof. by apply kept_same. Qed.

Lemma kept_save w : kept w (save w).
Proof. eapply kept_trans; [apply kept_writeEnvelope|apply kept_yield]. Qed.




Lemma kept_generate text w : kept w (generatePassageEmbedding host text w).2.
Proof.
  simpl. eapply kept_trans; [apply kept_emit|apply kept_yield].
Qed.


Lemma same_records_except_of_same q d d' :
  same_records d d' → same_records_except q d d'.
Proof. intros (Ht & Hh & Hc) p _. by rewrite Ht, Hh, Hc. Qed.

Lemma same_records_except_trans q d1 d2 d3 :
  same_records_except q d1 d2 → same_records_except q d2 d3 →
  same_records_except q d1 d3.
Proof.
  intros H1 H2 p Hp. destruct (H1 p Hp) as (? & ? & ?).
  destruct (H2 p Hp) as (? & ? & ?). repeat split; congruence.
Qed.


Lemma has_current_record_same d d' type file :
  same_records d d' →
  has_current_record type file d → has_current_record type file d'.
Proof.
  intros (Ht & Hh & Hc).
  destruct type; unfold has_current_record, getTitleEmbedding, getHeadingEmbedding,
    getContentEmbedding; by rewrite ?Ht, ?Hh, ?Hc.
Qed.

(** What indexing one file in one collection does: the records of the other
    paths stay, no cancellation appears, and when the service answers the
    collection holds a current record of the file. *)
Lemma indexOne_effect type file w :
  let w' := indexOne host type file w in
  same_records_except (path file) (db w) (db w')
  ∧ (calm w → calm w')
  ∧ (service_answers host → expects_record host type file →
     has_current_record type file (db w')).
Proof.
  destruct type; simpl.
  - unfold indexTitle.
    destruct (is_current _ _ _) eqn:Hcur.
    { split; [by apply same_records_except_of_same, same_records_refl|]. auto. }
    pose proof (kept_generate (basename file) w) as [Hrec Hcalm].
    destruct (generatePassageEmbedding host (basename file) w) as [e w1] eqn:Hgen.
    assert (He : e = aiService_generateEmbedding host (basename file) passage)
      by (by injection Hgen).
    simpl in Hrec, Hcalm. destruct e as [e|].
    + split; [|split; [exact Hcalm|]].
      * intros p Hp. destruct Hrec as (Ht & Hh & Hc). simpl.
        rewrite lookup_insert_ne by done. by rewrite Ht, Hh, Hc.
      * intros _ _. unfold getTitleEmbedding. simpl.
        rewrite lookup_insert_eq. simpl. apply Z.eqb_refl.
    + split; [by apply same_records_except_of_same|]. split; [exact Hcalm|].
      intros Hsvc _. destruct (Hsvc (basename file)) as [? Hs]. congruence.
  - unfold indexHeadings.
    destruct (is_current _ _ _) eqn:Hcur.
    { split; [by apply same_records_except_of_same, same_records_refl|]. auto. }
    assert (Hnone : ∀ w0 : World num,
              w0 = match getHeadingEmbedding (path file) (db w) with
                   | Some _ => update_db (removeHeadingEmbedding (path file)) w
                   | None => w
                   end →
              same_records_except (path file) (db w) (db w0) ∧ (calm w → calm w0)).
    { intros w0 ->. destruct (getHeadingEmbedding _ _); simpl.
      - split; [|done]. intros p Hp. simpl. by rewrite lookup_delete_ne.
      - split; [by apply same_records_except_of_same, same_records_refl|done]. }
    destruct (fileCache_headings host file) as [[|h hs]|] eqn:Hfc.
    + destruct (Hnone _ eq_refl). split; [done|]. split; [done|].
      intros _ (? & ? & ?). done.
    + set (text := String.concat newline (h :: hs)).
      pose proof (kept_generate text w) as [Hrec Hcalm].
      destruct (generatePassageEmbedding host text w) as [e w1] eqn:Hgen.
      assert (He : e = aiService_generateEmbedding host text passage)
        by (by injection Hgen).
      simpl in Hrec, Hcalm. destruct e as [e|].
      * split; [|split; [exact Hcalm|]].
        -- intros p Hp. destruct Hrec as (Ht & Hh & Hc). simpl.
           rewrite lookup_insert_ne by done. by rewrite Ht, Hh, Hc.
        -- intros _ _. unfold getHeadingEmbedding. simpl.
           rewrite lookup_insert_eq. simpl. apply Z.eqb_refl.
      * split; [by apply same_records_except_of_same|]. split; [exact Hcalm|].
        intros Hsvc _. destruct (Hsvc text) as [? Hs]. congruence.
    + destruct (Hnone _ eq_refl). split; [done|]. split; [done|].
      intros _ (? & ? & ?). done.
  - unfold indexContent.
    destruct (is_current _ _ _) eqn:Hcur.
    { split; [by apply same_records_except_of_same, same_records_refl|]. auto. }
    cbv zeta. rewrite truncated_text.
    set (text := substring_to 3000 (cachedRead host file)).
    pose proof (kept_yield w) as Hy.
    pose proof (kept_generate text (yield w)) as Hg.
    destruct (kept_trans _ _ _ Hy Hg) as [Hrec Hcalm].
    destruct (generatePassageEmbedding host text (yield w)) as [e w1] eqn:Hgen.
    assert (He : e = aiService_generateEmbedding host text passage)
      by (by injection Hgen).
    simpl in Hrec, Hcalm. destruct e as [e|].
    + split; [|split; [exact Hcalm|]].
      * intros p Hp. destruct Hrec as (Ht & Hh & Hc). simpl.
        rewrite lookup_insert_ne by done. by rewrite Ht, Hh, Hc.
      * intros _ _. unfold getContentEmbedding. simpl.
        rewrite lookup_insert_eq. simpl. apply Z.eqb_refl.
    + split; [by apply same_records_except_of_same|]. split; [exact Hcalm|].
      intros Hsvc _. destruct (Hsvc text) as [? Hs]. congruence.
Qed.





End PassFacts.

(** * A note after it is indexed or renamed *)

Section NoteSettles.
Context {num : Type}.
Variable host : Host num.
Variable settings : Settings.
Implicit Types (w : World num) (file : TFile) (d : EmbeddingDatabases num)
  (type : IndexType).

(** Indexing in one collection leaves the other two as they are. *)
Lemma indexOne_other_collections type file w :
  let w' := indexOne host type file w in
  (type ≠ titles → db_titles (db w') = db_titles (db w))
  ∧ (type ≠ headings → db_headings (db w') = db_headings (db w))
  ∧ (type ≠ content → db_content (db w') = db_content (db w)).
Proof.
  destruct type; simpl.
  - unfold indexTitle. destruct (is_current _ _ _); [done|].
    pose proof (kept_generate host (basename file) w) as [(Ht & Hh & Hc) _].
    destruct (generatePassageEmbedding host (basename file) w) as [[e|] w1];
      simpl in *; by rewrite ?Hh, ?Hc.
  - unfold indexHeadings. destruct (is_current _ _ _); [done|].
    destruct (fileCache_headings host file) as [[|h hs]|];
      try (destruct (getHeadingEmbedding _ _); by simpl).
    pose proof (kept_generate host (String.concat newline (h :: hs)) w)
      as [(Ht & Hh & Hc) _].
    destruct (generatePassageEmbedding host _ w) as [[e|] w1];
      simpl in *; by rewrite ?Ht, ?Hc.
  - unfold indexContent. destruct (is_current _ _ _); [done|].
    cbv zeta. rewrite truncated_text.
    pose proof (kept_trans _ _ _ (kept_yield w)
                  (kept_generate host (substring_to 3000 (cachedRead host file))
                     (yield w))) as [(Ht & Hh & Hc) _].
    destruct (generatePassageEmbedding host _ (yield w)) as [[e|] w1];
      simpl in *; by rewrite ?Ht, ?Hh.
Qed.

Lemma has_current_record_collection type file d d' :
  match type with
  | titles => db_titles d' = db_titles d
  | headings => db_headings d' = db_headings d
  | content => db_content d' = db_content d
  end →
  has_current_record type file d → has_current_record type file d'.
Proof.
  destruct type; unfold has_current_record, getTitleEmbedding, getHeadingEmbedding,
    getContentEmbedding; by intros ->.
Qed.

Lemma indexNote_stages file doSave w :
  indexNote host settings file doSave w
  = let w1 := if aiIndexTitles settings then indexOne host titles file w else w in
    let w2 := if aiIndexHeadings settings then indexOne host headings file w1 else w1 in
    let w3 := if aiIndexContent settings then indexOne host content file w2 else w2 in
    if doSave then save w3 else w3.
Proof. reflexivity. Qed.

Lemma indexNote_records file doSave w :
  service_answers host →
  (∀ type, wantedByUser settings type = true → expects_record host type file →
     has_current_record type file (db (indexNote host settings file doSave w)))
  ∧ same_records_except (path file) (db w) (db (indexNote host settings file doSave w)).
Proof.
  intros Hsvc. rewrite indexNote_stages. cbv zeta.
  set (w1 := if aiIndexTitles settings then indexOne host titles file w else w).
  set (w2 := if aiIndexHeadings settings then indexOne host headings file w1 else w1).
  set (w3 := if aiIndexContent settings then indexOne host content file w2 else w2).
  set (w4 := if doSave then save w3 else w3).
  assert (H34 : kept w3 w4).
  { subst w4. destruct doSave; [apply kept_save|apply kept_refl]. }
  destruct (indexOne_effect host titles file w) as (E1 & _ & C1).
  destruct (indexOne_effect host headings file w1) as (E2 & _ & C2).
  destruct (indexOne_effect host content file w2) as (E3 & _ & C3).
  destruct (indexOne_other_collections headings file w1) as (T2 & _ & _).
  destruct (indexOne_other_collections content file w2) as (T3 & H3 & _).
  specialize (T2 ltac:(done)). specialize (T3 ltac:(done)). specialize (H3 ltac:(done)).
  split.
  { intros type Hen Hexp.
    eapply has_current_record_same; [apply H34|].
    destruct type; simpl in Hen.
    - assert (has_current_record titles file (db w1)) as Hc1
        by (subst w1; rewrite Hen; by apply C1).
      assert (has_current_record titles file (db w2)) as Hc2.
      { subst w2. destruct (aiIndexHeadings settings); [|done].
        by eapply (has_current_record_collection titles). }
      subst w3. destruct (aiIndexContent settings); [|done].
      by eapply (has_current_record_collection titles).
    - assert (has_current_record headings file (db w2)) as Hc2
        by (subst w2; rewrite Hen; by apply C2).
      subst w3. destruct (aiIndexContent settings); [|done].
      by eapply (has_current_record_collection headings).
    - subst w3. rewrite Hen. by apply C3. }
  eapply same_records_except_trans;
    [|apply same_records_except_of_same, H34].
  eapply same_records_except_trans;
    [|subst w3; destruct (aiIndexContent settings);
      [exact E3|apply same_records_except_of_same, same_records_refl]].
  eapply same_records_except_trans;
    [|subst w2; destruct (aiIndexHeadings settings);
      [exact E2|apply same_records_except_of_same, same_records_refl]].
  subst w1; destruct (aiIndexTitles settings);
    [exact E1|apply same_records_except_of_same, same_records_refl].
Qed.

(** When the service answers, [indexNote] leaves a current record of the
    note in every enabled collection (for headings: when the note has a
    heading) and touches the records of no other path; with the three
    collections enabled and a note that has a heading, the note then needs no
    update, so that [updateNoteIfNeeded] does nothing. *)
Theorem indexNote_makes_current file doSave w :
  service_answers host →
  let w' := indexNote host settings file doSave w in
  (∀ type, wantedByUser settings type = true → expects_record host type file →
     has_current_record type file (db w'))
  ∧ same_records_except (path file) (db w) (db w')
  ∧ (aiIndexTitles settings = true → aiIndexHeadings settings = true →
     aiIndexContent settings = true → expects_record host headings file →
     updateNoteIfNeeded host settings file w' = w').
Proof.
  intros Hsvc w4.
  destruct (indexNote_records file doSave w Hsvc) as [Hcur Hex]. fold w4 in Hcur, Hex.
  clearbody w4.
  split; [exact Hcur|]. split; [exact Hex|].
  intros Ht Hh Hc Hexp.
  pose proof (Hcur titles Ht I) as Hct.
  pose proof (Hcur headings Hh Hexp) as Hch.
  pose proof (Hcur content Hc I) as Hcc.
  unfold updateNoteIfNeeded.
  replace (needsUpdate file (db w4)) with false; [done|].
  symmetry. apply not_true_iff_false. rewrite needsUpdate_true.
  unfold has_current_record, is_current in Hct, Hch, Hcc.
  unfold has_stale_record, has_no_record.
  destruct (getTitleEmbedding (path file) (db w4)) as [t|]; [|done].
  destruct (getHeadingEmbedding (path file) (db w4)) as [h|]; [|done].
  destruct (getContentEmbedding (path file) (db w4)) as [c|]; [|done].
  apply Z.eqb_eq in Hct, Hch, Hcc.
  intros [[(? & [= <-] & ?)|[(? & [= <-] & ?)|(? & [= <-] & ?)]]|(? & _)]; done.
Qed.


End NoteSettles.

(** * Saving and loading *)

Section Persistence.
Context {num : Type}.
Implicit Types (w : World num) (d e : EmbeddingDatabases num) (type : IndexType).

Lemma recoverStaleLock_keeps now type d :
  let d' := recoverStaleLock now type d in
  same_records d d' ∧ version d' = version d ∧ lastUpdate d' = lastUpdate d
  ∧ ∀ type', progress (getIndexingState type' d') = progress (getIndexingState type' d)
             ∧ total (getIndexingState type' d') = total (getIndexingState type' d)
             ∧ lastIndexed (getIndexingState type' d')
               = lastIndexed (getIndexingState type' d).
Proof.
  unfold recoverStaleLock.
  destruct (lastHeartbeat (getIndexingState type d)) as [hb|]; cbv zeta;
    repeat case_match; repeat split; try reflexivity;
    destruct type, type'; reflexivity.
Qed.

Lemma recoverStaleLock_idle now type d :
  isIndexing (getIndexingState type d) = false →
  lastHeartbeat (getIndexingState type d) ≠ None →
  recoverStaleLock now type d = d.
Proof.
  intros Hflag Hhb. unfold recoverStaleLock.
  destruct (lastHeartbeat (getIndexingState type d)); [|done].
  by rewrite Hflag.
Qed.

Lemma load_stored w e :
  disk w = Stored e → version e = "2.0.0"%string →
  load w = with_db (recoverStaleLock (clock w) content
                      (recoverStaleLock (clock w) headings
                         (recoverStaleLock (clock w) titles e))) w.
Proof. intros Hd Hv. unfold load. by rewrite Hd, Hv. Qed.

(** What [save] stored, [load] reads back, at any later time and from any
    state of the memory. *)
Lemma save_load_stored w w1 :
  version (db w) = "2.0.0"%string →
  disk w1 = disk (save w) →
  let saved := db (save w) in
  let loaded := db (load w1) in
  same_records saved loaded
  ∧ lastUpdate loaded = lastUpdate saved
  ∧ lowered saved loaded
  ∧ (∀ type,
       progress (getIndexingState type loaded) = progress (getIndexingState type saved)
       ∧ total (getIndexingState type loaded) = total (getIndexingState type saved)
       ∧ lastIndexed (getIndexingState type loaded)
         = lastIndexed (getIndexingState type saved))
  ∧ (isAnyIndexing saved = false →
     (∀ type, lastHeartbeat (getIndexingState type saved) ≠ None) →
     loaded = saved).
Proof.
  intros Hv Hdisk saved loaded.
  assert (Hsaved : disk w1 = Stored saved) by (rewrite Hdisk; apply synced_save).
  assert (Hvs : version saved = "2.0.0"%string).
  { unfold saved. destruct (handled_save w) as [_ _ _ Hver _ _]. by rewrite Hver. }
  assert (Hload : loaded = recoverStaleLock (clock w1) content
                    (recoverStaleLock (clock w1) headings
                       (recoverStaleLock (clock w1) titles saved))).
  { unfold loaded. by rewrite (load_stored w1 saved Hsaved Hvs). }
  set (d1 := recoverStaleLock (clock w1) titles saved) in *.
  set (d2 := recoverStaleLock (clock w1) headings d1) in *.
  destruct (recoverStaleLock_keeps (clock w1) titles saved) as (R1 & _ & U1 & S1).
  destruct (recoverStaleLock_keeps (clock w1) headings d1) as (R2 & _ & U2 & S2).
  destruct (recoverStaleLock_keeps (clock w1) content d2) as (R3 & _ & U3 & S3).
  fold d1 in R1, U1, S1. fold d2 in R2, U2, S2.
  rewrite Hload. split; [|split; [|split; [|split]]].
  - eapply same_records_trans; [|exact R3].
    eapply same_records_trans; [exact R1|exact R2].
  - congruence.
  - eapply lowered_trans; [|apply lowered_recoverStaleLock].
    eapply lowered_trans; apply lowered_recoverStaleLock.
  - intros type. destruct (S1 type) as (? & ? & ?), (S2 type) as (? & ? & ?),
      (S3 type) as (? & ? & ?). repeat split; congruence.
  - intros Hany Hhb. pose proof (proj1 (isAnyIndexing_false saved) Hany) as Hflags.
    unfold d2, d1.
    rewrite (recoverStaleLock_idle _ titles saved) by auto.
    rewrite (recoverStaleLock_idle _ headings saved) by auto.
    by rewrite (recoverStaleLock_idle _ content saved) by auto.
Qed.

Lemma current_version_step w w' : current_version w → step w w' → current_version w'.
Proof.
  intros [Hv Hd] Hstep. destruct Hstep as
    [type n w|type p w|p e w|p w|p e w|p w|p e w|p w|w|w|loaded w Hl|i w|w w' Hdb Hdk];
    try (split; [exact Hv|exact Hd]).
  - split; [reflexivity|exact Hd].
  - split; [exact Hv|]. intros e [= <-]. exact Hv.
  - split; [|exact Hd]. simpl.
    destruct (recoverStaleLock_keeps (clock w) titles loaded) as (_ & V1 & _).
    destruct (recoverStaleLock_keeps (clock w) headings
                (recoverStaleLock (clock w) titles loaded)) as (_ & V2 & _).
    destruct (recoverStaleLock_keeps (clock w) content
                (recoverStaleLock (clock w) headings
                   (recoverStaleLock (clock w) titles loaded))) as (_ & V3 & _).
    rewrite V3, V2, V1. by apply Hd.
  - destruct i as [| |ms]; simpl.
    + unfold cancelBackgroundIndexing. case_match; by split.
    + unfold cancelCleanup. destruct (cleanupTimers w); [by split|].
      split; [exact Hv|]. intros e [= <-]. exact Hv.
    + by split.
  - split; [by rewrite Hdb|]. by rewrite Hdk.
Qed.

(** Once [load] has run, the envelope in memory and the envelope in the
    file carry the version [load] accepts, and every step of the engine, so
    every operation, keeps it so: [load] never discards what [save] wrote as
    an old version. *)
Theorem current_version_kept (host : Host num) (settings : Settings) :
  (∀ w, version (db w) = "2.0.0"%string → current_version (load w))
  ∧ (∀ w w', current_version w → rtc step w w' → current_version w')
  ∧ (∀ op w w', current_version w → perform host settings op w = Some w' →
       current_version w')
  ∧ (∀ w e, current_version w → disk w = Stored e →
       same_records e (db (load w))).
Proof.
  assert (Hsteps : ∀ w w', current_version w → rtc step w w' → current_version w').
  { intros w w' Hcv Hrtc. induction Hrtc as [|w1 w2 w3 Hs _ IH]; [done|].
    apply IH. by eapply current_version_step. }
  split; [|split; [exact Hsteps|split]].
  - intros w Hv.
    assert (Hreset : current_version (reset w)).
    { apply (Hsteps (writeEnvelope (with_db (createEmptyDatabase (clock w)) w))).
      - split; [reflexivity|]. intros e [= <-]. reflexivity.
      - apply steps_yield. }
    unfold load. destruct (disk w) as [| |loaded] eqn:Hd.
    + exact Hreset.
    + split; [exact Hv|]. rewrite Hd. done.
    + destruct (String.eqb_spec (version loaded) "2.0.0") as [Hvl|Hvl]; [|exact Hreset].
      apply (Hsteps w).
      * split; [exact Hv|]. rewrite Hd. by intros e [= <-].
      * apply rtc_once. by apply step_read.
  - intros op w w' Hcv Hop. apply (Hsteps w w' Hcv).
    by eapply perform_steps.
  - intros w e [_ Hd] Hdisk. rewrite (load_stored w e Hdisk (Hd e Hdisk)). simpl.
    destruct (recoverStaleLock_keeps (clock w) titles e) as (R1 & _).
    destruct (recoverStaleLock_keeps (clock w) headings
                (recoverStaleLock (clock w) titles e)) as (R2 & _).
    destruct (recoverStaleLock_keeps (clock w) content
                (recoverStaleLock (clock w) headings
                   (recoverStaleLock (clock w) titles e))) as (R3 & _).
    eapply same_records_trans; [|exact R3].
    eapply same_records_trans; [exact R1|exact R2].
Qed.


End Persistence.

Lemma json_exact_db_same (d d' : EmbeddingDatabases float) :
  same_records d d' → json_exact_db d → json_exact_db d'.
Proof.
  intros (Ht & Hh & Hc) (Jt & Jh & Jc). unfold json_exact_db.
  by rewrite Ht, Hh, Hc in *.
Qed.

(** When every stored embedding holds only finite numbers other than -0,
    the numbers that the JSON file gives back as they were written, what
    [save] wrote, [load] reads back, at any later time and from any state of
    the memory: the records, [lastUpdate], the progress counters and
    [lastIndexed] are those that were saved, the embeddings read are again
    such numbers, no flag is set that was not saved, and when no flag was
    saved the envelope is the saved one. *)
Theorem save_load_round_trip (w w1 : World float) :
  json_exact_db (db w) →
  version (db w) = "2.0.0"%string →
  disk w1 = disk (save w) →
  let saved := db (save w) in
  let loaded := db (load w1) in
  same_records saved loaded
  ∧ json_exact_db loaded
  ∧ lastUpdate loaded = lastUpdate saved
  ∧ lowered saved loaded
  ∧ (∀ type,
       progress (getIndexingState type loaded) = progress (getIndexingState type saved)
       ∧ total (getIndexingState type loaded) = total (getIndexingState type saved)
       ∧ lastIndexed (getIndexingState type loaded)
         = lastIndexed (getIndexingState type saved))
  ∧ (isAnyIndexing saved = false →
     (∀ type, lastHeartbeat (getIndexingState type saved) ≠ None) →
     loaded = saved).
Proof.
  intros Hjson Hv Hdisk saved loaded.
  destruct (save_load_stored w w1 Hv Hdisk) as (Hrec & Hrest).
  split; [exact Hrec|]. split; [|exact Hrest].
  apply (json_exact_db_same saved); [exact Hrec|].
  apply (json_exact_db_same (db w)); [|exact Hjson].
  destruct (handled_save w) as [Ht Hh Hc _ _ _]. by repeat split.
Qed.

(** What the hypothesis leaves out: the file gives -0 back as 0 and a NaN
    or an infinity as null. *)
Example json_number_cases :
  json_number (-0)%float = Some 0%float
  ∧ json_number nan = None
  ∧ json_number infinity = None
  ∧ json_number 0x1p-1074%float = Some 0x1p-1074%float
  ∧ json_exact [1; 0]%float
  ∧ ¬ json_exact [(-0)%float].
Proof.
  repeat split. intros Hexact.
  apply (f_equal (λ l, match l with
                       | Some x :: _ => classify x
                       | _ => PZero
                       end)) in Hexact.
  vm_compute in Hexact. discriminate.
Qed.

(** * Statistics *)

Section StatsFacts.
Context {num : Type}.
Variable stringify : EmbeddingDatabases num → string.
Variable toLocaleString : Z → string.
Implicit Types (w : World num) (d : EmbeddingDatabases num) (type : IndexType).

Local Abbreviation stats_of := (getStats stringify toLocaleString).

Lemma totalNotes_zero d :
  totalNotes (stats_of d) = 0
  ↔ db_titles d = ∅ ∧ db_headings d = ∅ ∧ db_content d = ∅.
Proof.
  simpl.
  set (Pt := dom (db_titles d) : gset string).
  set (Ph := dom (db_headings d) : gset string).
  set (Pc := dom (db_content d) : gset string).
  assert (HT : size (db_titles d) = size Pt) by (symmetry; apply size_dom).
  assert (HH : size (db_headings d) = size Ph) by (symmetry; apply size_dom).
  assert (HC : size (db_content d) = size Pc) by (symmetry; apply size_dom).
  assert (LT : (size Pt ≤ size (Pt ∪ Ph ∪ Pc))%nat) by (apply subseteq_size; set_solver).
  assert (LH : (size Ph ≤ size (Pt ∪ Ph ∪ Pc))%nat) by (apply subseteq_size; set_solver).
  assert (LC : (size Pc ≤ size (Pt ∪ Ph ∪ Pc))%nat) by (apply subseteq_size; set_solver).
  split.
  - intros Hz.
    assert (size (db_titles d) = 0%nat ∧ size (db_headings d) = 0%nat
            ∧ size (db_content d) = 0%nat) as (Zt & Zh & Zc) by lia.
    by rewrite <- !map_size_empty_iff.
  - intros (Et & Eh & Ec). unfold Pt, Ph, Pc. rewrite Et, Eh, Ec, !dom_empty_L.
    rewrite !union_empty_l_L, size_empty. done.
Qed.

(** [totalNotes] counts the paths that have a record in some collection:
    it is at least the size of each collection, at most the sum of the three
    sizes, and zero exactly when the three collections are empty. *)
Theorem getStats_totalNotes d :
  let stats := stats_of d in
  (∃ paths : gset string,
     totalNotes stats = Z.of_nat (size paths) ∧ ∀ p, p ∈ paths ↔ has_record p d)
  ∧ titlesIndexed stats ≤ totalNotes stats
  ∧ headingsIndexed stats ≤ totalNotes stats
  ∧ contentIndexed stats ≤ totalNotes stats
  ∧ totalNotes stats
    ≤ titlesIndexed stats + headingsIndexed stats + contentIndexed stats
  ∧ (totalNotes stats = 0
     ↔ db_titles d = ∅ ∧ db_headings d = ∅ ∧ db_content d = ∅).
Proof.
  simpl.
  set (Pt := dom (db_titles d) : gset string).
  set (Ph := dom (db_headings d) : gset string).
  set (Pc := dom (db_content d) : gset string).
  assert (HT : size (db_titles d) = size Pt) by (symmetry; apply size_dom).
  assert (HH : size (db_headings d) = size Ph) by (symmetry; apply size_dom).
  assert (HC : size (db_content d) = size Pc) by (symmetry; apply size_dom).
  rewrite HT, HH, HC.
  assert (LT : (size Pt ≤ size (Pt ∪ Ph ∪ Pc))%nat) by (apply subseteq_size; set_solver).
  assert (LH : (size Ph ≤ size (Pt ∪ Ph ∪ Pc))%nat) by (apply subseteq_size; set_solver).
  assert (LC : (size Pc ≤ size (Pt ∪ Ph ∪ Pc))%nat) by (apply subseteq_size; set_solver).
  assert (LS : (size (Pt ∪ Ph ∪ Pc) ≤ size Pt + size Ph + size Pc)%nat).
  { rewrite (size_union_alt (Pt ∪ Ph) Pc), (size_union_alt Pt Ph).
    assert (L1 : (size (Pc ∖ (Pt ∪ Ph)) ≤ size Pc)%nat)
      by (apply subseteq_size, subseteq_difference_l; done).
    assert (L2 : (size (Ph ∖ Pt) ≤ size Ph)%nat)
      by (apply subseteq_size, subseteq_difference_l; done).
    lia. }
  split; [|split; [lia|split; [lia|split; [lia|split; [lia|]]]]].
  - exists (Pt ∪ Ph ∪ Pc). split; [done|]. intros p.
    unfold has_record, getTitleEmbedding, getHeadingEmbedding, getContentEmbedding, Pt, Ph, Pc.
    rewrite !elem_of_union, !elem_of_dom. tauto.
  - exact (totalNotes_zero d).
Qed.

(** The statistics report indexing exactly when some flag is set; the
    type they report has its flag set and the progress and total reported are
    its own; when at most one flag is set, the type reported is the one whose
    flag is set. *)
Theorem getStats_active d :
  let stats := stats_of d in
  s_isIndexing stats = isAnyIndexing d
  ∧ (∀ type, currentIndexingType stats = Some type →
       isIndexing (getIndexingState type d) = true
       ∧ currentIndexingProgress stats = progress (getIndexingState type d)
       ∧ totalIndexingItems stats = total (getIndexingState type d))
  ∧ (currentIndexingType stats = None →
       currentIndexingProgress stats = 0 ∧ totalIndexingItems stats = 0)
  ∧ (atMostOneIndexing d → ∀ type,
       isIndexing (getIndexingState type d) = true →
       currentIndexingType stats = Some type).
Proof.
  unfold getStats, isAnyIndexing, atMostOneIndexing.
  cbn [s_isIndexing currentIndexingType currentIndexingProgress totalIndexingItems
       List.find].
  destruct (isIndexing (getIndexingState titles d)) eqn:Ft;
    [|destruct (isIndexing (getIndexingState headings d)) eqn:Fh;
      [|destruct (isIndexing (getIndexingState content d)) eqn:Fc]]; cbn [orb].
  - split; [by apply bool_decide_eq_true_2|]. split; [by intros ? [= <-]|].
    split; [done|]. intros Hone type Hflag. f_equal. by apply Hone.
  - split; [by apply bool_decide_eq_true_2|]. split; [by intros ? [= <-]|].
    split; [done|]. intros Hone type Hflag. f_equal. by apply Hone.
  - split; [by apply bool_decide_eq_true_2|]. split; [by intros ? [= <-]|].
    split; [done|]. intros Hone type Hflag. f_equal. by apply Hone.
  - split; [by apply bool_decide_eq_false_2; intros []|]. split; [done|].
    split; [done|]. intros Hone type Hflag. destruct type; congruence.
Qed.

End StatsFacts.

(** * The check at startup *)

Section StartupCheck.
Context {num : Type}.
Variable host : Host num.
Variable settings : Settings.
Variable stringify : EmbeddingDatabases num → string.
Variable toLocaleString : Z → string.
Implicit Types (w : World num) (d : EmbeddingDatabases num) (type : IndexType).

Lemma handled_lowered w w' : handled w w' → lowered (db w) (db w').
Proof. intros [_ _ _ _ Hst _] type. by destruct (Hst type) as (_ & _ & _ & _ & ?). Qed.

Lemma lowered_same_states d d' :
  indexingStates d' = indexingStates d → lowered d d'.
Proof. intros Heq type. unfold getIndexingState. by rewrite Heq. Qed.

Lemma lowered_generate text w :
  lowered (db w) (db (generatePassageEmbedding host text w).2).
Proof.
  simpl. eapply lowered_trans; [|apply handled_lowered, handled_yield].
  apply lowered_refl.
Qed.

Lemma lowered_indexOne type file w : lowered (db w) (db (indexOne host type file w)).
Proof.
  destruct type; simpl.
  - unfold indexTitle. destruct (is_current _ _ _); [apply lowered_refl|].
    pose proof (lowered_generate (basename file) w) as Hl.
    destruct (generatePassageEmbedding host (basename file) w) as [[e|] w1];
      simpl in *; [|exact Hl].
    eapply lowered_trans; [exact Hl|]. by apply lowered_same_states.
  - unfold indexHeadings. destruct (is_current _ _ _); [apply lowered_refl|].
    destruct (fileCache_headings host file) as [[|h hs]|];
      try (destruct (getHeadingEmbedding _ _); [by apply lowered_same_states|
                                                apply lowered_refl]).
    pose proof (lowered_generate (String.concat newline (h :: hs)) w) as Hl.
    destruct (generatePassageEmbedding host _ w) as [[e|] w1];
      simpl in *; [|exact Hl].
    eapply lowered_trans; [exact Hl|]. by apply lowered_same_states.
  - unfold indexContent. destruct (is_current _ _ _); [apply lowered_refl|].
    cbv zeta. rewrite truncated_text.
    pose proof (lowered_trans _ _ _ (handled_lowered _ _ (handled_yield w))
                  (lowered_generate (substring_to 3000 (cachedRead host file))
                     (yield w))) as Hl.
    destruct (generatePassageEmbedding host _ (yield w)) as [[e|] w1];
      simpl in *; [|exact Hl].
    eapply lowered_trans; [exact Hl|]. by apply lowered_same_states.
Qed.

Lemma lowered_fold_indexOne type chunk w :
  lowered (db w) (db (fold_left (λ w file, indexOne host type file w) chunk w)).
Proof.
  revert w. induction chunk as [|f chunk IH]; intros w; simpl; [apply lowered_refl|].
  eapply lowered_trans; [apply lowered_indexOne|apply IH].
Qed.

Lemma lowered_emit ev w : lowered (db w) (db (emit ev w)).
Proof. intros t Hflag. exact Hflag. Qed.

Lemma lowered_trigger type a b w :
  lowered (db w) (db (triggerIndexingUpdate type a b w)).
Proof. intros t Hflag. exact Hflag. Qed.

Lemma lowered_save w : lowered (db w) (db (save w)).
Proof. apply handled_lowered, handled_save. Qed.

Lemma lowered_sleep ms w : lowered (db w) (db (sleep ms w)).
Proof.
  unfold sleep. eapply lowered_trans; [|apply handled_lowered, handled_yield].
  intros t Hflag. exact Hflag.
Qed.

Lemma lowered_state type p w :
  p_isIndexing p ≠ Some true →
  lowered (db w) (db (update_db (setIndexingState type p) w)).
Proof. apply lowered_set. Qed.

Lemma lowered_progressCallback type onProgress a b w :
  lowered (db w) (db (progressCallback type onProgress a b w)).
Proof. unfold progressCallback. destruct onProgress; intros t Hflag; exact Hflag. Qed.

Lemma lowered_chunkLoop type onProgress files fuel :
  ∀ i indexed w w',
    chunkLoop host fuel type files (Some (progressCallback type onProgress)) i indexed w
    = Some w' →
    lowered (db w) (db w').
Proof.
  induction fuel as [|fuel IH]; intros i indexed w w'; [done|].
  rewrite chunkLoop_unfold. cbv zeta.
  destruct (i <? length files)%nat; [|intros [= <-]; apply lowered_refl].
  destruct (cancelIndexing w); [intros [= <-]; apply lowered_refl|].
  intros Hloop. apply IH in Hloop. eapply lowered_trans; [|exact Hloop]. clear Hloop.
  eapply lowered_trans;
    [|case_match;
      [eapply lowered_trans; [apply lowered_save|apply lowered_trigger]
      |apply lowered_refl]].
  eapply lowered_trans; [|apply lowered_progressCallback].
  eapply lowered_trans; [|by apply lowered_state].
  eapply lowered_trans; [|apply lowered_fold_indexOne].
  apply lowered_sleep.
Qed.

Lemma lowered_completeIndexing type w : lowered (db w) (db (completeIndexing type w)).
Proof.
  unfold completeIndexing.
  eapply lowered_trans; [|by apply lowered_state].
  eapply lowered_trans; [|apply lowered_emit].
  eapply lowered_trans; [|apply lowered_trigger].
  eapply lowered_trans; [|apply lowered_save].
  by apply lowered_state.
Qed.

Lemma indexSpecificType_total type onProgress w :
  is_Some (indexSpecificType host type onProgress w).
Proof.
  unfold indexSpecificType. destruct (isAnyIndexing (db w)); [done|].
  unfold indexAll.
  destruct (chunkLoop_total host type (getMarkdownFiles host)
              (Some (progressCallback type onProgress))
              (S (length (getMarkdownFiles host))) 0 0
              (save (markIndexing type (Z.of_nat (length (getMarkdownFiles host))) w)))
    as [w1 ->]; [lia|done].
Qed.

(** A call that finds a flag set changes nothing; a call that takes the
    lock returns with no flag set. *)
Lemma indexSpecificType_result type onProgress w w' :
  indexSpecificType host type onProgress w = Some w' →
  if isAnyIndexing (db w) then w' = w else isAnyIndexing (db w') = false.
Proof.
  unfold indexSpecificType. destruct (isAnyIndexing (db w)) eqn:Hany; [by intros [= <-]|].
  set (files := getMarkdownFiles host).
  set (m := markIndexing type (Z.of_nat (length files)) w).
  unfold indexAll. destruct (chunkLoop _ _ _ _ _ _ _ _) as [w1|] eqn:Hloop; [|done].
  intros [= <-]. apply isAnyIndexing_false. intros t.
  destruct (decide (t = type)) as [->|Hne].
  - destruct (completeIndexing_records type w1) as (-> & _). reflexivity.
  - apply not_true_iff_false. intros Hflag.
    apply lowered_completeIndexing in Hflag.
    apply (lowered_chunkLoop _ _ _ _ _ _ _ _ Hloop) in Hflag.
    apply (handled_lowered _ _ (handled_save m)) in Hflag.
    unfold m in Hflag. simpl in Hflag. rewrite getIndexingState_set_ne in Hflag by done.
    pose proof (proj1 (isAnyIndexing_false (db w)) Hany t). congruence.
Qed.

Lemma checkOne_result snapshot stats type w :
  lowered snapshot (db w) →
  ∃ w', checkOne host settings snapshot stats type w = Some w'
        ∧ lowered (db w) (db w')
        ∧ (wantedByUser settings type = true →
           isIndexing (getIndexingState type (db w')) = false).
Proof.
  intros Hsnap. unfold checkOne.
  destruct (wantedByUser settings type) eqn:Hen; simpl; cycle 1.
  { exists w. split; [done|]. split; [apply lowered_refl|done]. }
  set (w1 := if isIndexing (getIndexingState type snapshot)
             then update_db (setIndexingState type release) w else w).
  assert (H1 : lowered (db w) (db w1)).
  { unfold w1. destruct (isIndexing _); [by apply lowered_set|apply lowered_refl]. }
  assert (F1 : isIndexing (getIndexingState type (db w1)) = false).
  { unfold w1. destruct (isIndexing (getIndexingState type snapshot)) eqn:Hlock.
    - simpl. by rewrite getIndexingState_set.
    - apply not_true_iff_false. intros Hflag. apply Hsnap in Hflag. congruence. }
  assert (Hrun : ∃ w', indexSpecificType host type false w1 = Some w'
                       ∧ lowered (db w) (db w')
                       ∧ isIndexing (getIndexingState type (db w')) = false).
  { destruct (indexSpecificType_total type false w1) as [w' Hw']. exists w'.
    split; [exact Hw'|]. apply indexSpecificType_result in Hw'.
    destruct (isAnyIndexing (db w1)).
    - subst w'. done.
    - pose proof (proj1 (isAnyIndexing_false (db w')) Hw') as Hnone.
      split; [|apply Hnone]. intros t Hflag. rewrite Hnone in Hflag. done. }
  destruct Hrun as (w' & Hw' & Hl' & Hf').
  repeat case_match;
    first [exists w'; split; [done|]; split; [done|]; by intros _
          |exists w1; split; [done|]; split; [done|]; by intros _].
Qed.

(** The check at startup always returns. On a clean first run (no flag,
    no record) it does nothing. Otherwise it ends with a save, and no
    collection the user has enabled is left with its flag set, in memory or
    in the file; it never sets a flag that was not set. *)
Theorem checkStateConsistency_releases w :
  ∃ w', checkStateConsistency host settings stringify toLocaleString w = Some w'
    ∧ lowered (db w) (db w')
    ∧ (isAnyIndexing (db w) = false →
       db_titles (db w) = ∅ ∧ db_headings (db w) = ∅ ∧ db_content (db w) = ∅ →
       w' = w)
    ∧ (isAnyIndexing (db w) = true
       ∨ ¬ (db_titles (db w) = ∅ ∧ db_headings (db w) = ∅ ∧ db_content (db w) = ∅) →
       synced w'
       ∧ ∀ type, wantedByUser settings type = true →
           isIndexing (getIndexingState type (db w')) = false).
Proof.
  unfold checkStateConsistency. cbv zeta.
  fold (isAnyIndexing (db w)).
  pose proof (totalNotes_zero stringify toLocaleString (db w)) as Hzero.
  destruct (negb (isAnyIndexing (db w)) && (totalNotes _ =? 0)) eqn:Hclean.
  { apply andb_true_iff in Hclean as [Hany%negb_true_iff Hz%Z.eqb_eq].
    exists w. split; [done|]. split; [apply lowered_refl|]. split; [done|].
    intros [Hany'|Hrec]; [congruence|]. destruct Hrec. by apply Hzero. }
  set (stats := getStats stringify toLocaleString (db w)) in *.
  destruct (checkOne_result (db w) stats titles w (lowered_refl _))
    as (w1 & -> & L1 & F1).
  destruct (checkOne_result (db w) stats headings w1 L1) as (w2 & E2 & L2 & F2).
  destruct (checkOne_result (db w) stats content w2 (lowered_trans _ _ _ L1 L2))
    as (w3 & E3 & L3 & F3).
  simpl. rewrite E2. simpl. rewrite E3. simpl.
  exists (save w3).
  assert (L4 : lowered (db w3) (db (save w3))) by apply handled_lowered, handled_save.
  split; [done|]. split.
  { eapply lowered_trans; [exact L1|]. eapply lowered_trans; [exact L2|].
    eapply lowered_trans; [exact L3|exact L4]. }
  split.
  { intros Hany Hempty. apply Hzero in Hempty.
    rewrite Hany, Hempty in Hclean. done. }
  intros _. split; [apply synced_save|].
  intros type Hen. apply not_true_iff_false. intros Hflag. apply L4 in Hflag.
  destruct type.
  - apply L3, L2 in Hflag. rewrite F1 in Hflag; done.
  - apply L3 in Hflag. rewrite F2 in Hflag; done.
  - rewrite F3 in Hflag; done.
Qed.

(** A flag held by a collection the user has disabled is not released at
    startup, and while it is set no enabled collection is indexed: the check
    does nothing but save. *)
Theorem checkStateConsistency_blocked w locked :
  atMostOneIndexing (db w) →
  isIndexing (getIndexingState locked (db w)) = true →
  wantedByUser settings locked = false →
  checkStateConsistency host settings stringify toLocaleString w = Some (save w).
Proof.
  intros Hone Hlock Hoff.
  assert (Hany : isAnyIndexing (db w) = true).
  { apply not_false_iff_true. intros Hnone.
    pose proof (proj1 (isAnyIndexing_false (db w)) Hnone locked). congruence. }
  assert (Hcheck : ∀ stats type, checkOne host settings (db w) stats type w = Some w).
  { intros stats type. unfold checkOne.
    destruct (wantedByUser settings type) eqn:Hen; [|done]. simpl.
    assert (Hfree : isIndexing (getIndexingState type (db w)) = false).
    { apply not_true_iff_false. intros Hflag.
      assert (type = locked) by (by apply Hone). congruence. }
    rewrite Hfree. simpl.
    assert (Hrefused : indexSpecificType host type false w = Some w).
    { unfold indexSpecificType. by rewrite Hany. }
    rewrite Hrefused. by repeat case_match. }
  unfold checkStateConsistency. cbv zeta. fold (isAnyIndexing (db w)).
  rewrite Hany. simpl. rewrite Hcheck. simpl. rewrite Hcheck. simpl.
  rewrite Hcheck. reflexivity.
Qed.

End StartupCheck.

(** * The inference client: requests and their settlement *)

Section ClientFacts.
Import AIWorkerService AIWorkerClient.
Context {num : Type}.
Implicit Types (s : AIWorkerService.t) (c : ClientCall num)
  (cs : list (ClientCall num)).

Lemma pending_delete_elem_of k k' pending :
  k ∈ pending_delete k' pending ↔ k ∈ pending ∧ k ≠ k'.
Proof. unfold pending_delete. rewrite list_elem_of_filter. tauto. Qed.

Lemma pending_delete_NoDup k pending : NoDup pending → NoDup (pending_delete k pending).
Proof. apply NoDup_filter. Qed.

(** One call: what it settles was pending and is pending no more, and what
    is pending afterwards was pending or has just been requested. *)
Lemma call_effect c s :
  NoDup (pendingRequests s) →
  let '(s1, settled) := call c s in
  NoDup (settled_id <$> settled)
  ∧ NoDup (pendingRequests s1)
  ∧ (∀ k, k ∈ settled_id <$> settled → k ∈ pendingRequests s ∧ k ∉ pendingRequests s1)
  ∧ (∀ k, k ∈ pendingRequests s1 → k ∈ pendingRequests s ∨ request_id c = Some k).
Proof.
  intros Hnd.
  assert (Hreq : ∀ k, request_id c = Some k →
            let '(s1, settled) :=
              match (if negb (worker s) || negb (isReady s)
                     then Throw "Worker not ready -> First try initialize()."
                     else Ok (with_pending (pending_set k (pendingRequests s)) s))
              with
              | Ok s' => (s', ([] : list (Settlement num)))
              | Throw _ => (s, [])
              end in
            NoDup (settled_id <$> settled)
            ∧ NoDup (pendingRequests s1)
            ∧ (∀ k', k' ∈ settled_id <$> settled →
                 k' ∈ pendingRequests s ∧ k' ∉ pendingRequests s1)
            ∧ (∀ k', k' ∈ pendingRequests s1 →
                 k' ∈ pendingRequests s ∨ request_id c = Some k')).
  { intros k Hk. destruct (negb (worker s) || negb (isReady s)); simpl.
    - split; [constructor|]. split; [done|]. split; [by intros ? ?%elem_of_nil|auto].
    - split; [constructor|]. unfold pending_set. case_bool_decide as Hin.
      + split; [done|]. split; [by intros ? ?%elem_of_nil|auto].
      + split; [|split; [by intros ? ?%elem_of_nil|]].
        * apply NoDup_app. split; [done|]. split; [|apply NoDup_singleton].
          by intros x Hx ->%list_elem_of_singleton.
        * intros k' [?| ->%list_elem_of_singleton]%elem_of_app; auto. }
  assert (Htimer : ∀ k msg,
            let '(s1, settled) :=
              (if bool_decide (k ∈ pendingRequests s)
               then (with_pending (pending_delete k (pendingRequests s)) s,
                     [Rejected (num:=num) k msg])
               else (s, [])) in
            NoDup (settled_id <$> settled)
            ∧ NoDup (pendingRequests s1)
            ∧ (∀ k', k' ∈ settled_id <$> settled →
                 k' ∈ pendingRequests s ∧ k' ∉ pendingRequests s1)
            ∧ (∀ k', k' ∈ pendingRequests s1 →
                 k' ∈ pendingRequests s ∨ request_id c = Some k')).
  { intros k msg. case_bool_decide as Hin; simpl.
    - split; [apply NoDup_singleton|].
      split; [by apply pending_delete_NoDup|]. split.
      + intros k' ->%list_elem_of_singleton.
        split; [done|]. rewrite pending_delete_elem_of. tauto.
      + intros k' [? _]%pending_delete_elem_of. auto.
    - split; [constructor|]. split; [done|].
      split; [by intros ? ?%elem_of_nil|auto]. }
  destruct c as [stamp text tt|stamp texts|data|k|k|now msg].
  - exact (Hreq (embedId stamp) eq_refl).
  - exact (Hreq (batchId stamp) eq_refl).
  - clear Hreq Htimer.
    destruct data as [| |k success embedding err| |err|]; simpl;
      try (split; [constructor|]; split; [done|];
           split; [by intros ? ?%elem_of_nil|auto]).
    + case_bool_decide as Hin; simpl.
      * split; [destruct success; apply NoDup_singleton|].
        split; [by apply pending_delete_NoDup|]. split.
        -- intros k' Hk'. assert (k' = k) as ->.
           { destruct success; by apply list_elem_of_singleton in Hk'. }
           split; [done|]. rewrite pending_delete_elem_of. tauto.
        -- intros k' [? _]%pending_delete_elem_of. auto.
      * split; [constructor|]. split; [done|].
        split; [by intros ? ?%elem_of_nil|auto].
    + rewrite <- list_fmap_compose. simpl.
      split; [by rewrite list_fmap_id|]. split; [constructor|]. split.
      * intros k Hk. rewrite list_fmap_id in Hk. split; [done|apply not_elem_of_nil].
      * by intros ? ?%elem_of_nil.
  - exact (Htimer k _).
  - exact (Htimer k _).
  - clear Hreq Htimer. simpl.
    unfold crashRejections. rewrite <- list_fmap_compose. simpl.
    assert (Hp : pendingRequests (handleWorkerError now s).1 = []).
    { unfold handleWorkerError. by repeat case_match. }
    rewrite Hp, list_fmap_id.
    split; [done|]. split; [constructor|]. split.
    + intros k Hk. split; [done|apply not_elem_of_nil].
    + by intros ? ?%elem_of_nil.
Qed.

Lemma requested_cons c cs :
  requested (c :: cs)
  = match request_id c with Some k => k :: requested cs | None => requested cs end.
Proof. reflexivity. Qed.

Lemma elem_of_requested_cons k c cs :
  k ∈ requested (c :: cs) ↔ request_id c = Some k ∨ k ∈ requested cs.
Proof.
  rewrite requested_cons. destruct (request_id c) as [k'|].
  - rewrite elem_of_cons. split; [intros [->|?]; auto|intros [[= ->]|?]; auto].
  - split; [auto|intros [?|?]; done].
Qed.

Lemma NoDup_requested_cons c cs :
  NoDup (requested (c :: cs)) →
  NoDup (requested cs) ∧ ∀ k, request_id c = Some k → k ∉ requested cs.
Proof.
  rewrite requested_cons. destruct (request_id c) as [k'|]; [|by split].
  intros [? ?]%NoDup_cons. split; [done|]. by intros k [= ->].
Qed.

Lemma run_settled_once cs s :
  NoDup (pendingRequests s ++ requested cs) →
  NoDup (settled_id <$> (run cs s).2)
  ∧ ∀ k, k ∈ settled_id <$> (run cs s).2 → k ∈ pendingRequests s ++ requested cs.
Proof.
  revert s. induction cs as [|c cs IH]; intros s Hnd.
  { simpl. split; [constructor|]. by intros ? ?%elem_of_nil. }
  cbn [run]. cbv zeta.
  apply NoDup_app in Hnd as (Hp & Hdisj & Hr).
  apply NoDup_requested_cons in Hr as [Hr Hfresh].
  pose proof (call_effect c s Hp) as Hcall.
  destruct (call c s) as [s1 settled1].
  destruct Hcall as (N1 & P1 & S1 & F1).
  assert (Hnd1 : NoDup (pendingRequests s1 ++ requested cs)).
  { apply NoDup_app. split; [done|]. split; [|done].
    intros k Hk Hk'. destruct (F1 k Hk) as [Hold|Hc].
    - apply (Hdisj k Hold). apply elem_of_requested_cons. by right.
    - by apply (Hfresh k). }
  specialize (IH s1 Hnd1). destruct (run cs s1) as [s2 settled2].
  cbn [snd] in IH |- *. destruct IH as (N2 & S2).
  rewrite fmap_app. split.
  - apply NoDup_app. split; [done|]. split; [|done].
    intros k Hk1 Hk2. destruct (S1 k Hk1) as [Hold Hgone].
    apply S2 in Hk2. apply elem_of_app in Hk2 as [?|Hreq]; [done|].
    apply (Hdisj k Hold). apply elem_of_requested_cons. by right.
  - intros k [Hk|Hk]%elem_of_app.
    + apply elem_of_app. left. by apply S1.
    + apply S2 in Hk. rewrite elem_of_app, elem_of_requested_cons.
      apply elem_of_app in Hk as [Hk|Hk]; [|tauto].
      destruct (F1 k Hk); tauto.
Qed.


(** Along any run of requests, batch requests, messages, timers and
    crashes in which no request id is used twice, every request is settled
    at most once: by its result, by its time-out, by an error message or by
    a crash, whichever comes first. What is settled was requested. *)
Theorem request_settled_once cs s :
  NoDup (pendingRequests s ++ requested cs) →
  let settled := (run cs s).2 in
  NoDup (settled_id <$> settled)
  ∧ ∀ k, k ∈ settled_id <$> settled → k ∈ pendingRequests s ++ requested cs.
Proof.
  intros Hnd settled. subst settled.
  destruct (run_settled_once cs s Hnd) as [Hnodup Hrequested].
  split; [exact Hnodup|exact Hrequested].
Qed.

(** After a crash the client is not ready, and neither the restart it
    schedules nor any later crash, restart or call of [initialize] makes it
    ready again, because the worker object is kept and [initialize] returns
    at once when there is one; [forceReset] discards the object and starts a
    new one. (The events are crashes and restart timers: a
    'transformers-loaded' message of the old worker is not among them.) *)
Theorem crashed_worker_stays_down now s es :
  worker s = true →
  let s' := fold_left handle es (fst (handleWorkerError now s)) in
  isWorkerReady s' = false
  ∧ (∀ o, initialize o s' = (Some false, s'))
  ∧ (forceReset BecomesReady s').1 = Some true
  ∧ isWorkerReady (forceReset BecomesReady s').2 = true.
Proof.
  intros Hw s'.
  assert (Hinv : worker s' = true ∧ isReady s' = false).
  { subst s'. generalize (handleWorkerError_worker now s), (handleWorkerError_not_ready now s).
    rewrite Hw. generalize (handleWorkerError now s).1. clear.
    induction es as [|e es IH]; intros s0 Hw0 Hr0; simpl; [done|].
    apply IH; destruct e as [now|o]; simpl.
    - by rewrite handleWorkerError_worker.
    - by rewrite restartCallback_stopped.
    - apply handleWorkerError_not_ready.
    - by rewrite restartCallback_stopped. }
  destruct Hinv as [Hw' Hr']. split; [|split; [|split]].
  - unfold isWorkerReady. by rewrite Hr'.
  - intros o. unfold initialize. by rewrite Hw', Hr'.
  - reflexivity.
  - reflexivity.
Qed.

End ClientFacts.

(** * The inference service *)

Section ServiceFacts.
Import AIService AIServiceCalls.
Context {num : Type}.
Implicit Types (e : env).



(** When the automatic load at startup returns, the status is 'ready'
    exactly when the client's worker is ready, and otherwise 'error'; the
    status stored in the settings is the status of the service. It does not
    return exactly when a new worker never reports ready. (A client is ready
    only while it has a worker.) *)
Theorem autoLoad_status o e :
  (AIWorkerService.isReady (aiWorkerService (service e)) = true →
   AIWorkerService.worker (aiWorkerService (service e)) = true) →
  (autoLoad o e = None
   ↔ AIWorkerService.worker (aiWorkerService (service e)) = false
     ∧ o = AIWorkerService.NeverReady)
  ∧ ∀ e', autoLoad o e = Some e' →
      (status (service e') = ready
       ↔ AIWorkerService.isWorkerReady (aiWorkerService (service e')) = true)
      ∧ (status (service e') = ready ∨ status (service e') = error)
      ∧ aiState e' = Some (getStatus e').
Proof.
  unfold autoLoad, initializeXenova, AIWorkerService.initialize, loadModel,
    AIWorkerService.isWorkerReady.
  destruct e as [[st msg [wk rd pend att last]] ai evs].
  destruct wk, rd, o; simpl; intros Hwf; try (by specialize (Hwf eq_refl)); split.
  all: try (split; [intros Hnone; first [discriminate Hnone|split; reflexivity]
                   |intros [Hw Ho]; first [discriminate Hw|discriminate Ho|reflexivity]]).
  all: intros e' Hload; try discriminate Hload; injection Hload as <-; simpl.
  all: split; [split; intros Heq; first [discriminate Heq|reflexivity]|].
  all: split; [auto|reflexivity].
Qed.

End ServiceFacts.

(** * The worker *)

Lemma prefix_append (s t : string) : String.prefix s (s +:+ t) = true.
Proof.
  induction s as [|a s IH]; simpl; [by destruct t|].
  by destruct (ascii_dec a a).
Qed.

(** The text the worker embeds always begins with 'query: ' or with
    'passage: '; a text that already begins with one of the two is embedded
    as it is, whatever the type asked for, and any other text gets the prefix
    of the type asked for. *)
Theorem processedText_prefix text textType :
  let r := processedText text textType in
  (String.prefix "query: " r || String.prefix "passage: " r = true)
  ∧ (String.prefix "query: " text || String.prefix "passage: " text = true → r = text)
  ∧ (String.prefix "query: " text || String.prefix "passage: " text = false →
     r = textTypeName textType +:+ ": " +:+ text)
  ∧ ∀ textType', processedText r textType' = r.
Proof.
  intros r.
  assert (Hcases : (String.prefix "query: " text || String.prefix "passage: " text = true
                    ∧ r = text)
                   ∨ (String.prefix "query: " text || String.prefix "passage: " text = false
                      ∧ r = textTypeName textType +:+ ": " +:+ text)).
  { subst r. unfold processedText.
    destruct (String.prefix "query: " text), (String.prefix "passage: " text); auto. }
  assert (Hr : String.prefix "query: " r || String.prefix "passage: " r = true).
  { destruct Hcases as [[H ->]|[_ ->]]; [exact H|]. destruct textType.
    - apply orb_true_iff. left. apply (prefix_append "query: " text).
    - apply orb_true_iff. right. apply (prefix_append "passage: " text). }
  split; [exact Hr|]. split; [|split].
  - intros H. destruct Hcases as [[_ ?]|[H' _]]; [done|congruence].
  - intros H. destruct Hcases as [[H' _]|[_ ?]]; [congruence|done].
  - intros textType'. unfold processedText.
    destruct (String.prefix "query: " r), (String.prefix "passage: " r); done.
Qed.

(** * The client and the worker *)

Section BatchFacts.
Import AIWorkerService AIWorkerClient AIWorker.
Context {num : Type}.
Implicit Types (s : AIWorkerService.t) (c : ClientCall num)
  (cs : list (ClientCall num)) (r : Settlement num).




Lemma run_cons c cs s :
  run (c :: cs) s = ((run cs (call c s).1).1, (call c s).2 ++ (run cs (call c s).1).2).
Proof.
  cbn [run]. destruct (call c s) as [s1 l1]. cbn [fst snd].
  by destruct (run cs s1).
Qed.







Lemma pending_delete_set k pending :
  k ∉ pending → pending_delete k (pending_set k pending) = pending.
Proof.
  intros Hk. unfold pending_set, pending_delete.
  rewrite bool_decide_eq_false_2 by done.
  rewrite filter_app, filter_cons_False, filter_nil, app_nil_r by (intros ?; done).
  induction pending as [|k' pending IH]; [done|].
  apply not_elem_of_cons in Hk as [Hne Hk].
  rewrite filter_cons_True by done. f_equal. by apply IH.
Qed.

(** One request for an embedding, from the call of the client to the
    settlement of its promise by the messages the worker posts in handling
    it. When the pipeline is loaded, or loads, the promise is settled by the
    model's outcome on the text with its prefix, and nothing else is settled.
    When the pipeline has to be loaded and fails to load, the 'error'
    message the worker posts first rejects every pending request, this one
    included, with the message of the failure. *)
Theorem request_answered stamp text textType o
    (model : string → ExtractorOutcome num) k s :
  isWorkerReady s = true →
  embedId stamp ∉ pendingRequests s →
  let posted :=
    (onmessage (GenerateEmbedding (embedId stamp) text (Some textType)) o model k).2 in
  let outcome := run (Request stamp text textType :: (Message <$> posted)) s in
  (extractor k = true ∨ o = PipelineLoads →
     outcome.2 = [match model (processedText text textType) with
                  | Extracts embedding => Resolved (embedId stamp) embedding
                  | ExtractorFails message => Rejected (embedId stamp) message
                  end]
     ∧ pendingRequests outcome.1 = pendingRequests s)
  ∧ (∀ message, extractor k = false → o = PipelineFails message →
       outcome.2
       = (λ id, Rejected id (if bool_decide (message = "")
                             then "Pipeline loading failed" else message))
           <$> (pendingRequests s ++ [embedId stamp])
       ∧ pendingRequests outcome.1 = []).
Proof.
  intros Hready Hfresh posted outcome.
  unfold isWorkerReady in Hready. apply andb_true_iff in Hready as [Hr Hw].
  assert (Hset : pending_set (embedId stamp) (pendingRequests s)
                 = pendingRequests s ++ [embedId stamp]).
  { unfold pending_set. by rewrite bool_decide_eq_false_2. }
  assert (Hin : embedId stamp ∈ pending_set (embedId stamp) (pendingRequests s)).
  { rewrite Hset, elem_of_app. right. left. }
  pose proof (pending_delete_set _ _ Hfresh) as Hdel.
  subst outcome posted. cbn [onmessage default].
  unfold handleGenerateEmbedding. split.
  - intros Hloaded.
    assert (Hposted :
      ∃ pre, (if extractor k then (k, [], None) else loadPipeline (num:=num) o k)
             = (pre.1, pre.2, None)
             ∧ (pre.2 = [] ∨ pre.2 = [TransformersLoaded])).
    { destruct (extractor k).
      - exists (k, []). split; [done|by left].
      - destruct Hloaded as [?| ->]; [done|].
        eexists (_, _). split; [reflexivity|by right]. }
    destruct Hposted as ([k1 pre] & -> & Hpre). cbn [fst snd] in *.
    rewrite run_cons. cbn [call]. unfold generateEmbedding. rewrite Hr, Hw.
    cbn [negb orb fst snd app].
    set (s1 := with_pending _ s).
    set (result := match model _ with
                   | Extracts embedding => EmbeddingResult (embedId stamp) true embedding ""
                   | ExtractorFails message => EmbeddingResult (embedId stamp) false [] message
                   end).
    assert (Hlast : ∀ s2, pendingRequests s2 = pendingRequests s1 →
              (run [Message result] s2).2
              = [match model (processedText text textType) with
                 | Extracts embedding => Resolved (embedId stamp) embedding
                 | ExtractorFails message => Rejected (embedId stamp) message
                 end]
              ∧ pendingRequests (run [Message result] s2).1 = pendingRequests s).
    { intros s2 Hp. subst result. cbn [run].
      destruct (model _); cbn [call handleWorkerMessage]; rewrite Hp;
        cbn [s1 with_pending pendingRequests];
        rewrite bool_decide_eq_true_2 by done; cbn; by rewrite Hdel. }
    destruct Hpre as [-> | ->]; cbn [app fmap list_fmap].
    + by apply Hlast.
    + rewrite run_cons. cbn [call handleWorkerMessage fst snd app].
      by apply Hlast.
  - intros message Hk ->. rewrite Hk. cbn [loadPipeline].
    rewrite run_cons. cbn [call]. unfold generateEmbedding. rewrite Hr, Hw.
    cbn [negb orb fst snd app fmap list_fmap].
    rewrite run_cons. cbn [call handleWorkerMessage fst snd with_pending pendingRequests].
    rewrite Hset. cbn [run call handleWorkerMessage with_pending pendingRequests].
    rewrite (bool_decide_eq_false_2 (embedId stamp ∈ [])) by apply not_elem_of_nil.
    cbn [fst snd with_pending pendingRequests]. by rewrite app_nil_r.
Qed.

End BatchFacts.

(** * The cosine is symmetric *)

Section CosineSymmetry.
Context {num : Type} `{!Number num}.
Hypothesis mul_comm : ∀ x y : num, num_mul x y = num_mul y x.

Lemma fold_accumulate_swap (a b : list num) :
  ∀ d na nb,
    fold_left accumulate (combine b a) (d, nb, na)
    = let '(d', na', nb') := fold_left accumulate (combine a b) (d, na, nb) in
      (d', nb', na').
Proof.
  revert b. induction a as [|x a IH]; intros [|y b] d na nb; simpl; try reflexivity.
  rewrite (mul_comm y x). apply IH.
Qed.

Lemma cosineSimilarity_comm (a b : list num) :
  cosineSimilarity a b = cosineSimilarity b a.
Proof.
  unfold cosineSimilarity. rewrite (Nat.eqb_sym (length b) (length a)).
  destruct (negb _); [reflexivity|].
  rewrite (fold_accumulate_swap a b).
  destruct (fold_left accumulate (combine a b) _) as [[d na] nb].
  by rewrite (mul_comm (num_sqrt nb) (num_sqrt na)).
Qed.

End CosineSymmetry.

Lemma SFmul_comm x y : SFmul prec emax x y = SFmul prec emax y x.
Proof.
  destruct x as [sx|sx| |sx mx ex], y as [sy|sy| |sy my ey]; simpl;
    rewrite ?(xorb_comm sx sy); try reflexivity.
  by rewrite (Pos.mul_comm mx my), (Z.add_comm ex ey).
Qed.

Lemma double_mul_comm (x y : float) : PrimFloat.mul x y = PrimFloat.mul y x.
Proof.
  apply FloatAxioms.Prim2SF_inj. rewrite !FloatAxioms.mul_spec. apply SFmul_comm.
Qed.

(** On doubles the cosine does not depend on the order of its two
    arguments: the same score, or the same failure, either way round. *)
Theorem cosineSimilarity_symmetric (a b : list float) :
  cosineSimilarity a b = cosineSimilarity b a.
Proof.
  apply cosineSimilarity_comm. intros x y. apply double_mul_comm.
Qed.

(** * The title shown for a path *)

Lemma occurs_tail sub c s : occurs sub s → occurs sub (String c s).
Proof. intros (pre & post & ->). by exists (String c pre), post. Qed.

Lemma split_on_nonempty sep s : split_on sep s ≠ [].
Proof.
  destruct s as [|c s]; simpl; [done|].
  destruct (Ascii.eqb c sep); [done|]. by destruct (split_on sep s).
Qed.

Lemma split_on_without sep s suffix :
  ¬ occurs (String sep "") s →
  split_on sep suffix = [suffix] →
  split_on sep (s +:+ suffix) = [s +:+ suffix].
Proof.
  intros Hno Hsuf. induction s as [|c s IH]; simpl; [exact Hsuf|].
  destruct (Ascii.eqb_spec c sep) as [->|Hne].
  - destruct Hno. by exists ""%string, s.
  - rewrite IH; [done|]. intros Hocc. apply Hno. by apply occurs_tail.
Qed.

(** What follows the last separator is the last segment. *)
Lemma split_on_last sep s t :
  ∃ seg rest,
    split_on sep (s +:+ String sep t) = seg :: rest
    ∧ rest ≠ []
    ∧ List.last rest ""%string = List.last (split_on sep t) ""%string.
Proof.
  induction s as [|c s (seg & rest & IH & Hrest & Hlast)]; simpl.
  - rewrite Ascii.eqb_refl. exists ""%string, (split_on sep t).
    split; [done|]. split; [apply split_on_nonempty|done].
  - rewrite IH. destruct (Ascii.eqb c sep).
    + exists ""%string, (seg :: rest). split; [done|]. split; [done|].
      rewrite <- Hlast. by destruct rest.
    + exists (String c seg), rest. done.
Qed.

Lemma prefix_true_app s t : String.prefix s t = true → ∃ post, t = s +:+ post.
Proof.
  revert t. induction s as [|a s IH]; intros t.
  - intros _. by exists t.
  - destruct t as [|b t]; simpl; [done|]. destruct (ascii_dec a b) as [->|]; [|done].
    intros (post & ->)%IH. by exists post.
Qed.

(** An occurrence of '.md' that begins inside [t] and ends inside a '.md'
    that follows [t] lies inside [t]. *)
Lemma prefix_nil t : String.prefix "" t = true.
Proof. by destruct t. Qed.

Lemma prefix_cons a s b t :
  String.prefix (String a s) (String b t) = Ascii.eqb a b && String.prefix s t.
Proof.
  cbn [String.prefix]. destruct (ascii_dec a b) as [->|Hne].
  - by rewrite Ascii.eqb_refl.
  - by destruct (Ascii.eqb_spec a b).
Qed.

Lemma prefix_cons_nil a s : String.prefix (String a s) "" = false.
Proof. reflexivity. Qed.

Lemma append_cons c s t : String c s +:+ t = String c (s +:+ t).
Proof. reflexivity. Qed.

Lemma append_nil t : "" +:+ t = t.
Proof. reflexivity. Qed.

Lemma prefix_md_app c t suffix :
  suffix = ".md"%string ∨ suffix = ".md.md"%string →
  String.prefix ".md" (String c t +:+ suffix) = true →
  String.prefix ".md" (String c t) = true.
Proof.
  intros [-> | ->]; destruct t as [|c1 [|c2 t]];
    rewrite ?append_cons, ?append_nil, ?prefix_cons, ?prefix_cons_nil, ?prefix_nil;
    repeat match goal with
           | |- context [Ascii.eqb ?a ?b] =>
               first [is_var b; destruct (Ascii.eqb a b)
                     |let v := eval vm_compute in (Ascii.eqb a b) in
                      change (Ascii.eqb a b) with v]
           end; done.
Qed.

Lemma remove_first_md_suffix s :
  ¬ occurs ".md" s → remove_first_md (s +:+ ".md") = s.
Proof.
  induction s as [|c s IH]; intros Hno; [reflexivity|].
  change (remove_first_md (String c s +:+ ".md"))
    with (if String.prefix ".md" (String c s +:+ ".md")
          then String.substring 3 (String.length (String c s +:+ ".md") - 3)
                 (String c s +:+ ".md")
          else String c (remove_first_md (s +:+ ".md"))).
  destruct (String.prefix ".md" (String c s +:+ ".md")) eqn:Hp.
  - apply prefix_md_app in Hp; [|by left]. apply prefix_true_app in Hp as (post & Hp).
    destruct Hno. exists ""%string, post. exact Hp.
  - rewrite IH; [done|]. intros Hocc. apply Hno. by apply occurs_tail.
Qed.

(** For a note [name].md, in a folder or not, the title shown is [name],
    provided [name] is not empty and contains neither '/' nor '.md'; only the
    first '.md' of the file name is removed, and a file named '.md' is shown
    by its whole path. *)
Theorem getFileTitle_of_note dir name :
  name ≠ ""%string →
  ¬ occurs "/" name →
  ¬ occurs ".md" name →
  getFileTitle (name +:+ ".md") = name
  ∧ getFileTitle (dir +:+ "/" +:+ name +:+ ".md") = name
  ∧ getFileTitle (dir +:+ "/" +:+ name +:+ ".md.md") = name +:+ ".md"
  ∧ getFileTitle (dir +:+ "/.md") = dir +:+ "/.md".
Proof.
  intros Hne Hslash Hmd.
  assert (Hseg : ∀ suffix, split_on "/" suffix = [suffix] →
            split_on "/" (name +:+ suffix) = [name +:+ suffix]).
  { intros suffix. by apply split_on_without. }
  assert (Htitle : ∀ p, List.last (split_on "/" p) ""%string = name +:+ ".md" →
            getFileTitle p = name).
  { intros p Hp. unfold getFileTitle. rewrite Hp, remove_first_md_suffix by done.
    destruct (String.eqb_spec name ""); done. }
  split; [|split; [|split]].
  - apply Htitle. by rewrite (Hseg ".md"%string).
  - apply Htitle.
    destruct (split_on_last "/" dir (name +:+ ".md")) as (seg & rest & Hs & Hr & Hl).
    change (dir +:+ "/" +:+ name +:+ ".md") with (dir +:+ String "/" (name +:+ ".md")).
    rewrite Hs. destruct rest as [|r rest]; [done|].
    change (List.last (seg :: r :: rest) ""%string) with (List.last (r :: rest) ""%string).
    by rewrite Hl, (Hseg ".md"%string).
  - unfold getFileTitle.
    destruct (split_on_last "/" dir (name +:+ ".md.md")) as (seg & rest & Hs & Hr & Hl).
    change (dir +:+ "/" +:+ name +:+ ".md.md")
      with (dir +:+ String "/" (name +:+ ".md.md")).
    rewrite Hs. destruct rest as [|r rest]; [done|].
    change (List.last (seg :: r :: rest) ""%string) with (List.last (r :: rest) ""%string).
    rewrite Hl, (Hseg ".md.md"%string) by done. simpl.
    assert (Hrm : remove_first_md (name +:+ ".md.md") = name +:+ ".md").
    { clear -Hmd. induction name as [|c s IH]; [reflexivity|].
      change (remove_first_md (String c s +:+ ".md.md"))
        with (if String.prefix ".md" (String c s +:+ ".md.md")
              then String.substring 3 (String.length (String c s +:+ ".md.md") - 3)
                     (String c s +:+ ".md.md")
              else String c (remove_first_md (s +:+ ".md.md"))).
      destruct (String.prefix ".md" (String c s +:+ ".md.md")) eqn:Hp.
      - assert (Hp' : String.prefix ".md" (String c s) = true)
          by (apply (prefix_md_app c s ".md.md"); [by right|exact Hp]).
        apply prefix_true_app in Hp' as (post & Hp').
        destruct Hmd. exists ""%string, post. exact Hp'.
      - rewrite IH; [done|]. intros Hocc. apply Hmd. by apply occurs_tail. }
    rewrite Hrm. destruct (String.eqb_spec (name +:+ ".md") ""); [|done].
    by destruct name.
  - unfold getFileTitle.
    destruct (split_on_last "/" dir ".md") as (seg & rest & Hs & Hr & Hl).
    change (dir +:+ "/.md") with (dir +:+ String "/" ".md").
    rewrite Hs. destruct rest as [|r rest]; [done|].
    change (List.last (seg :: r :: rest) ""%string) with (List.last (r :: rest) ""%string).
    rewrite Hl. reflexivity.
Qed.

(** * More concrete runs *)

(** Three stored records match the query; with [topK] 1 one result is
    returned. *)
Lemma searchByEmbedding_at_most_topK_witness :
  let options := {| topK := Some 1; excludePath := None; minScore := None |} in
  ∃ results,
    searchByEmbedding all_enabled library_db [1; 0]%float options = Ok results
    ∧ Z.of_nat (length results) ≤ 1.
Proof.
  intros options. eexists. split; [vm_compute; reflexivity|].
  apply (searchByEmbedding_at_most_topK all_enabled library_db [1; 0]%float options).
  - vm_compute. reflexivity.
  - simpl. lia.
Defined.

(** With [minScore] 0.5 every result scores at least 0.5. *)
Lemma searchByEmbedding_minScore_witness :
  ∃ results,
    searchByEmbedding all_enabled sample_db [1; 0]%float sample_options = Ok results
    ∧ ∀ r, r ∈ results → num_geb (score r) 0.5%float = true.
Proof.
  eexists. split; [vm_compute; reflexivity|].
  apply (searchByEmbedding_minScore all_enabled sample_db [1; 0]%float sample_options).
  - reflexivity.
  - vm_compute. reflexivity.
  - vm_compute. reflexivity.
Defined.

(** A search that excludes "a.md" returns no record of "a.md". *)
Lemma searchByEmbedding_excludes_witness :
  ∃ results,
    searchByEmbedding all_enabled library_db [1; 0]%float without_a = Ok results
    ∧ ∀ r, r ∈ results → sr_path r ≠ "a.md"%string.
Proof.
  eexists. split; [vm_compute; reflexivity|].
  apply (searchByEmbedding_excludes all_enabled library_db [1; 0]%float without_a).
  - reflexivity.
  - discriminate.
  - vm_compute. reflexivity.
Defined.

(** Three records and [topK] 10: every path with a record is returned. *)
Lemma searchByEmbedding_complete_witness :
  ∃ results,
    searchByEmbedding all_enabled library_db [1; 0]%float ten_results = Ok results
    ∧ ∀ p, p ∈ sr_path <$> results
           ↔ is_excluded None p = false
             ∧ ∃ src sc, stored_match all_enabled library_db [1; 0]%float p src sc.
Proof.
  eexists. split; [vm_compute; reflexivity|].
  apply (searchByEmbedding_complete all_enabled library_db [1; 0]%float ten_results).
  - vm_compute. reflexivity.
  - vm_compute. reflexivity.
  - vm_compute. discriminate.
Defined.

(** The title and the content of "a.md" both score 1 against [1, 0]: the
    result is the title match. *)
Lemma searchByEmbedding_tie_break_witness :
  ∃ results,
    searchByEmbedding all_enabled library_db [1; 0]%float ten_results = Ok results
    ∧ ∀ r src sc, r ∈ results →
        stored_match all_enabled library_db [1; 0]%float (sr_path r) src sc →
        num_ltb sc (score r) = false →
        (source_rank (source r) ≤ source_rank src)%nat.
Proof.
  eexists. split; [vm_compute; reflexivity|].
  intros r src sc Hr Hmatch Hlt.
  eapply (searchByEmbedding_tie_break all_enabled library_db [1; 0]%float ten_results
            library_allResults); [| |reflexivity|exact Hr|exact Hmatch|exact Hlt].
  - vm_compute. reflexivity.
  - vm_compute. repeat constructor.
Defined.

(** The title of a new note "a.md" is embedded and stored. *)
Lemma indexTitle_outcome_witness :
  let host := sample_host [note "a" 1] in
  let w := fresh_world 1000 [] in
  let w' := indexTitle host (note "a" 1) w in
  db_titles (db w')
  = <["a.md"%string := {| t_path := "a.md"; t_embedding := [1; 0]%float;
                          t_lastModified := 1; t_title := "a" |}]> ∅
  ∧ db_headings (db w') = ∅
  ∧ db_content (db w') = ∅
  ∧ embedRequests (drop (length (trace w)) (trace w')) = [EvEmbed "a" passage].
Proof.
  intros host w.
  exact (indexTitle_outcome host (note "a" 1) w eq_refl).
Defined.

(** "a.md" was modified and has no heading any more: its heading record is
    deleted and no embedding is asked for. *)
Lemma indexHeadings_without_headings_witness :
  let host := sample_host [note "a" 2] in
  let w := world_of indexed_db in
  let w' := indexHeadings host (note "a" 2) w in
  db_headings (db w') = delete "a.md"%string (db_headings indexed_db)
  ∧ db_titles (db w') = db_titles indexed_db
  ∧ db_content (db w') = db_content indexed_db
  ∧ trace w' = [].
Proof.
  intros host w.
  exact (indexHeadings_without_headings host (note "a" 2) w eq_refl (or_introl eq_refl)).
Defined.



(** A new note with a heading, the three collections enabled. *)
Lemma indexNote_makes_current_witness :
  let host := heading_host [note "a" 1] in
  let w := fresh_world 1000 [] in
  let w' := indexNote host all_enabled (note "a" 1) true w in
  (∀ type, wantedByUser all_enabled type = true →
     expects_record host type (note "a" 1) →
     has_current_record type (note "a" 1) (db w'))
  ∧ same_records_except "a.md" (db w) (db w')
  ∧ (true = true → true = true → true = true →
     expects_record host headings (note "a" 1) →
     updateNoteIfNeeded host all_enabled (note "a" 1) w' = w').
Proof.
  intros host w.
  apply (indexNote_makes_current host all_enabled (note "a" 1) true w).
  intros text. eexists. reflexivity.
Defined.


(** The store with the records of "a.md" is saved; the plugin restarts at
    time 2000 and loads the file. *)
Lemma save_load_round_trip_witness :
  let w := world_of indexed_db in
  let w1 := restarted 2000 (disk (save w)) in
  json_exact_db indexed_db
  ∧ same_records (db (save w)) (db (load w1))
  ∧ json_exact_db (db (load w1))
  ∧ lastUpdate (db (load w1)) = lastUpdate (db (save w))
  ∧ lowered (db (save w)) (db (load w1)).
Proof.
  intros w w1.
  assert (Hjson : json_exact_db indexed_db).
  { repeat split; cbn;
      repeat (apply map_Forall_insert_2; [reflexivity|]); apply map_Forall_empty. }
  destruct (save_load_round_trip w w1 Hjson eq_refl eq_refl)
    as (Hrec & Hexact & Hupd & Hlow & _).
  exact (conj Hjson (conj Hrec (conj Hexact (conj Hupd Hlow)))).
Defined.

(** Headings were switched off while a headings pass held the lock. *)
Lemma checkStateConsistency_blocked_witness :
  checkStateConsistency (sample_host []) headings_off no_text no_text headings_locked
  = Some (save headings_locked).
Proof.
  apply (checkStateConsistency_blocked (sample_host []) headings_off no_text no_text
           headings_locked headings).
  - intros [] []; simpl; congruence.
  - reflexivity.
  - reflexivity.
Defined.

(** A request is answered, and then its timer fires and the worker
    crashes while a batch request is pending. *)
Lemma request_settled_once_witness :
  let cs := [AIWorkerClient.Request "1_a" "a" passage;
             AIWorkerClient.BatchRequest "2_b" ["a"; "b"]%string;
             AIWorkerClient.Message
               (AIWorkerClient.EmbeddingResult "embed_1_a" true [1; 0]%float "");
             AIWorkerClient.TimerFires "embed_1_a";
             AIWorkerClient.Crashes 1700000000000 "crash"] in
  let settled := (AIWorkerClient.run cs ready_client).2 in
  NoDup (AIWorkerClient.settled_id <$> settled)
  ∧ ∀ k, k ∈ AIWorkerClient.settled_id <$> settled →
         k ∈ AIWorkerService.pendingRequests ready_client
             ++ AIWorkerClient.requested cs.
Proof.
  intros cs.
  apply (request_settled_once cs ready_client).
  apply (bool_decide_unpack _). vm_compute. reflexivity.
Defined.


(** The batch request of that run is rejected by its time-out. *)
Example batch_request_times_out :
  (AIWorkerClient.run
     [AIWorkerClient.BatchRequest "2_b" ["a"; "b"]%string;
      AIWorkerClient.Request "1_a" "a" passage;
      AIWorkerClient.Message
        (AIWorkerClient.EmbeddingResult "embed_1_a" true [1; 0]%float "");
      AIWorkerClient.BatchTimerFires "batch_2_b"] ready_client).2
  = [AIWorkerClient.Resolved "embed_1_a" [1; 0]%float;
     AIWorkerClient.Rejected "batch_2_b" "Timeout batch embedding (30s)"].
Proof. vm_compute. reflexivity. Qed.

(** The first request after the files were sent: the worker loads the
    pipeline, then answers. *)
Lemma request_answered_witness :
  let k := {| AIWorker.filesReceived := 4; AIWorker.extractor := false |} in
  let posted :=
    (AIWorker.onmessage (AIWorker.GenerateEmbedding "embed_1_a" "a" (Some passage))
       AIWorker.PipelineLoads (λ _, AIWorker.Extracts [1; 0]%float) k).2 in
  (AIWorkerClient.run
     (AIWorkerClient.Request "1_a" "a" passage :: (AIWorkerClient.Message <$> posted))
     ready_client).2
  = [AIWorkerClient.Resolved "embed_1_a" [1; 0]%float].
Proof.
  intros k posted.
  apply (proj1 (request_answered "1_a" "a" passage AIWorker.PipelineLoads
                  (λ _, AIWorker.Extracts [1; 0]%float) k ready_client
                  eq_refl (not_elem_of_nil _))).
  right. reflexivity.
Defined.

(** A ready client crashes; its restart timer fires and the worker answers. *)
Lemma crashed_worker_stays_down_witness :
  let s' := fold_left AIWorkerService.handle
              [AIWorkerService.RestartTimer AIWorkerService.BecomesReady]
              (fst (AIWorkerService.handleWorkerError 1700000000000 ready_client)) in
  AIWorkerService.isWorkerReady s' = false
  ∧ (∀ o, AIWorkerService.initialize o s' = (Some false, s'))
  ∧ (AIWorkerService.forceReset AIWorkerService.BecomesReady s').1 = Some true
  ∧ AIWorkerService.isWorkerReady
      (AIWorkerService.forceReset AIWorkerService.BecomesReady s').2 = true.
Proof.
  exact (crashed_worker_stays_down 1700000000000 ready_client
           [AIWorkerService.RestartTimer AIWorkerService.BecomesReady] eq_refl).
Defined.

(** The model is loaded for the first time and the worker answers. *)
Lemma autoLoad_status_witness :
  ∃ e', AIServiceCalls.autoLoad AIWorkerService.BecomesReady new_env = Some e'
        ∧ AIService.status (AIServiceCalls.service e') = AIService.ready
        ∧ AIServiceCalls.aiState e' = Some (AIServiceCalls.getStatus e').
Proof.
  eexists. split; [vm_compute; reflexivity|].
  destruct (autoLoad_status AIWorkerService.BecomesReady new_env) as [_ Hloaded].
  - intros Hready. discriminate Hready.
  - destruct (Hloaded _ eq_refl) as (Hiff & _ & Hstate).
    split; [apply Hiff; reflexivity|exact Hstate].
Defined.

(** The note "plan" in the folder "notes". *)
Lemma getFileTitle_of_note_witness :
  getFileTitle "plan.md" = "plan"%string
  ∧ getFileTitle "notes/plan.md" = "plan"%string
  ∧ getFileTitle "notes/plan.md.md" = "plan.md"%string
  ∧ getFileTitle "notes/.md" = "notes/.md"%string.
Proof.
  apply (getFileTitle_of_note "notes" "plan").
  - discriminate.
  - intros (pre & post & H).
    do 4 (destruct pre as [|? pre]; [discriminate H|injection H as _ H]).
    destruct pre; discriminate H.
  - intros (pre & post & H).
    do 4 (destruct pre as [|? pre]; [discriminate H|injection H as _ H]).
    destruct pre; discriminate H.
Defined.
